(** * Connection lifecycle of the Polymarket WebSocket clients

    A shallow embedding of [src/base-client.ts] (class
    [BaseWebSocketClient]) and of the two CLOB channels of
    [src/clob-client.ts] ([ClobMarketClient], [ClobUserClient]), followed
    by the properties of the connection state machine, of the reconnect
    policy and of the subscription replay.  The event emitter of
    [src/event-emitter.ts] and the unified [ClobClient] are embedded
    after the vocabulary of these properties, and their properties come
    last.

    Conventions of the embedding.
    - A client instance together with the runtime around it (the sockets
      it constructed, the timers it armed, the promises it returned) is a
      record [World]; every method is a computation in the monad [Run],
      which threads the world, collects the observable effects in program
      order and propagates thrown errors.
    - The transport ([WebSocket]) and the timers ([setTimeout],
      [setInterval]) are the platform's.  Their calls are recorded; what
      they deliver later (a socket opening or closing, a timer firing) is
      an [Input] of the machine, like a call of the public API.
    - A socket delivers an event only in a ready state that has it: it
      opens once, out of CONNECTING, it closes once, and messages come
      while it is OPEN. Its ready state changes when it delivers the
      open or the close, and when the client calls [close]. Its [send]
      is the one of the platform's [WebSocket]: it takes a text only
      while the socket is OPEN and throws while it is CONNECTING.
      Whether the constructor of the transport throws is a fact of the
      world ([constructorThrows]).
    - A number is an IEEE 754 double; the arithmetic of the reconnect
      delay is that of [SpecFloat] for binary64, with its rounding, its
      infinities and its NaN. The options that are durations are
      integers of milliseconds, and the attempt counter is a natural
      number.
    - [Math.random()] is an input: it comes with the close of the socket
      that makes the client ask for it, as a fraction [num # den] that
      stands for the double [num / den].
    - The credentials of the user channel are the caller's object, which
      the client keeps by reference: the world holds the properties that
      the object has now, in the order in which they are serialized, and
      a caller that changes the object afterwards is an input of the
      machine.
    - A JavaScript [Set<string>] is the list of its elements in insertion
      order; a string is the sequence of its UTF-8 bytes.
    - Listeners registered with [on]/[once] are observers: publishing an
      event is the effect [Emit], and a listener does not call back into
      the client while it is being notified. *)

From Stdlib Require Import String Ascii ZArith QArith Qminmax Qpower SpecFloat Lia.
From stdpp Require Import base decidable option list strings.

Local Open Scope string_scope.
Local Open Scope list_scope.

(** ** JavaScript values that the client handles *)

(** [Number.MAX_SAFE_INTEGER], 2^53 - 1, and [Number.isSafeInteger] on
    the integers. *)
Definition MAX_SAFE_INTEGER : Z := 9007199254740991.

Definition isSafeInteger (n : Z) : bool := (Z.abs n <=? MAX_SAFE_INTEGER)%Z.

(** Values that have a JSON text: what [send] receives when the payload
    is not a string. The numbers are the safe integers, which are
    doubles and which [JSON.stringify] prints digit by digit; a number
    with a fraction or of a larger magnitude (printed with an exponent
    from 10^21 on) is not a value of this type. *)
#[warnings="-register-all"]
Inductive Json :=
| JNull
| JBool (b : bool)
| JNumber (n : Z) (safe : Is_true (isSafeInteger n))
| JString (s : string)
| JArray (items : list Json)
| JObject (fields : list (string * Json)).

Module JSON.

(** The double quote character, code 34. *)
Definition dquote : ascii := ascii_of_N 34.

Definition hex_digit (n : N) : ascii :=
  match n with
  | 0 => "0" | 1 => "1" | 2 => "2" | 3 => "3" | 4 => "4" | 5 => "5"
  | 6 => "6" | 7 => "7" | 8 => "8" | 9 => "9" | 10 => "a" | 11 => "b"
  | 12 => "c" | 13 => "d" | 14 => "e" | _ => "f"
  end%N%char.

(** One character of a quoted JSON string (QuoteJSONString). *)
Definition quote_char (c : ascii) : string :=
  let n := N_of_ascii c in
  if (n =? 8)%N then "\b"
  else if (n =? 9)%N then "\t"
  else if (n =? 10)%N then "\n"
  else if (n =? 12)%N then "\f"
  else if (n =? 13)%N then "\r"
  else if (n =? 34)%N then String "\" (String dquote EmptyString)
  else if (n =? 92)%N then "\\"
  else if (n <? 32)%N then
    "\u00" +:+ String (hex_digit (n / 16)) (String (hex_digit (n mod 16)) EmptyString)
  else String c EmptyString.

Fixpoint quote_body (s : string) : string :=
  match s with
  | EmptyString => EmptyString
  | String c rest => quote_char c +:+ quote_body rest
  end.

Definition quote (s : string) : string :=
  String dquote (quote_body s +:+ String dquote EmptyString).

Fixpoint digits (fuel : nat) (n : N) (acc : string) : string :=
  match fuel with
  | O => acc
  | S fuel' =>
      let acc' := String (hex_digit (n mod 10)) acc in
      if (n / 10 =? 0)%N then acc' else digits fuel' (n / 10) acc'
  end.

(** The text of a safe integer: [Number::toString] of an integer below
    10^21 is its decimal digits. *)
Definition number (n : Z) (safe : Is_true (isSafeInteger n)) : string :=
  let m := Z.to_N (Z.abs n) in
  let d := digits (S (N.to_nat (N.log2 m))) m EmptyString in
  if (n <? 0)%Z then String "-" d else d.

Definition commas (parts : list string) : string :=
  match parts with
  | [] => EmptyString
  | p :: ps => fold_left (fun acc q => acc +:+ "," +:+ q) ps p
  end.

(** [JSON.stringify(value)] without indentation. *)
Fixpoint stringify (v : Json) : string :=
  match v with
  | JNull => "null"
  | JBool true => "true"
  | JBool false => "false"
  | JNumber n safe => number n safe
  | JString s => quote s
  | JArray items => "[" +:+ commas (map stringify items) +:+ "]"
  | JObject fields =>
      "{" +:+ commas (map (fun kv => quote (fst kv) +:+ ":" +:+ stringify (snd kv)) fields) +:+ "}"
  end.

End JSON.

Module JsString.

(** Position inside the UTF-8 encoding of a white-space code point. *)
Inductive Scan :=
| Boundary | C2 | E1 | E1_9A | E2 | E2_80 | E2_81 | E3 | E3_80 | EF | EF_BB.

(** One byte of a run of WhiteSpace and LineTerminator code points, the
    characters that [String.prototype.trim] strips: U+0009 to U+000D,
    U+0020, U+00A0, U+1680, U+2000 to U+200A, U+2028, U+2029, U+202F,
    U+205F, U+3000 and U+FEFF. *)
Definition scan (st : Scan) (b : N) : option Scan :=
  match st with
  | Boundary =>
      if ((9 <=? b) && (b <=? 13) || (b =? 32))%N then Some Boundary
      else if (b =? 194)%N then Some C2
      else if (b =? 225)%N then Some E1
      else if (b =? 226)%N then Some E2
      else if (b =? 227)%N then Some E3
      else if (b =? 239)%N then Some EF
      else None
  | C2 => if (b =? 160)%N then Some Boundary else None
  | E1 => if (b =? 154)%N then Some E1_9A else None
  | E1_9A => if (b =? 128)%N then Some Boundary else None
  | E2 =>
      if (b =? 128)%N then Some E2_80
      else if (b =? 129)%N then Some E2_81
      else None
  | E2_80 =>
      if ((128 <=? b) && (b <=? 138) || (b =? 168) || (b =? 169) || (b =? 175))%N
      then Some Boundary else None
  | E2_81 => if (b =? 159)%N then Some Boundary else None
  | E3 => if (b =? 128)%N then Some E3_80 else None
  | E3_80 => if (b =? 128)%N then Some Boundary else None
  | EF => if (b =? 187)%N then Some EF_BB else None
  | EF_BB => if (b =? 191)%N then Some Boundary else None
  end.

Fixpoint white_from (st : Scan) (s : string) : bool :=
  match s with
  | EmptyString => match st with Boundary => true | _ => false end
  | String c rest =>
      match scan st (N_of_ascii c) with
      | Some st' => white_from st' rest
      | None => false
      end
  end.

(** [s.trim() === ''] *)
Definition trim_is_empty (s : string) : bool := white_from Boundary s.

End JsString.

(** A [Set<string>]: [has], [add], [delete], [clear], [size] and
    [Array.from], on the list of elements in insertion order. *)
Module JsSet.
Section Ops.
Context {A : Type} `{EqDecision A}.

Definition has (x : A) (s : list A) : bool := bool_decide (x ∈ s).

Definition add (x : A) (s : list A) : list A :=
  if has x s then s else s ++ [x].

Definition delete (x : A) (s : list A) : list A :=
  filter (fun y => y <> x) s.

Definition clear : list A := [].

Definition size (s : list A) : nat := length s.
End Ops.
End JsSet.

(** A [Map<string, V>]: [get] and [set] on the list of entries in
    insertion order. *)
Module JsMap.
Section Ops.
Context {V : Type}.

Fixpoint get (k : string) (m : list (string * V)) : option V :=
  match m with
  | [] => None
  | (k', v) :: rest => if decide (k' = k) then Some v else get k rest
  end.

Fixpoint set (k : string) (v : V) (m : list (string * V)) : list (string * V) :=
  match m with
  | [] => [(k, v)]
  | (k', v') :: rest =>
      if decide (k' = k) then (k, v) :: rest else (k', v') :: set k v rest
  end.

(** [has] and [delete]. *)
Definition has (k : string) (m : list (string * V)) : bool :=
  match get k m with
  | Some _ => true
  | None => false
  end.

Definition delete (k : string) (m : list (string * V)) : list (string * V) :=
  filter (fun kv => kv.1 <> k) m.
End Ops.
End JsMap.

(** An object as [JSON.stringify] sees it: its own enumerable
    properties that have a JSON text, in the order of [Object.keys]. *)
Record JsObject := {
  properties : list (string * Json);
}.

(** ** Numbers *)

(** The doubles, with the operations that the client uses. Every
    operation rounds to nearest, ties to even. *)
Module Double.

Definition prec : Z := 53.
Definition emax : Z := 1024.

Definition double : Type := spec_float.

Definition NaN : double := S754_nan.

(** The number that an integer denotes: the nearest double. *)
Definition of_Z (n : Z) : double := binary_normalize prec emax n 0 false.

Definition add (x y : double) : double := SFadd prec emax x y.
Definition mul (x y : double) : double := SFmul prec emax x y.
Definition div (x y : double) : double := SFdiv prec emax x y.

(** [num / den] *)
Definition of_Q (q : Q) : double := div (of_Z (Qnum q)) (of_Z (Zpos (Qden q))).

(** [Math.pow(2, k)] for an integer [k]: the power of two itself while
    it is a double, [Infinity] from 2^1024 on. *)
Definition pow2 (k : Z) : double := SFldexp prec emax (of_Z 1) k.

(** [Math.min(x, y)]: NaN when an argument is NaN, and -0 is below +0. *)
Definition min (x y : double) : double :=
  match SFcompare x y with
  | None => NaN
  | Some Lt => x
  | Some Gt => y
  | Some Eq => match x with S754_zero true => x | _ => y end
  end.


Global Instance double_eq_dec : EqDecision double.
Proof. solve_decision. Defined.


End Double.

(** ** Configuration *)

(** [ClobClientOptions]: every field is optional. A number of attempts
    is [None] for [Infinity]; durations are milliseconds. *)
Record ClobClientOptions := {
  opt_url : option string;
  opt_autoReconnect : option bool;
  opt_maxReconnectAttempts : option (option nat);
  opt_reconnectDelay : option Z;
  opt_maxReconnectDelay : option Z;
  opt_heartbeatInterval : option Z;
  opt_connectionTimeout : option Z;
}.

(** [InternalOptions], the options after the constructor filled them in. *)
Record Options := {
  url : string;
  autoReconnect : bool;
  maxReconnectAttempts : option nat;
  reconnectDelay : Z;
  maxReconnectDelay : Z;
  heartbeatInterval : Z;
  connectionTimeout : Z;
}.

Module DEFAULTS.
Definition autoReconnect : bool := true.
Definition maxReconnectAttempts : option nat := None.
Definition reconnectDelay : Z := 1000.
Definition maxReconnectDelay : Z := 30000.
Definition heartbeatInterval : Z := 30000.
Definition connectionTimeout : Z := 10000.
End DEFAULTS.

Definition DEFAULT_CLOB_WSS_URL : string :=
  "wss://ws-subscriptions-clob.polymarket.com/ws/market".
Definition DEFAULT_CLOB_USER_WSS_URL : string :=
  "wss://ws-subscriptions-clob.polymarket.com/ws/user".

(** The constructors: [options.url ?? default_url] in the channel, then
    [options.x ?? DEFAULTS.x] in [BaseWebSocketClient]. *)
Definition internal_options (default_url : string) (o : ClobClientOptions) : Options := {|
  url := default default_url (opt_url o);
  autoReconnect := default DEFAULTS.autoReconnect (opt_autoReconnect o);
  maxReconnectAttempts := default DEFAULTS.maxReconnectAttempts (opt_maxReconnectAttempts o);
  reconnectDelay := default DEFAULTS.reconnectDelay (opt_reconnectDelay o);
  maxReconnectDelay := default DEFAULTS.maxReconnectDelay (opt_maxReconnectDelay o);
  heartbeatInterval := default DEFAULTS.heartbeatInterval (opt_heartbeatInterval o);
  connectionTimeout := default DEFAULTS.connectionTimeout (opt_connectionTimeout o);
|}.

(** ** The connection state, errors, events and effects *)

Inductive ConnectionState := disconnected | connecting | connected | reconnecting.

Global Instance ConnectionState_eq_dec : EqDecision ConnectionState.
Proof. solve_decision. Defined.

(** [a === b] on connection states. *)
Definition state_eqb (a b : ConnectionState) : bool :=
  match a, b with
  | disconnected, disconnected | connecting, connecting
  | connected, connected | reconnecting, reconnecting => true
  | _, _ => false
  end.

(** The errors that the client creates, by their message, and the
    ones that the transport throws. *)
Inductive Error :=
| NotConnected                 (* Error('WebSocket is not connected') *)
| ConnectionTimeout (ms : Z)   (* Error(`Connection timeout after ${ms}ms`) *)
| WebSocketError               (* Error('WebSocket error') *)
| MaxReconnect                 (* Error('Max reconnection attempts reached') *)
| ConstructorFailure           (* what [new WebSocket(url)] threw *)
| InvalidState                 (* what [send] of a connecting socket throws *)
| TypeError (message : string).

(** [ClientEventMap], with [rawMessage] of [BaseEventMap]. *)
Inductive ClientEvent :=
| Connected
| Disconnected (code : Z) (reason : string)
| Reconnecting (attempt : nat) (maxAttempts : option nat)
| ErrorEvent (e : Error)
| StateChange (state previousState : ConnectionState)
| RawMessage (data : string).

(** What an observer of the client and of its transport sees, in the
    order in which the code does it. *)
Inductive Effect :=
| Emit (ev : ClientEvent)                   (* this.emit(name, payload) *)
| WsNew (i : nat) (url : string)            (* new WebSocket(url) gave socket i *)
| WsSend (i : nat) (text : string)          (* socket i took text to transmit it *)
| WsClose (i : nat) (how : option (Z * string))  (* socket i: close() or close(code, reason) *)
| Resolve (p : nat)                         (* resolve() of promise p *)
| Reject (p : nat) (e : Error)              (* reject(error) of promise p *)
| Invoke (callback : nat).                  (* a channel callback is called *)

(** ** The runtime: sockets and timers *)

Inductive ReadyState := CONNECTING | OPEN | CLOSING | CLOSED.

Global Instance ReadyState_eq_dec : EqDecision ReadyState.
Proof. solve_decision. Defined.

Definition is_CONNECTING (r : ReadyState) : bool :=
  match r with CONNECTING => true | _ => false end.
Definition is_OPEN (r : ReadyState) : bool :=
  match r with OPEN => true | _ => false end.
Definition is_CLOSED (r : ReadyState) : bool :=
  match r with CLOSED => true | _ => false end.

(** A socket that the client constructed. [handlers] is [Some p] while
    the four handlers installed by the [createConnection] call that
    returned promise [p] are in place, [None] once [cleanup] set them to
    [null]. *)
Record Socket := {
  sock_url : string;
  readyState : ReadyState;
  handlers : option nat;
}.

(** A pending timer, by the callback it runs. *)
Inductive Timer :=
| ConnectionTimer (p : nat) (ms : Z)   (* setTimeout in createConnection, promise p *)
| ReconnectTimer (delay : Double.double)  (* setTimeout in scheduleReconnect *)
| HeartbeatTimer (ms : Z).             (* setInterval in startHeartbeat *)

(** ** Channels *)

(** [ClobAuth], the interface of the credentials. *)
Record ClobAuth := {
  apiKey : string;
  secret : string;
  passphrase : string;
}.

(** The object literal [{ apiKey, secret, passphrase }]. *)
Definition credentials (a : ClobAuth) : JsObject := {|
  properties := [("apiKey", JString (apiKey a)); ("secret", JString (secret a));
                 ("passphrase", JString (passphrase a))];
|}.

Coercion credentials : ClobAuth >-> JsObject.

(** The two subclasses of [BaseWebSocketClient] in [clob-client.ts]. The
    user channel keeps the object that it was given, [this.auth = auth],
    whatever properties it has beside the three of [ClobAuth]. *)
Inductive Channel :=
| Market                   (* ClobMarketClient *)
| User (auth : JsObject).  (* ClobUserClient *)

(** ** The world *)

(** The fields of the client, then the runtime. A timer handle is the
    index of the timer in [timers], a socket is known by its index in
    [sockets]: handles are never reused. [pendingSubscriptions] is left
    out: nothing in the base class or in the CLOB channels adds to it, so
    [flushPendingSubscriptions] always iterates over an empty array. *)
Record World := {
  options : Options;
  channel : Channel;
  ws : option nat;
  state : ConnectionState;
  reconnectAttempts : nat;
  reconnectTimer : option nat;
  heartbeatTimer : option nat;
  connectionTimer : option nat;
  isIntentionalClose : bool;
  ledger : list string;                       (* assetIds, marketIds: Set<string> *)
  eventCallbacks : list (string * list nat);  (* Map<string, Set<callback>> *)
  sockets : list Socket;
  timers : list (option Timer);
  promises : nat;
  constructorThrows : bool;                   (* new WebSocket(url) throws for this URL *)
}.

Definition default_url (ch : Channel) : string :=
  match ch with
  | Market => DEFAULT_CLOB_WSS_URL
  | User _ => DEFAULT_CLOB_USER_WSS_URL
  end.

(** A client just constructed. *)
Definition new_client (ch : Channel) (o : ClobClientOptions) (throws : bool) : World := {|
  options := internal_options (default_url ch) o;
  channel := ch;
  ws := None;
  state := disconnected;
  reconnectAttempts := 0;
  reconnectTimer := None;
  heartbeatTimer := None;
  connectionTimer := None;
  isIntentionalClose := false;
  ledger := [];
  eventCallbacks := [];
  sockets := [];
  timers := [];
  promises := 0;
  constructorThrows := throws;
|}.

(** Field updates. *)
Definition set_channel (v : Channel) (w : World) : World :=
  {| options := options w; channel := v; ws := ws w; state := state w;
     reconnectAttempts := reconnectAttempts w; reconnectTimer := reconnectTimer w;
     heartbeatTimer := heartbeatTimer w; connectionTimer := connectionTimer w;
     isIntentionalClose := isIntentionalClose w; ledger := ledger w;
     eventCallbacks := eventCallbacks w; sockets := sockets w; timers := timers w;
     promises := promises w; constructorThrows := constructorThrows w |}.

Definition set_ws (v : option nat) (w : World) : World :=
  {| options := options w; channel := channel w; ws := v; state := state w;
     reconnectAttempts := reconnectAttempts w; reconnectTimer := reconnectTimer w;
     heartbeatTimer := heartbeatTimer w; connectionTimer := connectionTimer w;
     isIntentionalClose := isIntentionalClose w; ledger := ledger w;
     eventCallbacks := eventCallbacks w; sockets := sockets w; timers := timers w;
     promises := promises w; constructorThrows := constructorThrows w |}.

Definition set_state (v : ConnectionState) (w : World) : World :=
  {| options := options w; channel := channel w; ws := ws w; state := v;
     reconnectAttempts := reconnectAttempts w; reconnectTimer := reconnectTimer w;
     heartbeatTimer := heartbeatTimer w; connectionTimer := connectionTimer w;
     isIntentionalClose := isIntentionalClose w; ledger := ledger w;
     eventCallbacks := eventCallbacks w; sockets := sockets w; timers := timers w;
     promises := promises w; constructorThrows := constructorThrows w |}.

Definition set_reconnectAttempts (v : nat) (w : World) : World :=
  {| options := options w; channel := channel w; ws := ws w; state := state w;
     reconnectAttempts := v; reconnectTimer := reconnectTimer w;
     heartbeatTimer := heartbeatTimer w; connectionTimer := connectionTimer w;
     isIntentionalClose := isIntentionalClose w; ledger := ledger w;
     eventCallbacks := eventCallbacks w; sockets := sockets w; timers := timers w;
     promises := promises w; constructorThrows := constructorThrows w |}.

Definition set_reconnectTimer (v : option nat) (w : World) : World :=
  {| options := options w; channel := channel w; ws := ws w; state := state w;
     reconnectAttempts := reconnectAttempts w; reconnectTimer := v;
     heartbeatTimer := heartbeatTimer w; connectionTimer := connectionTimer w;
     isIntentionalClose := isIntentionalClose w; ledger := ledger w;
     eventCallbacks := eventCallbacks w; sockets := sockets w; timers := timers w;
     promises := promises w; constructorThrows := constructorThrows w |}.

Definition set_heartbeatTimer (v : option nat) (w : World) : World :=
  {| options := options w; channel := channel w; ws := ws w; state := state w;
     reconnectAttempts := reconnectAttempts w; reconnectTimer := reconnectTimer w;
     heartbeatTimer := v; connectionTimer := connectionTimer w;
     isIntentionalClose := isIntentionalClose w; ledger := ledger w;
     eventCallbacks := eventCallbacks w; sockets := sockets w; timers := timers w;
     promises := promises w; constructorThrows := constructorThrows w |}.

Definition set_connectionTimer (v : option nat) (w : World) : World :=
  {| options := options w; channel := channel w; ws := ws w; state := state w;
     reconnectAttempts := reconnectAttempts w; reconnectTimer := reconnectTimer w;
     heartbeatTimer := heartbeatTimer w; connectionTimer := v;
     isIntentionalClose := isIntentionalClose w; ledger := ledger w;
     eventCallbacks := eventCallbacks w; sockets := sockets w; timers := timers w;
     promises := promises w; constructorThrows := constructorThrows w |}.

Definition set_isIntentionalClose (v : bool) (w : World) : World :=
  {| options := options w; channel := channel w; ws := ws w; state := state w;
     reconnectAttempts := reconnectAttempts w; reconnectTimer := reconnectTimer w;
     heartbeatTimer := heartbeatTimer w; connectionTimer := connectionTimer w;
     isIntentionalClose := v; ledger := ledger w;
     eventCallbacks := eventCallbacks w; sockets := sockets w; timers := timers w;
     promises := promises w; constructorThrows := constructorThrows w |}.

Definition set_ledger (v : list string) (w : World) : World :=
  {| options := options w; channel := channel w; ws := ws w; state := state w;
     reconnectAttempts := reconnectAttempts w; reconnectTimer := reconnectTimer w;
     heartbeatTimer := heartbeatTimer w; connectionTimer := connectionTimer w;
     isIntentionalClose := isIntentionalClose w; ledger := v;
     eventCallbacks := eventCallbacks w; sockets := sockets w; timers := timers w;
     promises := promises w; constructorThrows := constructorThrows w |}.

Definition set_eventCallbacks (v : list (string * list nat)) (w : World) : World :=
  {| options := options w; channel := channel w; ws := ws w; state := state w;
     reconnectAttempts := reconnectAttempts w; reconnectTimer := reconnectTimer w;
     heartbeatTimer := heartbeatTimer w; connectionTimer := connectionTimer w;
     isIntentionalClose := isIntentionalClose w; ledger := ledger w;
     eventCallbacks := v; sockets := sockets w; timers := timers w;
     promises := promises w; constructorThrows := constructorThrows w |}.

Definition set_sockets (v : list Socket) (w : World) : World :=
  {| options := options w; channel := channel w; ws := ws w; state := state w;
     reconnectAttempts := reconnectAttempts w; reconnectTimer := reconnectTimer w;
     heartbeatTimer := heartbeatTimer w; connectionTimer := connectionTimer w;
     isIntentionalClose := isIntentionalClose w; ledger := ledger w;
     eventCallbacks := eventCallbacks w; sockets := v; timers := timers w;
     promises := promises w; constructorThrows := constructorThrows w |}.

Definition set_timers (v : list (option Timer)) (w : World) : World :=
  {| options := options w; channel := channel w; ws := ws w; state := state w;
     reconnectAttempts := reconnectAttempts w; reconnectTimer := reconnectTimer w;
     heartbeatTimer := heartbeatTimer w; connectionTimer := connectionTimer w;
     isIntentionalClose := isIntentionalClose w; ledger := ledger w;
     eventCallbacks := eventCallbacks w; sockets := sockets w; timers := v;
     promises := promises w; constructorThrows := constructorThrows w |}.

Definition set_promises (v : nat) (w : World) : World :=
  {| options := options w; channel := channel w; ws := ws w; state := state w;
     reconnectAttempts := reconnectAttempts w; reconnectTimer := reconnectTimer w;
     heartbeatTimer := heartbeatTimer w; connectionTimer := connectionTimer w;
     isIntentionalClose := isIntentionalClose w; ledger := ledger w;
     eventCallbacks := eventCallbacks w; sockets := sockets w; timers := timers w;
     promises := v; constructorThrows := constructorThrows w |}.

(** ** The monad of the methods *)

Inductive Result (A : Type) :=
| Ok (a : A)
| Thrown (e : Error).
Global Arguments Ok {A} a.
Global Arguments Thrown {A} e.

(** A method runs in a world and gives a result or a thrown error, the
    world it leaves, and the effects it had, oldest first. What was done
    before a [throw] stays done. *)
Definition Run (A : Type) : Type := World -> Result A * World * list Effect.

Global Instance Run_ret : MRet Run := fun A a w => (Ok a, w, []).

Global Instance Run_bind : MBind Run := fun A B f m w =>
  match m w with
  | (Ok a, w1, fx1) =>
      match f a w1 with
      | (r, w2, fx2) => (r, w2, fx1 ++ fx2)
      end
  | (Thrown e, w1, fx1) => (Thrown e, w1, fx1)
  end.

Definition throw {A} (e : Error) : Run A := fun w => (Thrown e, w, []).

(** [try { m } catch (error) { handler error }] *)
Definition try_catch {A} (m : Run A) (handler : Error -> Run A) : Run A := fun w =>
  match m w with
  | (Ok a, w1, fx1) => (Ok a, w1, fx1)
  | (Thrown e, w1, fx1) =>
      match handler e w1 with
      | (r, w2, fx2) => (r, w2, fx1 ++ fx2)
      end
  end.

Definition get : Run World := fun w => (Ok w, w, []).
Definition modify (f : World -> World) : Run unit := fun w => (Ok tt, f w, []).
Definition tell (fx : Effect) : Run unit := fun w => (Ok tt, w, [fx]).
Definition skip : Run unit := mret tt.

Definition world_of {A} (r : Result A * World * list Effect) : World := snd (fst r).
Definition effects_of {A} (r : Result A * World * list Effect) : list Effect := snd r.
Definition result_of {A} (r : Result A * World * list Effect) : Result A := fst (fst r).

(** ** The platform: timers, sockets, promises *)

(** [setTimeout] and [setInterval]: the handle of the new timer. *)
Definition arm (t : Timer) : Run nat := fun w =>
  (Ok (length (timers w)), set_timers (timers w ++ [Some t]) w, []).

(** [clearTimeout] and [clearInterval]; a handle that is not pending is
    ignored. *)
Definition cancel (h : nat) : Run unit :=
  modify (fun w => set_timers (<[h := None]> (timers w)) w).

(** [new Promise(...)]: the promises are numbered. *)
Definition new_promise : Run nat := fun w =>
  (Ok (promises w), set_promises (S (promises w)) w, []).

(** [new WebSocket(url)]: throws, or gives a socket that is connecting
    and has no handler yet. *)
Definition new_WebSocket (u : string) : Run nat := fun w =>
  if constructorThrows w then (Thrown ConstructorFailure, w, [])
  else
    let i := length (sockets w) in
    (Ok i,
     set_sockets (sockets w ++ [{| sock_url := u; readyState := CONNECTING; handlers := None |}]) w,
     [WsNew i u]).

(** An assignment to a property of socket [i], if there is such a
    socket. *)
Definition update_socket (i : nat) (f : Socket -> Socket) : Run unit :=
  modify (fun w => set_sockets (alter f i (sockets w)) w).

Definition set_handlers (v : option nat) (s : Socket) : Socket :=
  {| sock_url := sock_url s; readyState := readyState s; handlers := v |}.

Definition set_readyState (v : ReadyState) (s : Socket) : Socket :=
  {| sock_url := sock_url s; readyState := v; handlers := handlers s |}.

(** What [close()] does to a socket: one that is connecting or open
    starts closing; one that is closing or closed stays as it is. *)
Definition closing (s : Socket) : Socket :=
  match readyState s with
  | CONNECTING | OPEN => set_readyState CLOSING s
  | CLOSING | CLOSED => s
  end.

(** [socket.close()], [socket.close(code, reason)] *)
Definition ws_close (i : nat) (how : option (Z * string)) : Run unit :=
  tell (WsClose i how) ;;
  update_socket i closing.

(** [socket.send(text)] of the platform's [WebSocket]: a socket that is
    open takes the text; one that is still connecting throws an
    [InvalidStateError]; one that is closing or closed drops the text
    and throws nothing. (The test double of the repository,
    [MockWebSocket], throws in these two states as well.) *)
Definition ws_send (i : nat) (text : string) : Run unit :=
  w ← get;
  match sockets w !! i with
  | Some s =>
      match readyState s with
      | CONNECTING => throw InvalidState
      | OPEN => tell (WsSend i text)
      | CLOSING | CLOSED => skip
      end
  | None => skip
  end.

(** ** BaseWebSocketClient *)

(** [emit(event, data)] of [TypedEventEmitter]: every listener of the
    event is notified; a listener that throws does not stop the others
    nor the publisher. *)
Definition emit (ev : ClientEvent) : Run unit := tell (Emit ev).

(** [get isConnected()] *)
Definition isConnected (w : World) : bool := state_eqb (state w) connected.

(** [handleError(error)]; [onError] is the empty hook. *)
Definition handleError (error : Error) : Run unit := emit (ErrorEvent error).

(** [setState(newState)] *)
Definition setState (newState : ConnectionState) : Run unit :=
  w ← get;
  if negb (state_eqb (state w) newState) then
    let previousState := state w in
    modify (set_state newState) ;;
    emit (StateChange newState previousState)
  else skip.

(** What [send] hands to the transport:
    [typeof data === 'string' ? data : JSON.stringify(data)]. *)
Definition wire (data : Json) : string :=
  match data with
  | JString s => s
  | _ => JSON.stringify data
  end.

(** [send(data)] *)
Definition send (data : Json) : Run unit :=
  w ← get;
  match ws w with
  | Some i =>
      if negb (state_eqb (state w) connected) then throw NotConnected
      else ws_send i (wire data)
  | None => throw NotConnected
  end.

(** [clearConnectionTimeout()] *)
Definition clearConnectionTimeout : Run unit :=
  w ← get;
  match connectionTimer w with
  | Some h => cancel h ;; modify (set_connectionTimer None)
  | None => skip
  end.

(** [stopHeartbeat()] *)
Definition stopHeartbeat : Run unit :=
  w ← get;
  match heartbeatTimer w with
  | Some h => cancel h ;; modify (set_heartbeatTimer None)
  | None => skip
  end.

(** [startHeartbeat()] *)
Definition startHeartbeat : Run unit :=
  stopHeartbeat ;;
  w ← get;
  h ← arm (HeartbeatTimer (heartbeatInterval (options w)));
  modify (set_heartbeatTimer (Some h)).

(** [sendHeartbeat()]: errors of [send] are ignored. *)
Definition sendHeartbeat : Run unit :=
  try_catch (send (JString "ping")) (fun _ => skip).

(** The callback of the heartbeat interval. *)
Definition heartbeat_tick : Run unit :=
  w ← get;
  if state_eqb (state w) connected then sendHeartbeat else skip.

(** [flushPendingSubscriptions()]: the array is empty. *)
Definition flushPendingSubscriptions : Run unit := skip.

(** The delay of [scheduleReconnect]:
    [Math.min(reconnectDelay * Math.pow(2, attempts - 1) + Math.random() * 1000,
              maxReconnectDelay)],
    in the arithmetic of the doubles, [random] being what
    [Math.random()] returned. *)
Definition reconnect_delay (o : Options) (attempts : nat) (random : Q) : Double.double :=
  Double.min
    (Double.add
       (Double.mul (Double.of_Z (reconnectDelay o)) (Double.pow2 (Z.of_nat attempts - 1)))
       (Double.mul (Double.of_Q random) (Double.of_Z 1000)))
    (Double.of_Z (maxReconnectDelay o)).

(** [reconnectAttempts >= maxReconnectAttempts] *)
Definition attempts_exhausted (attempts : nat) (maxAttempts : option nat) : bool :=
  match maxAttempts with
  | Some m => (m <=? attempts)%nat
  | None => false
  end.

(** [createConnection()]: the promise it returns. The handlers it
    installs are [onopen], [onclose], [onerror] and [onmessage] below;
    the timer it arms runs [connection_timeout]. *)
Definition createConnection : Run nat :=
  setState connecting ;;
  p ← new_promise;
  try_catch
    (w ← get;
     i ← new_WebSocket (url (options w));
     modify (set_ws (Some i)) ;;
     h ← arm (ConnectionTimer p (connectionTimeout (options w)));
     modify (set_connectionTimer (Some h)) ;;
     update_socket i (set_handlers (Some p)))
    (fun error =>
       clearConnectionTimeout ;;
       handleError error ;;
       tell (Reject p error)) ;;
  mret p.

(** The callback of the connection timeout of promise [p]. *)
Definition connection_timeout (p : nat) : Run unit :=
  w ← get;
  let error := ConnectionTimeout (connectionTimeout (options w)) in
  handleError error ;;
  w ← get;
  match ws w with
  | Some i => ws_close i None
  | None => skip
  end ;;
  tell (Reject p error).

(** The callback of the reconnect timer; a rejection of
    [createConnection] is caught and dropped. *)
Definition reconnect_now : Run unit :=
  try_catch (createConnection ;; skip) (fun _ => skip).

(** [scheduleReconnect()] *)
Definition scheduleReconnect (random : Q) : Run unit :=
  w ← get;
  if attempts_exhausted (reconnectAttempts w) (maxReconnectAttempts (options w)) then
    setState disconnected ;;
    handleError MaxReconnect
  else
    setState reconnecting ;;
    modify (fun w => set_reconnectAttempts (S (reconnectAttempts w)) w) ;;
    w ← get;
    let delay := reconnect_delay (options w) (reconnectAttempts w) random in
    emit (Reconnecting (reconnectAttempts w) (maxReconnectAttempts (options w))) ;;
    h ← arm (ReconnectTimer delay);
    modify (set_reconnectTimer (Some h)).

(** ** The channels *)

(** An argument as a caller can pass it, whatever its declared type. *)
Inductive JsValue :=
| Str (s : string)
| NotString.            (* typeof value !== 'string' *)

Inductive JsArg :=
| NotArray              (* !Array.isArray(arg) *)
| Arr (items : list JsValue).

(** [typeof id !== 'string' || id.trim() === ''] *)
Definition bad_id (v : JsValue) : bool :=
  match v with
  | Str s => JsString.trim_is_empty s
  | NotString => true
  end.

(** The loop that checks every id: the strings, unless one id is bad. *)
Fixpoint checked_ids (items : list JsValue) : option (list string) :=
  match items with
  | [] => Some []
  | Str s :: rest =>
      if JsString.trim_is_empty s then None else cons s <$> checked_ids rest
  | NotString :: _ => None
  end.

Definition not_array_message (ch : Channel) : string :=
  match ch with
  | Market => "assetIds must be an array"
  | User _ => "marketIds must be an array"
  end.

Definition bad_id_message (ch : Channel) : string :=
  match ch with
  | Market => "Each asset ID must be a non-empty string"
  | User _ => "Each market ID must be a non-empty string"
  end.

(** The two guards at the top of [subscribe] and [unsubscribe]. *)
Definition validate (arg : JsArg) : Run (list string) :=
  w ← get;
  match arg with
  | NotArray => throw (TypeError (not_array_message (channel w)))
  | Arr items =>
      match checked_ids items with
      | None => throw (TypeError (bad_id_message (channel w)))
      | Some ids => mret ids
      end
  end.

Definition json_strings (ids : list string) : Json := JArray (map JString ids).

(** [this.auth] as a part of a message: the object as it is when the
    message is built. *)
Definition json_auth (a : JsObject) : Json := JObject (properties a).

(** [{ type: 'MARKET', assets_ids: Array.from(this.assetIds) }] *)
Definition market_message (ids : list string) : Json :=
  JObject [("type", JString "MARKET"); ("assets_ids", json_strings ids)].

(** [{ assets_ids: assetIds, operation }] *)
Definition asset_message (ids : list string) (operation : string) : Json :=
  JObject [("assets_ids", json_strings ids); ("operation", JString operation)].

(** [{ auth: this.auth, type: 'USER', markets: Array.from(this.marketIds) }] *)
Definition user_message (a : JsObject) (ids : list string) : Json :=
  JObject [("auth", json_auth a); ("type", JString "USER"); ("markets", json_strings ids)].

Definition sendSubscription (ids : list string) : Run unit :=
  send (asset_message ids "subscribe").

Definition sendUnsubscription (ids : list string) : Run unit :=
  send (asset_message ids "unsubscribe").

Definition sendFullSubscription (a : JsObject) : Run unit :=
  w ← get;
  send (user_message a (ledger w)).

(** [subscribe(ids)] of the two channels. *)
Definition subscribe (arg : JsArg) : Run unit :=
  ids ← validate arg;
  w ← get;
  let fresh := filter (fun id => JsSet.has id (ledger w) = false) ids in
  if (length fresh =? 0)%nat then skip
  else
    modify (fun w => set_ledger (foldl (fun s id => JsSet.add id s) (ledger w) fresh) w) ;;
    w ← get;
    if isConnected w then
      match channel w with
      | Market => sendSubscription fresh
      | User a => sendFullSubscription a
      end
    else skip.

(** [unsubscribe(ids)] of the two channels. *)
Definition unsubscribe (arg : JsArg) : Run unit :=
  ids ← validate arg;
  w ← get;
  match channel w with
  | Market =>
      let existing := filter (fun id => JsSet.has id (ledger w) = true) ids in
      if (length existing =? 0)%nat then skip
      else
        modify (fun w => set_ledger (foldl (fun s id => JsSet.delete id s) (ledger w) existing) w) ;;
        w ← get;
        if isConnected w then sendUnsubscription existing else skip
  | User a =>
      modify (fun w => set_ledger (foldl (fun s id => JsSet.delete id s) (ledger w) ids) w) ;;
      w ← get;
      if isConnected w then sendFullSubscription a else skip
  end.

(** [getSubscribedAssets()], [getSubscribedMarkets()] *)
Definition getSubscribed (w : World) : list string := ledger w.

(** [onConnected()] of the two channels. *)
Definition onConnected : Run unit :=
  w ← get;
  match channel w with
  | Market =>
      if (0 <? JsSet.size (ledger w))%nat then send (market_message (ledger w))
      else skip
  | User a => sendFullSubscription a
  end.

(** [onDisconnected(code, reason)]: neither channel overrides the empty hook. *)
Definition onDisconnected (code : Z) (reason : string) : Run unit := skip.

(** [onCleanup()] of the two channels. *)
Definition onCleanup : Run unit :=
  modify (set_ledger JsSet.clear) ;;
  modify (set_eventCallbacks []).

(** [addEventCallback(event, callback)]; [onBook], [onPriceChange],
    [onTrade], ... are this with the event fixed. *)
Definition addEventCallback (event : string) (callback : nat) : Run unit :=
  (w ← get;
   match JsMap.get event (eventCallbacks w) with
   | None => modify (fun w => set_eventCallbacks (JsMap.set event [] (eventCallbacks w)) w)
   | Some _ => skip
   end) ;;
  modify (fun w =>
    match JsMap.get event (eventCallbacks w) with
    | Some cbs => set_eventCallbacks (JsMap.set event (JsSet.add callback cbs) (eventCallbacks w)) w
    | None => w
    end).

(** The function that [addEventCallback] returned. *)
Definition removeEventCallback (event : string) (callback : nat) : Run unit :=
  modify (fun w =>
    match JsMap.get event (eventCallbacks w) with
    | Some cbs => set_eventCallbacks (JsMap.set event (JsSet.delete callback cbs) (eventCallbacks w)) w
    | None => w
    end).

(** [emitEventCallback(event, data)]; a callback that throws is logged
    and does not stop the others. The event is [None] when the message
    has no [event_type] that is a string. *)
Definition emitEventCallback (event : option string) : Run unit := fun w =>
  match event ≫= (fun e => JsMap.get e (eventCallbacks w)) with
  | Some cbs => (Ok tt, w, map Invoke cbs)
  | None => (Ok tt, w, [])
  end.

(** What [JSON.parse] made of a message, as far as the channels look. *)
Inductive Parsed :=
| NotAnObject                          (* !data || typeof data !== 'object' *)
| Object (event_type : option string).

(** [handleParsedMessage(data)] of the two channels. *)
Definition handleParsedMessage (data : Parsed) : Run unit :=
  match data with
  | NotAnObject => skip
  | Object eventType =>
      emitEventCallback eventType ;;
      emitEventCallback (Some "message")
  end.

(** [handleIncomingMessage(data)]; [parsed] is [None] when [JSON.parse]
    throws, and the raw string, which is no object, is handled instead. *)
Definition handleIncomingMessage (data : string) (parsed : option Parsed) : Run unit :=
  emit (RawMessage data) ;;
  match parsed with
  | Some v => try_catch (handleParsedMessage v) (fun _ => handleParsedMessage NotAnObject)
  | None => handleParsedMessage NotAnObject
  end.

(** ** The handlers of a socket, and the public methods *)

(** [ws.onopen], installed by the [createConnection] call of promise [p]. *)
Definition onopen (p : nat) : Run unit :=
  clearConnectionTimeout ;;
  modify (set_reconnectAttempts 0) ;;
  setState connected ;;
  startHeartbeat ;;
  flushPendingSubscriptions ;;
  onConnected ;;
  emit Connected ;;
  tell (Resolve p).

(** [ws.onclose]; [random] is what [Math.random()] returns if
    [scheduleReconnect] asks. *)
Definition onclose (code : Z) (reason : string) (random : Q) : Run unit :=
  clearConnectionTimeout ;;
  stopHeartbeat ;;
  emit (Disconnected code reason) ;;
  onDisconnected code reason ;;
  w ← get;
  if negb (isIntentionalClose w) && autoReconnect (options w) then
    scheduleReconnect random
  else
    setState disconnected.

(** [ws.onerror] *)
Definition onerror : Run unit := handleError WebSocketError.

(** [ws.onmessage] *)
Definition onmessage (data : string) (parsed : option Parsed) : Run unit :=
  handleIncomingMessage data parsed.

(** [cleanup()] *)
Definition cleanup : Run unit :=
  clearConnectionTimeout ;;
  stopHeartbeat ;;
  (w ← get;
   match reconnectTimer w with
   | Some h => cancel h ;; modify (set_reconnectTimer None)
   | None => skip
   end) ;;
  (w ← get;
   match ws w with
   | Some i =>
       update_socket i (set_handlers None) ;;
       match sockets w !! i with
       | Some s =>
           if is_OPEN (readyState s) || is_CONNECTING (readyState s)
           then ws_close i (Some (1000%Z, "Client disconnect"))
           else skip
       | None => skip
       end ;;
       modify (set_ws None)
   | None => skip
   end) ;;
  modify (set_reconnectAttempts 0) ;;
  onCleanup.

(** [connect()]: the promise of [createConnection], or [None] when the
    call returns at once. *)
Definition connect : Run (option nat) :=
  w ← get;
  if state_eqb (state w) connected || state_eqb (state w) connecting then mret None
  else
    modify (set_isIntentionalClose false) ;;
    p ← createConnection;
    mret (Some p).

(** [disconnect()] *)
Definition disconnect : Run unit :=
  modify (set_isIntentionalClose true) ;;
  cleanup ;;
  setState disconnected.

(** ** The machine *)

(** What happens to a client: a call of its public API, a change that
    the caller makes to the credentials object, a timer that fires, or
    an event of one of its sockets. *)
Inductive Input :=
| CallConnect
| CallDisconnect
| CallSubscribe (arg : JsArg)
| CallUnsubscribe (arg : JsArg)
| CallOn (event : string) (callback : nat)
| CallOff (event : string) (callback : nat)
| AuthChanges (auth : JsObject)
| TimerFires (h : nat)
| SocketOpens (i : nat)
| SocketCloses (i : nat) (code : Z) (reason : string) (random : Q)
| SocketErrors (i : nat)
| SocketMessage (i : nat) (data : string) (parsed : option Parsed).

(** A pending timer fires: a timeout is spent, an interval stays. *)
Definition fire (h : nat) : Run unit :=
  w ← get;
  match timers w !! h with
  | Some (Some (ConnectionTimer p _)) => cancel h ;; connection_timeout p
  | Some (Some (ReconnectTimer _)) => cancel h ;; reconnect_now
  | Some (Some (HeartbeatTimer _)) => heartbeat_tick
  | _ => skip
  end.

(** The transport delivers an event to the handler in place, if the
    socket is in a state to have that event: it opens once, out of
    CONNECTING; it closes once; messages come while it is OPEN. *)
Definition socket_event (i : nat) (ready : ReadyState -> bool)
    (after : option ReadyState) (handler : nat -> Run unit) : Run unit :=
  w ← get;
  match sockets w !! i with
  | Some s =>
      if ready (readyState s) then
        match after with
        | Some r => update_socket i (set_readyState r)
        | None => skip
        end ;;
        match handlers s with
        | Some p => handler p
        | None => skip
        end
      else skip
  | None => skip
  end.

(** The caller assigns to or deletes properties of the object that it
    passed as [auth]: the user channel, which holds the same object,
    sees the object as it is afterwards. *)
Definition auth_changes (auth : JsObject) : Run unit :=
  modify (fun w =>
    match channel w with
    | Market => w
    | User _ => set_channel (User auth) w
    end).

Definition step (input : Input) : Run unit :=
  match input with
  | CallConnect => connect ;; skip
  | CallDisconnect => disconnect
  | CallSubscribe arg => subscribe arg
  | CallUnsubscribe arg => unsubscribe arg
  | CallOn event callback => addEventCallback event callback
  | CallOff event callback => removeEventCallback event callback
  | AuthChanges auth => auth_changes auth
  | TimerFires h => fire h
  | SocketOpens i =>
      socket_event i is_CONNECTING (Some OPEN) onopen
  | SocketCloses i code reason random =>
      socket_event i (fun r => negb (is_CLOSED r)) (Some CLOSED)
        (fun _ => onclose code reason random)
  | SocketErrors i =>
      socket_event i (fun r => negb (is_CLOSED r)) None (fun _ => onerror)
  | SocketMessage i data parsed =>
      socket_event i is_OPEN None (fun _ => onmessage data parsed)
  end.

(** A history: the inputs are served one after the other; an error
    thrown while one is served does not stop the next. *)
Fixpoint run (inputs : list Input) (w : World) : World * list Effect :=
  match inputs with
  | [] => (w, [])
  | input :: rest =>
      let r := step input w in
      let r' := run rest (world_of r) in
      (fst r', effects_of r ++ snd r')
  end.


(** * Vocabulary of the properties *)

(** ** Sample clients *)

Definition default_options : ClobClientOptions := {|
  opt_url := None;
  opt_autoReconnect := None;
  opt_maxReconnectAttempts := None;
  opt_reconnectDelay := None;
  opt_maxReconnectDelay := None;
  opt_heartbeatInterval := None;
  opt_connectionTimeout := None;
|}.

Definition sample_auth : ClobAuth :=
  {| apiKey := "key"; secret := "secret"; passphrase := "pass" |}.

Definition market0 : World := new_client Market default_options false.
Definition user0 : World := new_client (User sample_auth) default_options false.

(** ** Effects *)

(** The [stateChange] event of one [setState] call, if it publishes one. *)
Definition state_change (previous new : ConnectionState) : list Effect :=
  if state_eqb previous new then [] else [Emit (StateChange new previous)].

(** Socket [i] is still connecting: its [send] throws. *)
Definition refuses_text (i : nat) (w : World) : bool :=
  match sockets w !! i with
  | Some s => is_CONNECTING (readyState s)
  | None => false
  end.

(** What socket [i] takes when [send(text)] is called on it: the text,
    if the socket is open. *)
Definition taken (i : nat) (text : string) (w : World) : list Effect :=
  match sockets w !! i with
  | Some s => if is_OPEN (readyState s) then [WsSend i text] else []
  | None => []
  end.

(** The messages handed to the transport, with the socket. *)
Definition sends (fx : list Effect) : list (nat * string) :=
  omap (fun e => match e with WsSend i text => Some (i, text) | _ => None end) fx.

(** The [stateChange] events, as pairs (new state, previous state). *)
Definition state_changes (fx : list Effect) : list (ConnectionState * ConnectionState) :=
  omap (fun e => match e with Emit (StateChange s p) => Some (s, p) | _ => None end) fx.

(** The transports constructed. *)
Definition constructions (fx : list Effect) : list nat :=
  omap (fun e => match e with WsNew i _ => Some i | _ => None end) fx.

(** ** The delay of the specification *)




(** ** JSON texts *)

(** A text written with an apostrophe where the text has a double
    quote. *)
Fixpoint json_text (s : string) : string :=
  match s with
  | EmptyString => EmptyString
  | String c rest => String (if Ascii.eqb c "'" then JSON.dquote else c) (json_text rest)
  end.


(** ** Worlds that the methods leave *)

(** [clearTimeout(handle)] for a handle that may be [null]. *)
Definition cancel_opt (h : option nat) (ts : list (option Timer)) : list (option Timer) :=
  match h with
  | Some h => <[h := None]> ts
  | None => ts
  end.

(** After [createConnection], when the transport could be constructed. *)
Definition with_new_connection (w : World) : World :=
  set_sockets
    (sockets w ++ [{| sock_url := url (options w); readyState := CONNECTING;
                      handlers := Some (promises w) |}])
    (set_connectionTimer (Some (length (timers w)))
      (set_timers
         (timers w ++ [Some (ConnectionTimer (promises w) (connectionTimeout (options w)))])
         (set_ws (Some (length (sockets w)))
            (set_promises (S (promises w)) (set_state connecting w))))).

(** After [createConnection], when the constructor of the transport threw. *)
Definition with_failed_connection (w : World) : World :=
  set_connectionTimer None
    (set_timers (cancel_opt (connectionTimer w) (timers w))
       (set_promises (S (promises w)) (set_state connecting w))).

(** After the first five statements of [onopen]. *)
Definition opened (w : World) : World :=
  let ts := cancel_opt (heartbeatTimer w) (cancel_opt (connectionTimer w) (timers w)) in
  set_heartbeatTimer (Some (length ts))
    (set_timers (ts ++ [Some (HeartbeatTimer (heartbeatInterval (options w)))])
       (set_connectionTimer None (set_state connected (set_reconnectAttempts 0 w)))).

(** After the first two statements of [onclose]. *)
Definition closed (w : World) : World :=
  set_heartbeatTimer None
    (set_connectionTimer None
       (set_timers (cancel_opt (heartbeatTimer w) (cancel_opt (connectionTimer w) (timers w))) w)).

(** After [scheduleReconnect], when attempts remain. *)
Definition with_reconnect_scheduled (random : Q) (w : World) : World :=
  set_reconnectTimer (Some (length (timers w)))
    (set_timers
       (timers w ++ [Some (ReconnectTimer
                             (reconnect_delay (options w) (S (reconnectAttempts w)) random))])
       (set_reconnectAttempts (S (reconnectAttempts w)) (set_state reconnecting w))).

(** After [cleanup]. *)
Definition cleaned (w : World) : World :=
  let ts := cancel_opt (reconnectTimer w)
              (cancel_opt (heartbeatTimer w) (cancel_opt (connectionTimer w) (timers w))) in
  let ss := match ws w with
            | Some i => alter closing i (alter (set_handlers None) i (sockets w))
            | None => sockets w
            end in
  set_eventCallbacks []
    (set_ledger []
       (set_reconnectAttempts 0
          (set_ws None
             (set_sockets ss
                (set_reconnectTimer None
                   (set_heartbeatTimer None
                      (set_connectionTimer None (set_timers ts w)))))))).

(** What [onclose] does after its first four statements. *)
Definition settle (random : Q) (w : World) : Result unit * World * list Effect :=
  if negb (isIntentionalClose w) && autoReconnect (options w)
  then scheduleReconnect random w
  else setState disconnected w.

(** The [close(1000, ...)] call of [cleanup], if it makes one. *)
Definition cleanup_close (w : World) : list Effect :=
  match ws w with
  | Some i =>
      match sockets w !! i with
      | Some s =>
          if is_OPEN (readyState s) || is_CONNECTING (readyState s)
          then [WsClose i (Some (1000%Z, "Client disconnect"))]
          else []
      | None => []
      end
  | None => []
  end.

(** ** Subscriptions *)

(** What [onConnected] sends: the replay. *)
Definition replay (w : World) : list Json :=
  match channel w with
  | Market => if (0 <? JsSet.size (ledger w))%nat then [market_message (ledger w)] else []
  | User a => [user_message a (ledger w)]
  end.

(** The replay message of a channel. *)
Definition replay_message (ch : Channel) (ids : list string) : Json :=
  match ch with
  | Market => market_message ids
  | User a => user_message a ids
  end.

(** The ids that a subscription message lists. *)
Definition listed_ids (message : Json) : list string :=
  match message with
  | JObject fields =>
      flat_map (fun kv =>
        match snd kv with
        | JArray items =>
            omap (fun v => match v with JString s => Some s | _ => None end) items
        | _ => []
        end) fields
  | _ => []
  end.

(** An argument list that the guards of [subscribe] and [unsubscribe]
    reject: not an array, or an array with an element that is not a
    string or is a string that trims to the empty string. *)
Definition malformed (arg : JsArg) : bool :=
  match arg with
  | NotArray => true
  | Arr items => existsb bad_id items
  end.

Definition validation_message (ch : Channel) (arg : JsArg) : string :=
  match arg with
  | NotArray => not_array_message ch
  | Arr _ => bad_id_message ch
  end.

(** The inputs that do not touch the subscriptions: all but
    [subscribe], [unsubscribe] and [disconnect]. *)
Definition keeps_ledger (input : Input) : bool :=
  match input with
  | CallSubscribe _ | CallUnsubscribe _ | CallDisconnect => false
  | _ => true
  end.

(** ** The state diagram *)

(** The edges of the state diagram of the specification (§4.4):
    disconnected --connect()--> connecting; connecting --opens-->
    connected; connecting --timeout--> disconnected; connected
    --closes--> disconnected or reconnecting; reconnecting --opens-->
    connected; reconnecting --fails again--> reconnecting or
    disconnected; any state --disconnect()--> disconnected. *)
Definition diagram_edge (from to : ConnectionState) : bool :=
  match from, to with
  | disconnected, connecting => true
  | connecting, connected => true
  | connected, reconnecting => true
  | reconnecting, connected => true
  | reconnecting, reconnecting => true
  | _, disconnected => true
  | _, _ => false
  end.

(** The edges that the code takes: a connection attempt, the first or
    a later one, goes through [connecting], and an attempt that fails
    goes from [connecting] to [reconnecting] when a retry is scheduled. *)
Definition code_edge (from to : ConnectionState) : bool :=
  match from, to with
  | disconnected, connecting => true
  | reconnecting, connecting => true
  | connecting, connected => true
  | connecting, reconnecting => true
  | connected, reconnecting => true
  | disconnected, disconnected => false
  | _, disconnected => true
  | _, _ => false
  end.

(** Any change of state. *)
Definition any_edge (from to : ConnectionState) : bool := negb (state_eqb from to).

(** The [stateChange] events [changes], pairs (new state, previous
    state) in the order of publication, account for the way from state
    [from] to state [to]: each event starts at the state the previous
    one reached, moves along an edge, and the last one reaches [to]; no
    event means no change. *)
Fixpoint follows (edge : ConnectionState -> ConnectionState -> bool)
    (from : ConnectionState) (changes : list (ConnectionState * ConnectionState))
    (to : ConnectionState) : Prop :=
  match changes with
  | [] => from = to
  | (new, previous) :: rest =>
      previous = from /\ edge previous new = true /\ follows edge new rest to
  end.

(** The [stateChange] events that a method publishes account for the
    change of state that it makes. *)
Definition tracks {A : Type} (m : Run A) : Prop :=
  forall w, follows any_edge (state w) (state_changes (effects_of (m w)))
              (state (world_of (m w))).

(** ** One transport at a time *)

(** No socket can call the client and no timer is pending. *)
Definition quiet (w : World) : Prop :=
  (forall j s, sockets w !! j = Some s -> is_Some (handlers s) -> readyState s = CLOSED) /\
  (forall h, timers w !! h = Some None \/ timers w !! h = None).

(** The client has at most one transport that can call it, its current
    one, in the state that goes with the client's, and every pending
    timer is the one that the client holds a handle of. *)
Record consistent (w : World) : Prop := {
  live_socket_is_current :
    forall j s, sockets w !! j = Some s -> is_Some (handlers s) -> readyState s <> CLOSED ->
      ws w = Some j /\
      state w = (if is_OPEN (readyState s) then connected else connecting);
  connected_has_socket :
    state w = connected ->
    exists j s, ws w = Some j /\ sockets w !! j = Some s /\
                is_Some (handlers s) /\ readyState s = OPEN;
  connection_timer_is_held :
    forall h p ms, timers w !! h = Some (Some (ConnectionTimer p ms)) ->
      connectionTimer w = Some h /\
      exists j s, ws w = Some j /\ sockets w !! j = Some s /\
                  is_Some (handlers s) /\ readyState s = CONNECTING;
  reconnect_timer_is_held :
    forall h d, timers w !! h = Some (Some (ReconnectTimer d)) ->
      reconnectTimer w = Some h /\ state w = reconnecting;
  heartbeat_timer_is_held :
    forall h ms, timers w !! h = Some (Some (HeartbeatTimer ms)) ->
      heartbeatTimer w = Some h /\ state w = connected;
}.

(** The inputs of a history in which the caller does not call
    [connect()] while a reconnection is pending. *)
Definition allowed (input : Input) (w : World) : bool :=
  match input with
  | CallConnect => negb (state_eqb (state w) reconnecting)
  | _ => true
  end.

(** The worlds of such histories. *)
Inductive reachable : World -> Prop :=
| reachable_new (ch : Channel) (o : ClobClientOptions) (throws : bool) :
    reachable (new_client ch o throws)
| reachable_step (w : World) (input : Input) :
    reachable w -> allowed input w = true -> reachable (world_of (step input w)).

(** The inputs that come from the runtime, not from the caller. *)
Definition from_runtime (input : Input) : bool :=
  match input with
  | TimerFires _ | SocketOpens _ | SocketCloses _ _ _ _ | SocketErrors _
  | SocketMessage _ _ _ => true
  | _ => false
  end.

(** ** Attempts that fail in a row *)


(** ** A reconnection with two transports *)

(** A client with a subscription connects; the connection opens and is
    lost; during the reconnect delay the caller calls [connect()], which
    constructs socket 1; the reconnect timer fires and constructs socket
    2, which is the client's transport from then on, while socket 1
    keeps its handlers. *)
Definition overlapping_attempts : list Input :=
  [CallSubscribe (Arr [Str "a"]); CallConnect; SocketOpens 0; SocketCloses 0 1006 "" 0;
   CallConnect; TimerFires 2].

(** ** A reconnection after disconnect() *)

(** The caller connects; the connection opens and is lost; during the
    reconnect delay the caller calls [connect()]; the reconnect timer
    fires; both connection attempts fail; the caller disconnects. *)
Definition impatient_caller : list Input :=
  [CallConnect; SocketOpens 0; SocketCloses 0 1006 "" 0;
   CallConnect; TimerFires 2;
   SocketCloses 1 1006 "" 0; SocketCloses 2 1006 "" 0;
   CallDisconnect].

(** * The event emitter, the constructors and the unified client *)

(** ** TypedEventEmitter *)

(** [src/event-emitter.ts]. The emitter is modelled on its own, with its
    map of listeners; the functions of the caller are numbered, and, as
    above, they do not call back into the emitter while they run. *)
Module TypedEventEmitter.

(** A callback, as the function object that it is: a function of the
    caller, or the closure [onceCallback] that the [k]-th call of [once]
    made for an event and a function of the caller. *)
Inductive Callback :=
| Fn (f : nat)
| OnceCallback (k : nat) (event : string) (f : nat).

Global Instance Callback_eq_dec : EqDecision Callback.
Proof. solve_decision. Defined.

(** The function of the caller that a callback ends up calling. *)
Definition fn_of (callback : Callback) : nat :=
  match callback with
  | Fn f => f
  | OnceCallback _ _ f => f
  end.

(** The emitter: [listeners], and the number of closures that [once]
    has made so far. *)
Record Emitter := {
  listeners : list (string * list Callback);  (* Map<keyof Events, Set<EventCallback>> *)
  closures : nat;
}.

Definition new_emitter : Emitter := {| listeners := []; closures := 0 |}.

Definition set_listeners (v : list (string * list Callback)) (e : Emitter) : Emitter :=
  {| listeners := v; closures := closures e |}.

(** What [emit] does to the outside: it calls a function of the caller
    with the data, and it logs on [console.error] when that function
    threw. *)
Inductive Notice (D : Type) :=
| Called (f : nat) (data : D)
| Logged (event : string) (f : nat).
Global Arguments Called {D} f data.
Global Arguments Logged {D} event f.

(** [off(event, callback)] *)
Definition off (event : string) (callback : Callback) (e : Emitter) : Emitter :=
  match JsMap.get event (listeners e) with
  | Some callbacks =>
      let callbacks' := JsSet.delete callback callbacks in
      let ls := JsMap.set event callbacks' (listeners e) in
      if (JsSet.size callbacks' =? 0)%nat then set_listeners (JsMap.delete event ls) e
      else set_listeners ls e
  | None => e
  end.

(** The function that [on] and [once] return: [() => this.off(event, callback)]. *)
Definition Unsubscribe : Type := string * Callback.

Definition unsubscribe (u : Unsubscribe) : Emitter -> Emitter := off u.1 u.2.

(** [on(event, callback)] *)
Definition on (event : string) (callback : Callback) (e : Emitter) : Unsubscribe * Emitter :=
  let ls := if JsMap.has event (listeners e) then listeners e
            else JsMap.set event [] (listeners e) in
  ((event, callback),
   match JsMap.get event ls with
   | Some callbacks => set_listeners (JsMap.set event (JsSet.add callback callbacks) ls) e
   | None => set_listeners ls e
   end).

(** [once(event, callback)] *)
Definition once (event : string) (f : nat) (e : Emitter) : Unsubscribe * Emitter :=
  let onceCallback := OnceCallback (closures e) event f in
  on event onceCallback {| listeners := listeners e; closures := S (closures e) |}.

(** [removeAllListeners(event?)] *)
Definition removeAllListeners (event : option string) (e : Emitter) : Emitter :=
  match event with
  | Some ev => set_listeners (JsMap.delete ev (listeners e)) e
  | None => set_listeners [] e
  end.

(** [listenerCount(event)] *)
Definition listenerCount (event : string) (e : Emitter) : nat :=
  match JsMap.get event (listeners e) with
  | Some callbacks => JsSet.size callbacks
  | None => 0
  end.

(** The callbacks registered for an event, oldest first. *)
Definition registered (event : string) (e : Emitter) : list Callback :=
  default [] (JsMap.get event (listeners e)).

Section Emit.
Context {D : Type}.

(** The functions of the caller that throw when they are called. *)
Variable throws : nat -> bool.

(** [callback(data)]: a function of the caller is called; a closure of
    [once] first takes itself off the event that it was made for. *)
Definition call (data : D) (callback : Callback) (e : Emitter) : Emitter * list (Notice D) :=
  match callback with
  | Fn f => (e, [Called f data])
  | OnceCallback _ ev f => (off ev callback e, [Called f data])
  end.

(** [try { callback(data) } catch (error) { console.error(...) }] *)
Definition notify (event : string) (data : D) (callback : Callback) (e : Emitter)
    : Emitter * list (Notice D) :=
  let r := call data callback e in
  (r.1, r.2 ++ (if throws (fn_of callback) then [Logged event (fn_of callback)] else [])).

(** Whether the set that [emit] iterates over still holds a callback.
    The set leaves the map only when it is empty. *)
Definition still_listed (event : string) (callback : Callback) (e : Emitter) : bool :=
  match JsMap.get event (listeners e) with
  | Some callbacks => JsSet.has callback callbacks
  | None => false
  end.

(** [for (const callback of callbacks) ...]: the iteration is over the
    live set, in insertion order; a callback that was deleted before
    its turn is not visited. Nothing is added during the loop. *)
Fixpoint emit_loop (event : string) (data : D) (pending : list Callback) (e : Emitter)
    : Emitter * list (Notice D) :=
  match pending with
  | [] => (e, [])
  | callback :: rest =>
      if still_listed event callback e then
        let r1 := notify event data callback e in
        let r2 := emit_loop event data rest r1.1 in
        (r2.1, r1.2 ++ r2.2)
      else emit_loop event data rest e
  end.

(** [emit(event, data)] *)
Definition emit (event : string) (data : D) (e : Emitter) : Emitter * list (Notice D) :=
  match JsMap.get event (listeners e) with
  | Some callbacks => emit_loop event data callbacks e
  | None => (e, [])
  end.

End Emit.

(** A callback that stays after it was called: not a closure of [once]. *)
Definition stays (callback : Callback) : bool :=
  match callback with
  | Fn _ => true
  | OnceCallback _ _ _ => false
  end.

(** What [emit] does with one callback whose turn comes. *)
Definition notices {D : Type} (throws : nat -> bool) (event : string) (data : D)
    (callback : Callback) : list (Notice D) :=
  Called (fn_of callback) data ::
  (if throws (fn_of callback) then [Logged event (fn_of callback)] else []).

(** The listeners as the methods keep them: no event is mapped to an
    empty set, no set lists a callback twice, and a closure of [once]
    is listed under the event that it was made for. *)
Record tidy (e : Emitter) : Prop := {
  tidy_nonempty : forall ev, JsMap.get ev (listeners e) <> Some [];
  tidy_nodup : forall ev, NoDup (registered ev e);
  tidy_once : forall ev k ev' f,
    OnceCallback k ev' f ∈ registered ev e -> ev' = ev /\ (k < closures e)%nat;
}.

(** The functions that were called, in order. *)
Definition called {D : Type} (fx : list (Notice D)) : list nat :=
  flat_map (fun n => match n with Called f _ => [f] | Logged _ _ => [] end) fx.

(** What a caller can do with an emitter. [Off] stands for [off] with
    any function of the caller and for the functions that [on] and
    [once] returned. *)
Inductive Call (D : Type) :=
| On (event : string) (f : nat)
| Once (event : string) (f : nat)
| Off (event : string) (callback : Callback)
| Emit (event : string) (data : D)
| RemoveAllListeners (event : option string).
Global Arguments On {D} event f.
Global Arguments Once {D} event f.
Global Arguments Off {D} event callback.
Global Arguments Emit {D} event data.
Global Arguments RemoveAllListeners {D} event.

Definition perform {D : Type} (throws : nat -> bool) (c : Call D) (e : Emitter) : Emitter :=
  match c with
  | On event f => (on event (Fn f) e).2
  | Once event f => (once event f e).2
  | Off event callback => off event callback e
  | Emit event data => (emit throws event data e).1
  | RemoveAllListeners event => removeAllListeners event e
  end.

(** The emitter after a sequence of calls. *)
Definition after {D : Type} (throws : nat -> bool) (calls : list (Call D)) : Emitter :=
  foldl (fun e c => perform throws c e) new_emitter calls.

End TypedEventEmitter.

(** ** The constructor of ClobUserClient *)

(** The [auth] argument as a caller can pass it, whatever its declared
    type; an object is given by the values of the three properties that
    the constructor reads. *)
Inductive JsAuth :=
| Falsy                                          (* undefined, null, ... *)
| NotObject                                      (* a truthy value that is no object *)
| AuthObject (apiKey secret passphrase : JsValue).

(** The string that a value is, once the constructor has checked that
    it is one. *)
Definition text (v : JsValue) : string :=
  match v with
  | Str s => s
  | NotString => ""
  end.

(** [new ClobUserClient(auth, options)]: the four guards, then the
    constructor of the base class. [throws] says whether
    [new WebSocket] will throw for the URL of the client. *)
Definition new_ClobUserClient (auth : JsAuth) (o : ClobClientOptions) (throws : bool)
    : Result World :=
  match auth with
  | Falsy | NotObject => Thrown (TypeError "auth credentials are required")
  | AuthObject k s p =>
      if bad_id k then Thrown (TypeError "auth.apiKey must be a non-empty string")
      else if bad_id s then Thrown (TypeError "auth.secret must be a non-empty string")
      else if bad_id p then Thrown (TypeError "auth.passphrase must be a non-empty string")
      else Ok (new_client (User {| apiKey := text k; secret := text s; passphrase := text p |})
                 o throws)
  end.

(** [new ClobMarketClient(options)] *)
Definition new_ClobMarketClient (o : ClobClientOptions) (throws : bool) : World :=
  new_client Market o throws.

(** ** ClobClient, the two channels behind one object *)

Module ClobClient.

Inductive Side := MarketChannel | UserChannel.

(** The fields of a [ClobClient]. The two clients are the objects that
    the getters hand out: what a caller does to them is done to the
    fields. *)
Record State := {
  marketClient : option World;
  userClient : option World;
  options : ClobClientOptions;
  auth : JsAuth;
}.

(** [new ClobClient(options)], [options.auth] apart. *)
Definition new (o : ClobClientOptions) (a : JsAuth) : State :=
  {| marketClient := None; userClient := None; options := o; auth := a |}.

Definition set_marketClient (v : option World) (c : State) : State :=
  {| marketClient := v; userClient := userClient c; options := options c; auth := auth c |}.

Definition set_userClient (v : option World) (c : State) : State :=
  {| marketClient := marketClient c; userClient := v; options := options c; auth := auth c |}.

(** What the methods throw or reject with. *)
Inductive Failure :=
| RequiresAuth              (* Error('ClobClient requires auth credentials for user channel') *)
| Raised (e : Error).

(** The effects of the two clients, each with the channel it belongs to. *)
Definition of_channel (side : Side) (fx : list Effect) : list (Side * Effect) :=
  map (fun e => (side, e)) fx.

Section Platform.

(** The URLs for which [new WebSocket] throws. *)
Variable refuses : string -> bool.

Definition throws_for (default_url : string) (o : ClobClientOptions) : bool :=
  refuses (url (internal_options default_url o)).

(** [get market()] *)
Definition market (c : State) : World * State :=
  match marketClient c with
  | Some w => (w, c)
  | None =>
      let w := new_ClobMarketClient (options c) (throws_for DEFAULT_CLOB_WSS_URL (options c)) in
      (w, set_marketClient (Some w) c)
  end.

(** [get user()] *)
Definition user (c : State) : (World + Failure) * State :=
  match userClient c with
  | Some w => (inl w, c)
  | None =>
      match auth c with
      | Falsy => (inr RequiresAuth, c)
      | a =>
          match new_ClobUserClient a (options c)
                  (throws_for DEFAULT_CLOB_USER_WSS_URL (options c)) with
          | Ok w => (inl w, set_userClient (Some w) c)
          | Thrown e => (inr (Raised e), c)
          end
      end
  end.

(** What an [async] method hands back: a promise that follows the
    promise of a channel ([None] when [connect()] of the channel
    returned at once), or one that is rejected from the start. *)
Inductive Outcome :=
| Follows (side : Side) (p : option nat)
| Rejected (f : Failure).

(** [connectMarket()]: [await this.market.connect()] *)
Definition connectMarket (c : State) : Outcome * State * list (Side * Effect) :=
  let '(w, c1) := market c in
  let r := connect w in
  match result_of r with
  | Ok p => (Follows MarketChannel p, set_marketClient (Some (world_of r)) c1,
             of_channel MarketChannel (effects_of r))
  | Thrown e => (Rejected (Raised e), set_marketClient (Some (world_of r)) c1,
                 of_channel MarketChannel (effects_of r))
  end.

(** [connectUser()]: [await this.user.connect()] *)
Definition connectUser (c : State) : Outcome * State * list (Side * Effect) :=
  match user c with
  | (inl w, c1) =>
      let r := connect w in
      match result_of r with
      | Ok p => (Follows UserChannel p, set_userClient (Some (world_of r)) c1,
                 of_channel UserChannel (effects_of r))
      | Thrown e => (Rejected (Raised e), set_userClient (Some (world_of r)) c1,
                     of_channel UserChannel (effects_of r))
      end
  | (inr f, c1) => (Rejected f, c1, [])
  end.

(** [connectAll()]: [Promise.all([this.connectMarket(), this.connectUser()])];
    the two calls are made in this order, before anything is awaited. *)
Definition connectAll (c : State) : (Outcome * Outcome) * State * list (Side * Effect) :=
  let '(o1, c1, fx1) := connectMarket c in
  let '(o2, c2, fx2) := connectUser c1 in
  ((o1, o2), c2, fx1 ++ fx2).

End Platform.

(** [disconnect()]: [this.marketClient?.disconnect(); this.userClient?.disconnect()] *)
Definition disconnect (c : State) : State * list (Side * Effect) :=
  let '(c1, fx1) :=
    match marketClient c with
    | Some w =>
        let r := disconnect w in
        (set_marketClient (Some (world_of r)) c, of_channel MarketChannel (effects_of r))
    | None => (c, [])
    end in
  let '(c2, fx2) :=
    match userClient c1 with
    | Some w =>
        let r := disconnect w in
        (set_userClient (Some (world_of r)) c1, of_channel UserChannel (effects_of r))
    | None => (c1, [])
    end in
  (c2, fx1 ++ fx2).

End ClobClient.

(** ** Vocabulary of the further properties *)

(** The inputs that are a call of [connect()] or come from the
    runtime. *)
Definition connect_or_runtime (input : Input) : bool :=
  match input with
  | CallConnect => true
  | _ => from_runtime input
  end.

(** The [disconnected] events of an effect list. *)
Definition disconnections (fx : list Effect) : list (Z * string) :=
  flat_map (fun e => match e with Emit (Disconnected c r) => [(c, r)] | _ => [] end) fx.

(** The [close] calls of an effect list. *)
Definition closes (fx : list Effect) : list (nat * option (Z * string)) :=
  flat_map (fun e => match e with WsClose i how => [(i, how)] | _ => [] end) fx.

(** No heartbeat is pending in a table of timers. *)
Definition no_heartbeat (ts : list (option Timer)) : Prop :=
  forall h ms, ts !! h <> Some (Some (HeartbeatTimer ms)).

(** Every pending heartbeat is the one of the handle, with the
    interval. *)
Definition only_heartbeat (ht : option nat) (ms0 : Z) (ts : list (option Timer)) : Prop :=
  forall h ms, ts !! h = Some (Some (HeartbeatTimer ms)) -> ht = Some h /\ ms = ms0.

(** The heartbeat of a client: no interval is pending but the one that
    the client holds the handle of, and while the state is [connected]
    that one is pending, with the interval of the options. *)
Definition heartbeat_in_step (w : World) : Prop :=
  only_heartbeat (heartbeatTimer w) (heartbeatInterval (options w)) (timers w) /\
  (state w = connected ->
   exists h, heartbeatTimer w = Some h /\
             timers w !! h = Some (Some (HeartbeatTimer (heartbeatInterval (options w))))).

(** A method never has an effect of some kind, and a method keeps a
    field of the client. *)
Definition never (P : Effect -> bool) {A : Type} (m : Run A) : Prop :=
  forall w, Forall (fun e => P e = false) (effects_of (m w)).

Definition keeps {X : Type} (f : World -> X) {A : Type} (m : Run A) : Prop :=
  forall w, f (world_of (m w)) = f w.

(** The [reconnecting] events. *)
Definition is_reconnecting (e : Effect) : bool :=
  match e with
  | Emit (Reconnecting _ _) => true
  | _ => false
  end.

(** A [reconnecting] event announces an attempt between 1 and the
    maximum of the options, and that maximum. *)
Definition announces_within (o : Options) (e : Effect) : Prop :=
  match e with
  | Emit (Reconnecting attempt maxAttempts) =>
      maxAttempts = maxReconnectAttempts o /\ (1 <= attempt)%nat /\
      match maxAttempts with
      | Some m => (attempt <= m)%nat
      | None => True
      end
  | _ => True
  end.

(** [subscribe] and [unsubscribe] once the argument has passed the
    guards: what they do with the ids. *)
Definition subscribe_ids (ids : list string) (w : World) : Result unit * World * list Effect :=
  let fresh := filter (fun id => JsSet.has id (ledger w) = false) ids in
  match fresh with
  | [] => (Ok tt, w, [])
  | _ :: _ =>
      let w1 := set_ledger (foldl (fun s id => JsSet.add id s) (ledger w) fresh) w in
      if isConnected w then
        match channel w with
        | Market => send (asset_message fresh "subscribe") w1
        | User a => send (user_message a (ledger w1)) w1
        end
      else (Ok tt, w1, [])
  end.

Definition unsubscribe_ids (ids : list string) (w : World) : Result unit * World * list Effect :=
  match channel w with
  | Market =>
      let existing := filter (fun id => JsSet.has id (ledger w) = true) ids in
      match existing with
      | [] => (Ok tt, w, [])
      | _ :: _ =>
          let w1 := set_ledger (foldl (fun s id => JsSet.delete id s) (ledger w) existing) w in
          if isConnected w then send (asset_message existing "unsubscribe") w1
          else (Ok tt, w1, [])
      end
  | User a =>
      let w1 := set_ledger (foldl (fun s id => JsSet.delete id s) (ledger w) ids) w in
      if isConnected w then send (user_message a (ledger w1)) w1 else (Ok tt, w1, [])
  end.

(** The ids of an argument that passes the guards. *)
Definition well_formed (ids : list string) : Prop :=
  Forall (fun id => JsString.trim_is_empty id = false) ids.

(** The callbacks of a channel event, oldest first. *)
Definition callbacks_for (event : string) (w : World) : list nat :=
  default [] (JsMap.get event (eventCallbacks w)).

(** A callback of the channel is called. *)
Definition is_invoke (e : Effect) : bool :=
  match e with
  | Invoke _ => true
  | _ => false
  end.

(** The inputs that register no callback. *)
Definition registers_nothing (input : Input) : bool :=
  match input with
  | CallOn _ _ => false
  | _ => true
  end.

(** * Symbolic execution *)

Lemma bind_unfold {A B} (m : Run A) (f : A -> Run B) (w : World) :
  (m ≫= f) w =
  match m w with
  | (Ok a, w1, fx1) => match f a w1 with (r, w2, fx2) => (r, w2, fx1 ++ fx2) end
  | (Thrown e, w1, fx1) => (Thrown e, w1, fx1)
  end.
Proof. reflexivity. Qed.

Lemma ret_run {A} (a : A) (w : World) : (mret a : Run A) w = (Ok a, w, []).
Proof. reflexivity. Qed.

Lemma skip_run (w : World) : skip w = (Ok tt, w, []).
Proof. reflexivity. Qed.

Lemma get_run (w : World) : get w = (Ok w, w, []).
Proof. reflexivity. Qed.

Lemma modify_run (f : World -> World) (w : World) : modify f w = (Ok tt, f w, []).
Proof. reflexivity. Qed.

Lemma tell_run (e : Effect) (w : World) : tell e w = (Ok tt, w, [e]).
Proof. reflexivity. Qed.

Lemma throw_run {A} (e : Error) (w : World) : @throw A e w = (Thrown e, w, []).
Proof. reflexivity. Qed.

Lemma try_catch_unfold {A} (m : Run A) (h : Error -> Run A) (w : World) :
  try_catch m h w =
  match m w with
  | (Ok a, w1, fx1) => (Ok a, w1, fx1)
  | (Thrown e, w1, fx1) => match h e w1 with (r, w2, fx2) => (r, w2, fx1 ++ fx2) end
  end.
Proof. reflexivity. Qed.

Lemma emit_run (ev : ClientEvent) (w : World) : emit ev w = (Ok tt, w, [Emit ev]).
Proof. reflexivity. Qed.

Lemma handleError_run (e : Error) (w : World) :
  handleError e w = (Ok tt, w, [Emit (ErrorEvent e)]).
Proof. reflexivity. Qed.

Lemma arm_run (t : Timer) (w : World) :
  arm t w = (Ok (length (timers w)), set_timers (timers w ++ [Some t]) w, []).
Proof. reflexivity. Qed.

Lemma cancel_run (h : nat) (w : World) :
  cancel h w = (Ok tt, set_timers (<[h := None]> (timers w)) w, []).
Proof. reflexivity. Qed.

Lemma new_promise_run (w : World) :
  new_promise w = (Ok (promises w), set_promises (S (promises w)) w, []).
Proof. reflexivity. Qed.

Lemma update_socket_run (i : nat) (f : Socket -> Socket) (w : World) :
  update_socket i f w = (Ok tt, set_sockets (alter f i (sockets w)) w, []).
Proof. reflexivity. Qed.

Lemma ws_send_run (i : nat) (text : string) (w : World) :
  ws_send i text w =
    (if refuses_text i w then Thrown InvalidState else Ok tt, w, taken i text w).
Proof.
  unfold ws_send, refuses_text, taken. rewrite bind_unfold, get_run.
  destruct (sockets w !! i) as [s|]; [| done]. by destruct (readyState s).
Qed.

Lemma taken_open (i : nat) (text : string) (w : World) (s : Socket) :
  sockets w !! i = Some s -> readyState s = OPEN ->
  refuses_text i w = false /\ taken i text w = [WsSend i text].
Proof. intros Hi Hs. unfold refuses_text, taken. by rewrite Hi, Hs. Qed.


Lemma ws_close_run (i : nat) (how : option (Z * string)) (w : World) :
  ws_close i how w = (Ok tt, set_sockets (alter closing i (sockets w)) w, [WsClose i how]).
Proof. reflexivity. Qed.

Lemma flush_run (w : World) : flushPendingSubscriptions w = (Ok tt, w, []).
Proof. reflexivity. Qed.

Lemma onDisconnected_run (code : Z) (reason : string) (w : World) :
  onDisconnected code reason w = (Ok tt, w, []).
Proof. reflexivity. Qed.

Create Rewrite HintDb run.
Hint Rewrite @bind_unfold @ret_run skip_run get_run modify_run tell_run @throw_run
  @try_catch_unfold emit_run handleError_run arm_run cancel_run new_promise_run
  update_socket_run ws_send_run ws_close_run flush_run onDisconnected_run
  @app_nil_r : run.

(** Run the straight-line part of a method. *)
Ltac go := repeat (autorewrite with run; cbn).

(** Unfold the methods down to the statements of the monad. *)
Ltac unfold_methods_only :=
  unfold step, fire, socket_event, connect, disconnect, cleanup, onopen, onclose,
    onerror, onmessage, handleIncomingMessage, handleParsedMessage,
    removeEventCallback, addEventCallback, onCleanup, onDisconnected, onConnected,
    subscribe, unsubscribe, validate, sendFullSubscription, sendUnsubscription,
    sendSubscription, scheduleReconnect, reconnect_now, connection_timeout,
    createConnection, flushPendingSubscriptions, heartbeat_tick, sendHeartbeat,
    startHeartbeat, stopHeartbeat, clearConnectionTimeout, send,
    handleError, emit, ws_send, ws_close, update_socket, cancel, auth_changes.

Local Arguments wire : simpl never.
Local Arguments market_message : simpl never.
Local Arguments asset_message : simpl never.
Local Arguments user_message : simpl never.
Local Arguments reconnect_delay : simpl never.
Local Arguments JsSet.add : simpl never.
Local Arguments JsSet.delete : simpl never.
Local Arguments JsSet.has : simpl never.

Lemma state_eqb_eq (a b : ConnectionState) : state_eqb a b = true <-> a = b.
Proof. destruct a, b; cbn; split; congruence. Qed.

Lemma state_eqb_neq (a b : ConnectionState) : state_eqb a b = false <-> a <> b.
Proof. destruct a, b; cbn; split; congruence. Qed.

(** ** The methods of the base class, in closed form *)

Lemma setState_run (s : ConnectionState) (w : World) :
  setState s w = (Ok tt, set_state s w, state_change (state w) s).
Proof.
  destruct w as [? ? ? st ? ? ? ? ? ? ? ? ? ? ?].
  unfold setState, state_change. go. by destruct st, s.
Qed.

Lemma clearConnectionTimeout_run (w : World) :
  clearConnectionTimeout w =
    (Ok tt,
     set_connectionTimer None (set_timers (cancel_opt (connectionTimer w) (timers w)) w),
     []).
Proof.
  destruct w as [? ? ? ? ? ? ? ct ? ? ? ? ? ? ?].
  unfold clearConnectionTimeout. go. by destruct ct.
Qed.

Lemma stopHeartbeat_run (w : World) :
  stopHeartbeat w =
    (Ok tt,
     set_heartbeatTimer None (set_timers (cancel_opt (heartbeatTimer w) (timers w)) w),
     []).
Proof.
  destruct w as [? ? ? ? ? ? ht ? ? ? ? ? ? ? ?].
  unfold stopHeartbeat. go. by destruct ht.
Qed.

Hint Rewrite setState_run clearConnectionTimeout_run stopHeartbeat_run : run.

Lemma send_run (data : Json) (w : World) :
  send data w =
    match ws w with
    | Some i =>
        if state_eqb (state w) connected
        then (if refuses_text i w then Thrown InvalidState else Ok tt, w,
              taken i (wire data) w)
        else (Thrown NotConnected, w, [])
    | None => (Thrown NotConnected, w, [])
    end.
Proof.
  unfold send. go. destruct (ws w); [| done].
  destruct (state_eqb (state w) connected); [| done]. cbn.
  by rewrite ws_send_run.
Qed.

(** A client that is connected and whose transport is open hands the
    text to that transport. *)
Lemma send_open (data : Json) (w : World) (i : nat) (s : Socket) :
  state w = connected -> ws w = Some i -> sockets w !! i = Some s -> readyState s = OPEN ->
  send data w = (Ok tt, w, [WsSend i (wire data)]).
Proof.
  intros Hst Hws Hi Hs. rewrite send_run, Hws, Hst. cbn.
  by destruct (taken_open i (wire data) w s Hi Hs) as [-> ->].
Qed.

Lemma onConnected_run (w : World) :
  onConnected w =
    match replay w with
    | [] => (Ok tt, w, [])
    | m :: _ => send m w
    end.
Proof.
  unfold onConnected, replay, sendFullSubscription. go.
  destruct (channel w).
  - destruct (JsSet.size (ledger w)); [by go |].
    by destruct (send _ w) as [[? ?] ?].
  - go. by destruct (send _ w) as [[? ?] ?].
Qed.

Lemma startHeartbeat_run (w : World) :
  startHeartbeat w =
    (Ok tt,
     set_heartbeatTimer (Some (length (cancel_opt (heartbeatTimer w) (timers w))))
       (set_timers
          (cancel_opt (heartbeatTimer w) (timers w)
             ++ [Some (HeartbeatTimer (heartbeatInterval (options w)))])
          (set_heartbeatTimer None w)),
     []).
Proof. destruct w. unfold startHeartbeat. by go. Qed.

Hint Rewrite startHeartbeat_run : run.

Lemma lookup_last {A} (l : list A) (x : A) : (l ++ [x]) !! length l = Some x.
Proof. by apply list_lookup_middle. Qed.


Lemma alter_last {A} (f : A -> A) (l : list A) (x : A) :
  alter f (length l) (l ++ [x]) = l ++ [f x].
Proof. induction l as [|y l IH]; cbn; [done |]. by rewrite <- IH. Qed.

Lemma createConnection_constructs (w : World) :
  constructorThrows w = false ->
  createConnection w =
    (Ok (promises w), with_new_connection w,
     state_change (state w) connecting ++ [WsNew (length (sockets w)) (url (options w))]).
Proof.
  intros H. destruct w. cbn in H. subst.
  unfold createConnection, new_WebSocket, with_new_connection. go.
  by rewrite alter_last.
Qed.

Lemma createConnection_throws (w : World) :
  constructorThrows w = true ->
  createConnection w =
    (Ok (promises w), with_failed_connection w,
     state_change (state w) connecting
       ++ [Emit (ErrorEvent ConstructorFailure); Reject (promises w) ConstructorFailure]).
Proof.
  intros H. destruct w. cbn in H. subst.
  unfold createConnection, new_WebSocket, with_failed_connection. go.
  done.
Qed.

Lemma connect_returns_at_once (w : World) :
  state w = connected \/ state w = connecting -> connect w = (Ok None, w, []).
Proof.
  intros H. unfold connect. go. by destruct H as [-> | ->].
Qed.

Lemma connect_creates (w : World) :
  state w = disconnected \/ state w = reconnecting ->
  connect w =
    (let r := createConnection (set_isIntentionalClose false w) in
     (Ok (Some (promises w)), world_of r, effects_of r)).
Proof.
  intros H. unfold connect. go.
  assert (state_eqb (state w) connected || state_eqb (state w) connecting = false) as ->
    by (by destruct H as [-> | ->]).
  go.
  destruct (constructorThrows w) eqn:E.
  - rewrite createConnection_throws by done. by go.
  - rewrite createConnection_constructs by done. by go.
Qed.

Lemma scheduleReconnect_exhausted (random : Q) (w : World) :
  attempts_exhausted (reconnectAttempts w) (maxReconnectAttempts (options w)) = true ->
  scheduleReconnect random w =
    (Ok tt, set_state disconnected w,
     state_change (state w) disconnected ++ [Emit (ErrorEvent MaxReconnect)]).
Proof.
  intros H. unfold scheduleReconnect. go. rewrite H. by go.
Qed.

Lemma scheduleReconnect_scheduled (random : Q) (w : World) :
  attempts_exhausted (reconnectAttempts w) (maxReconnectAttempts (options w)) = false ->
  scheduleReconnect random w =
    (Ok tt, with_reconnect_scheduled random w,
     state_change (state w) reconnecting
       ++ [Emit (Reconnecting (S (reconnectAttempts w)) (maxReconnectAttempts (options w)))]).
Proof.
  intros H. unfold scheduleReconnect, with_reconnect_scheduled. go. rewrite H.
  destruct w. by go.
Qed.

Lemma onclose_run (code : Z) (reason : string) (random : Q) (w : World) :
  onclose code reason random w =
    (result_of (settle random (closed w)), world_of (settle random (closed w)),
     Emit (Disconnected code reason) :: effects_of (settle random (closed w))).
Proof.
  unfold onclose, settle, closed. go.
  assert (forall W, set_heartbeatTimer None
            (set_timers (cancel_opt (heartbeatTimer W) (timers W)) W) = W -> True) as _ by done.
  destruct w. cbn.
  match goal with |- context [if ?c then _ else _] => destruct c end.
  - destruct (scheduleReconnect random _) as [[? ?] ?]. by cbn.
  - by go.
Qed.

Lemma onopen_run (p : nat) (w : World) :
  onopen p w =
    match onConnected (opened w) with
    | (Ok _, w2, fx) =>
        (Ok tt, w2, state_change (state w) connected ++ fx ++ [Emit Connected; Resolve p])
    | (Thrown e, w2, fx) => (Thrown e, w2, state_change (state w) connected ++ fx)
    end.
Proof.
  unfold onopen, opened. go. destruct w. cbn.
  destruct (onConnected _) as [[[[]|e] w2] fx]; by go.
Qed.

Lemma connection_timeout_run (p : nat) (w : World) :
  connection_timeout p w =
    (Ok tt,
     match ws w with
     | Some i => set_sockets (alter closing i (sockets w)) w
     | None => w
     end,
     [Emit (ErrorEvent (ConnectionTimeout (connectionTimeout (options w))))]
       ++ match ws w with Some i => [WsClose i None] | None => [] end
       ++ [Reject p (ConnectionTimeout (connectionTimeout (options w)))]).
Proof.
  unfold connection_timeout. go. destruct (ws w); by go.
Qed.

Lemma alter_closing_id (i : nat) (l : list Socket) :
  match l !! i with
  | Some s => is_OPEN (readyState s) || is_CONNECTING (readyState s) = false
  | None => True
  end ->
  alter closing i l = l.
Proof.
  revert i. induction l as [|s l IH]; intros [|i] H; cbn in *; try done.
  - unfold closing. by destruct (readyState s).
  - by rewrite IH.
Qed.

Lemma alter_closing_detached (i : nat) (l : list Socket) :
  match l !! i with
  | Some s => is_OPEN (readyState s) || is_CONNECTING (readyState s) = false
  | None => True
  end ->
  alter closing i (alter (set_handlers None) i l) = alter (set_handlers None) i l.
Proof.
  intros H. apply alter_closing_id. rewrite list_lookup_alter_eq.
  by destruct (l !! i).
Qed.

Lemma cleanup_run (w : World) :
  cleanup w = (Ok tt, cleaned w, cleanup_close w).
Proof.
  unfold cleanup, cleaned, cleanup_close, onCleanup. go.
  destruct w as [? ? w_ws ? ? rt ? ? ? ? ? sk ? ? ?]. cbn.
  destruct rt; go; destruct w_ws as [i|]; go; try done.
  all: destruct (sk !! i) as [s|] eqn:Hs; go.
  all: try (destruct (is_OPEN (readyState s) || is_CONNECTING (readyState s)) eqn:Hc; go).
  all: try done.
  all: rewrite alter_closing_detached; [done | by rewrite Hs].
Qed.

Lemma disconnect_run (w : World) :
  disconnect w =
    (Ok tt, set_state disconnected (cleaned (set_isIntentionalClose true w)),
     cleanup_close w ++ state_change (state w) disconnected).
Proof.
  unfold disconnect. go. rewrite cleanup_run. go. by destruct w.
Qed.

(** A timer fires. *)
Lemma fire_run (h : nat) (w : World) :
  fire h w =
    match timers w !! h with
    | Some (Some (ConnectionTimer p _)) =>
        connection_timeout p (set_timers (<[h := None]> (timers w)) w)
    | Some (Some (ReconnectTimer _)) =>
        (Ok tt, world_of (createConnection (set_timers (<[h := None]> (timers w)) w)),
         effects_of (createConnection (set_timers (<[h := None]> (timers w)) w)))
    | Some (Some (HeartbeatTimer _)) =>
        if state_eqb (state w) connected then
          match ws w with
          | Some i => (Ok tt, w, taken i "ping" w)
          | None => (Ok tt, w, [])
          end
        else (Ok tt, w, [])
    | _ => (Ok tt, w, [])
    end.
Proof.
  unfold fire. go.
  destruct (timers w !! h) as [[[p ms | d | ms]|]|]; go; try done.
  - by destruct (connection_timeout p _) as [[? ?] ?].
  - unfold reconnect_now. go.
    destruct (constructorThrows w) eqn:E.
    + rewrite createConnection_throws by done. by go.
    + rewrite createConnection_constructs by done. by go.
  - unfold heartbeat_tick, sendHeartbeat. go.
    destruct (state_eqb (state w) connected) eqn:E; go; [| done].
    rewrite send_run, E. destruct (ws w) as [i|]; [| done].
    destruct (refuses_text i w); cbn; by rewrite ?app_nil_r.
Qed.

(** An event of a socket. *)
Lemma socket_event_run (i : nat) (ready : ReadyState -> bool) (after : option ReadyState)
    (handler : nat -> Run unit) (w : World) :
  socket_event i ready after handler w =
    match sockets w !! i with
    | Some s =>
        if ready (readyState s) then
          let w1 := match after with
                    | Some r => set_sockets (alter (set_readyState r) i (sockets w)) w
                    | None => w
                    end in
          match handlers s with
          | Some p => handler p w1
          | None => (Ok tt, w1, [])
          end
        else (Ok tt, w, [])
    | None => (Ok tt, w, [])
    end.
Proof.
  unfold socket_event. go.
  destruct (sockets w !! i) as [s|]; go; [| done].
  destruct (ready (readyState s)); go; [| done].
  destruct after, (handlers s); go; try done.
  all: by destruct (handler _ _) as [[? ?] ?].
Qed.

Lemma createConnection_run (w : World) :
  createConnection w =
    if constructorThrows w then
      (Ok (promises w), with_failed_connection w,
       state_change (state w) connecting
         ++ [Emit (ErrorEvent ConstructorFailure); Reject (promises w) ConstructorFailure])
    else
      (Ok (promises w), with_new_connection w,
       state_change (state w) connecting ++ [WsNew (length (sockets w)) (url (options w))]).
Proof.
  destruct (constructorThrows w) eqn:E.
  - by apply createConnection_throws.
  - by apply createConnection_constructs.
Qed.

Lemma scheduleReconnect_run (random : Q) (w : World) :
  scheduleReconnect random w =
    if attempts_exhausted (reconnectAttempts w) (maxReconnectAttempts (options w)) then
      (Ok tt, set_state disconnected w,
       state_change (state w) disconnected ++ [Emit (ErrorEvent MaxReconnect)])
    else
      (Ok tt, with_reconnect_scheduled random w,
       state_change (state w) reconnecting
         ++ [Emit (Reconnecting (S (reconnectAttempts w)) (maxReconnectAttempts (options w)))]).
Proof.
  destruct (attempts_exhausted _ _) eqn:E.
  - by apply scheduleReconnect_exhausted.
  - by apply scheduleReconnect_scheduled.
Qed.

Lemma connect_run (w : World) :
  connect w =
    if state_eqb (state w) connected || state_eqb (state w) connecting then (Ok None, w, [])
    else
      (Ok (Some (promises w)),
       world_of (createConnection (set_isIntentionalClose false w)),
       effects_of (createConnection (set_isIntentionalClose false w))).
Proof.
  destruct (state w) eqn:E; cbn.
  - apply connect_creates. by left.
  - apply connect_returns_at_once. by right.
  - apply connect_returns_at_once. by left.
  - apply connect_creates. by right.
Qed.

Lemma settle_run (random : Q) (w : World) :
  settle random w =
    if negb (isIntentionalClose w) && autoReconnect (options w)
    then scheduleReconnect random w
    else (Ok tt, set_state disconnected w, state_change (state w) disconnected).
Proof. unfold settle. by rewrite setState_run. Qed.

Create Rewrite HintDb methods.
Hint Rewrite createConnection_run scheduleReconnect_run connect_run onclose_run settle_run
  onopen_run onConnected_run send_run cleanup_run disconnect_run fire_run
  connection_timeout_run socket_event_run : methods.

(** Run the straight-line part of a method, methods that it calls
    included. *)
Ltac go_all := repeat (autorewrite with run methods; cbn).

Ltac open_worlds :=
  unfold with_new_connection, with_failed_connection, opened, closed,
    with_reconnect_scheduled, cleaned in *.

Ltac no_match x :=
  lazymatch x with
  | context [match _ with _ => _ end] => fail
  | _ => idtac
  end.

(** Split on a scrutinee that has no scrutinee inside. *)
Ltac split_match :=
  match goal with
  | |- context [match ?x with _ => _ end] => no_match x; destruct x eqn:?
  end.

(** Run a method through all its branches. *)
Ltac crunch := go_all; repeat (split_match; go_all).

(** Facts about a given history: each one by evaluation. *)
Ltac by_computation :=
  cbv zeta; repeat match goal with |- _ /\ _ => split end; vm_compute; reflexivity.

(** * Properties *)

(** ** connect() while connected or connecting *)

(** C6. Calling [connect()] while the state is [connected] or
    [connecting] returns at once and successfully (no promise is left
    pending), constructs no transport and leaves the whole world as it
    was: the state, the timers, the sockets and the intentional-close
    flag are unchanged and nothing observable happens. *)
Theorem connect_is_noop_when_connected_or_connecting (w : World) :
  state w = connected \/ state w = connecting ->
  connect w = (Ok None, w, []) /\ step CallConnect w = (Ok tt, w, []).
Proof.
  intros H. unfold step. go_all.
  by destruct H as [-> | ->].
Qed.

Lemma connect_is_noop_witness :
  let w := fst (run [CallConnect] market0) in
  state w = connecting /\
  connect w = (Ok None, w, []) /\ step CallConnect w = (Ok tt, w, []).
Proof.
  split; [reflexivity |].
  apply (connect_is_noop_when_connected_or_connecting (fst (run [CallConnect] market0))).
  right. reflexivity.
Defined.

(** ** Validation of subscribe and unsubscribe *)

Lemma empty_id_is_bad : bad_id (Str "") = true.
Proof. reflexivity. Qed.

Lemma checked_ids_None (items : list JsValue) :
  existsb bad_id items = true -> checked_ids items = None.
Proof.
  induction items as [|[s|] rest IH]; cbn; [done | | done].
  destruct (JsString.trim_is_empty s); cbn; [done |].
  intros H. by rewrite IH.
Qed.

(** C9. A [subscribe] or [unsubscribe] call whose argument is malformed
    throws a [TypeError] at once and changes nothing: the ledger, and
    the rest of the client, is as before and nothing is sent, whatever
    well-formed ids the list also holds. *)
Theorem malformed_arguments_throw_before_any_effect (w : World) (arg : JsArg) :
  malformed arg = true ->
  subscribe arg w = (Thrown (TypeError (validation_message (channel w) arg)), w, []) /\
  unsubscribe arg w = (Thrown (TypeError (validation_message (channel w) arg)), w, []).
Proof.
  intros H. unfold subscribe, unsubscribe, validate.
  destruct arg as [|items]; cbn in H.
  - by go_all.
  - apply checked_ids_None in H. go_all. rewrite H. by go_all.
Qed.

Lemma malformed_arguments_witness :
  let w := fst (run [CallSubscribe (Arr [Str "a"]); CallConnect; SocketOpens 0] market0) in
  let arg := Arr [Str "b"; Str " "; Str "a"] in
  ledger w = ["a"] /\
  subscribe arg w = (Thrown (TypeError "Each asset ID must be a non-empty string"), w, []) /\
  unsubscribe arg w = (Thrown (TypeError "Each asset ID must be a non-empty string"), w, []).
Proof.
  split; [reflexivity |].
  apply (malformed_arguments_throw_before_any_effect
           (fst (run [CallSubscribe (Arr [Str "a"]); CallConnect; SocketOpens 0] market0))
           (Arr [Str "b"; Str " "; Str "a"])).
  reflexivity.
Defined.
(** ** The reconnect delay *)










Local Open Scope Q_scope.




Local Close Scope Q_scope.




(** ** The ledger between a disconnect and the next connection *)

Lemma addEventCallback_run (event : string) (callback : nat) (w : World) :
  exists cbs, addEventCallback event callback w = (Ok tt, set_eventCallbacks cbs w, []).
Proof.
  destruct w. unfold addEventCallback. go_all.
  destruct (JsMap.get event _) eqn:E; go_all.
  - rewrite E. by eexists.
  - destruct (JsMap.get event (JsMap.set event [] _)); by eexists.
Qed.

Lemma removeEventCallback_run (event : string) (callback : nat) (w : World) :
  exists cbs, removeEventCallback event callback w = (Ok tt, set_eventCallbacks cbs w, []).
Proof.
  destruct w. unfold removeEventCallback. go_all.
  destruct (JsMap.get event _); by eexists.
Qed.

Lemma emitEventCallback_run (event : option string) (w : World) :
  exists fx, emitEventCallback event w = (Ok tt, w, fx).
Proof.
  unfold emitEventCallback. destruct (event ≫= _); by eexists.
Qed.

Lemma onmessage_run (data : string) (parsed : option Parsed) (w : World) :
  exists fx, onmessage data parsed w = (Ok tt, w, Emit (RawMessage data) :: fx).
Proof.
  unfold onmessage, handleIncomingMessage, handleParsedMessage. go_all.
  destruct parsed as [[|et]|]; go_all; try by eexists.
  destruct (emitEventCallback_run et w) as [fx1 ->].
  destruct (emitEventCallback_run (Some "message") w) as [fx2 ->].
  go_all. by eexists.
Qed.

Lemma step_keeps_ledger (input : Input) (w : World) :
  keeps_ledger input = true ->
  ledger (world_of (step input w)) = ledger w.
Proof.
  intros H. destruct input; try discriminate; clear H; unfold step.
  - crunch; open_worlds; by cbn.
  - go_all. destruct (addEventCallback_run event callback w) as [cbs ->]. by go_all.
  - destruct (removeEventCallback_run event callback w) as [cbs ->]. by go_all.
  - unfold auth_changes. go_all. by destruct (channel w).
  - crunch; open_worlds; by cbn.
  - crunch; open_worlds; by cbn.
  - crunch; open_worlds; by cbn.
  - unfold onerror. crunch; by cbn.
  - go_all. destruct (sockets w !! i) as [s|]; [| done].
    destruct (is_OPEN (readyState s)); [| done].
    destruct (handlers s); [| done].
    destruct (onmessage_run data parsed w) as [fx ->]. done.
Qed.

Lemma run_keeps_ledger (inputs : list Input) (w : World) :
  forallb keeps_ledger inputs = true ->
  ledger (fst (run inputs w)) = ledger w.
Proof.
  revert w. induction inputs as [|input rest IH]; intros w H; cbn in *; [done |].
  apply andb_true_iff in H as [H1 H2].
  rewrite (IH (world_of (step input w)) H2).
  by apply step_keeps_ledger.
Qed.

(** ** The ledger has no duplicates *)

Lemma JsSet_has_true (x : string) (s : list string) : JsSet.has x s = true <-> x ∈ s.
Proof. unfold JsSet.has. by rewrite bool_decide_eq_true. Qed.

Lemma JsSet_has_false (x : string) (s : list string) : JsSet.has x s = false <-> x ∉ s.
Proof. unfold JsSet.has. by rewrite bool_decide_eq_false. Qed.

Lemma JsSet_add_NoDup (x : string) (s : list string) : NoDup s -> NoDup (JsSet.add x s).
Proof.
  intros H. unfold JsSet.add. destruct (JsSet.has x s) eqn:E; [done |].
  apply JsSet_has_false in E.
  apply NoDup_app. split; [done |]. split; [| apply NoDup_singleton].
  intros y Hy ->%list_elem_of_singleton. done.
Qed.

Lemma JsSet_delete_NoDup (x : string) (s : list string) : NoDup s -> NoDup (JsSet.delete x s).
Proof. intros H. unfold JsSet.delete. by apply NoDup_filter. Qed.

Lemma foldl_add_NoDup (ids s : list string) :
  NoDup s -> NoDup (foldl (fun s id => JsSet.add id s) s ids).
Proof.
  revert s. induction ids as [|id ids IH]; intros s H; cbn; [done |].
  apply IH. by apply JsSet_add_NoDup.
Qed.

Lemma foldl_delete_NoDup (ids s : list string) :
  NoDup s -> NoDup (foldl (fun s id => JsSet.delete id s) s ids).
Proof.
  revert s. induction ids as [|id ids IH]; intros s H; cbn; [done |].
  apply IH. by apply JsSet_delete_NoDup.
Qed.

Lemma subscribe_ledger (arg : JsArg) (w : World) :
  ledger (world_of (subscribe arg w)) = ledger w \/
  exists ids, ledger (world_of (subscribe arg w))
              = foldl (fun s id => JsSet.add id s) (ledger w) ids.
Proof.
  unfold subscribe, validate, sendSubscription, sendFullSubscription, isConnected.
  destruct w. crunch; cbn; eauto.
Qed.

Lemma unsubscribe_ledger (arg : JsArg) (w : World) :
  ledger (world_of (unsubscribe arg w)) = ledger w \/
  exists ids, ledger (world_of (unsubscribe arg w))
              = foldl (fun s id => JsSet.delete id s) (ledger w) ids.
Proof.
  unfold unsubscribe, validate, sendUnsubscription, sendFullSubscription, isConnected.
  destruct w. crunch; cbn; eauto.
Qed.

Lemma step_ledger_NoDup (input : Input) (w : World) :
  NoDup (ledger w) -> NoDup (ledger (world_of (step input w))).
Proof.
  intros H.
  destruct (keeps_ledger input) eqn:E.
  { by rewrite (step_keeps_ledger input w E). }
  destruct input; try discriminate; clear E; unfold step.
  - go_all. apply NoDup_nil_2.
  - destruct (subscribe_ledger arg w) as [-> | [ids ->]]; [done |].
    by apply foldl_add_NoDup.
  - destruct (unsubscribe_ledger arg w) as [-> | [ids ->]]; [done |].
    by apply foldl_delete_NoDup.
Qed.

Lemma run_ledger_NoDup (inputs : list Input) (w : World) :
  NoDup (ledger w) -> NoDup (ledger (fst (run inputs w))).
Proof.
  revert w. induction inputs as [|input rest IH]; intros w H; cbn; [done |].
  apply IH. by apply step_ledger_NoDup.
Qed.

Lemma listed_json_strings (ids : list string) :
  omap (fun v => match v with JString s => Some s | _ => None end) (map JString ids) = ids.
Proof. induction ids as [|id ids IH]; cbn; [done | by rewrite IH]. Qed.

Lemma replay_lists_the_ledger (w : World) : flat_map listed_ids (replay w) = ledger w.
Proof.
  unfold replay. destruct (channel w).
  - destruct (ledger w) as [|k l] eqn:E; cbn; [done |].
    unfold market_message, json_strings. cbn.
    rewrite !app_nil_r. by rewrite listed_json_strings.
  - unfold user_message, json_strings. cbn.
    rewrite !app_nil_r. by rewrite listed_json_strings.
Qed.

Lemma sends_app (fx1 fx2 : list Effect) : sends (fx1 ++ fx2) = sends fx1 ++ sends fx2.
Proof. unfold sends. apply omap_app. Qed.

Lemma sends_state_change (a b : ConnectionState) : sends (state_change a b) = [].
Proof. unfold state_change. by destruct (state_eqb a b). Qed.

Lemma sends_of_messages (j : nat) (ms : list Json) :
  sends (map (fun m => WsSend j (wire m)) ms) = map (fun m => (j, wire m)) ms.
Proof. induction ms as [|m ms IH]; cbn; [done | by rewrite <- IH]. Qed.

(** ** The client's socket opens *)

Lemma replay_ext (w1 w2 : World) :
  channel w1 = channel w2 -> ledger w1 = ledger w2 -> replay w1 = replay w2.
Proof. intros H1 H2. unfold replay. by rewrite H1, H2. Qed.

Lemma replay_at_most_one (w : World) : replay w = [] \/ exists m, replay w = [m].
Proof.
  unfold replay. destruct (channel w); [| eauto].
  destruct (0 <? _)%nat; eauto.
Qed.

Lemma current_socket_opens (w : World) (j : nat) (s : Socket) (p : nat) :
  ws w = Some j -> sockets w !! j = Some s ->
  readyState s = CONNECTING -> handlers s = Some p ->
  let r := step (SocketOpens j) w in
  result_of r = Ok tt /\
  effects_of r =
    state_change (state w) connected ++ map (fun m => WsSend j (wire m)) (replay w)
      ++ [Emit Connected; Resolve p] /\
  state (world_of r) = connected /\
  ledger (world_of r) = ledger w /\
  channel (world_of r) = channel w /\
  ws (world_of r) = Some j /\
  reconnectAttempts (world_of r) = 0.
Proof.
  intros Hws Hs Hr Hh r. unfold r, step. go_all.
  rewrite Hs, Hr, Hh. go_all.
  rewrite (replay_ext (opened _) w) by (by destruct w).
  destruct (replay_at_most_one w) as [-> | [m ->]]; cbn.
  - destruct w; done.
  - rewrite (send_open m _ j (set_readyState OPEN s));
      [| done | done | by cbn; rewrite list_lookup_alter_eq, Hs | done].
    destruct w; done.
Qed.

(** ** The first connection of a client with subscriptions *)

Lemma checked_ids_strings (ids : list string) :
  Forall (fun id => JsString.trim_is_empty id = false) ids ->
  checked_ids (map Str ids) = Some ids.
Proof.
  induction 1 as [|id ids H _ IH]; cbn; [done |].
  by rewrite H, IH.
Qed.

Lemma foldl_add_fresh (ids s : list string) :
  NoDup (s ++ ids) -> foldl (fun s id => JsSet.add id s) s ids = s ++ ids.
Proof.
  revert s. induction ids as [|id ids IH]; intros s H; cbn.
  - by rewrite app_nil_r.
  - assert (JsSet.add id s = s ++ [id]) as ->.
    { unfold JsSet.add. destruct (JsSet.has id s) eqn:E; [| done].
      apply JsSet_has_true in E. apply NoDup_app in H as (_ & H & _).
      destruct (H id E). by left. }
    rewrite IH; rewrite <- app_assoc; done.
Qed.

Lemma filter_not_in_empty (ids : list string) :
  filter (fun id => JsSet.has id [] = false) ids = ids.
Proof.
  induction ids as [|id ids IH]; [done |].
  rewrite filter_cons_True; [by rewrite IH |].
  apply JsSet_has_false. apply not_elem_of_nil.
Qed.

(** [subscribe] on a client that was never connected and has an empty
    ledger. *)
Lemma subscribe_on_new_client (ch : Channel) (o : ClobClientOptions) (throws : bool)
    (ids : list string) :
  NoDup ids ->
  Forall (fun id => JsString.trim_is_empty id = false) ids ->
  step (CallSubscribe (Arr (map Str ids))) (new_client ch o throws)
  = (Ok tt, set_ledger ids (new_client ch o throws), []).
Proof.
  intros Hnd Hok.
  unfold step, subscribe, validate. go_all.
  rewrite (checked_ids_strings ids Hok). go_all.
  rewrite filter_not_in_empty.
  destruct ids as [|id ids]; [done |]. go_all.
  unfold isConnected. cbn. go_all.
  change (JsSet.add id []) with [id].
  by rewrite (foldl_add_fresh ids [id]).
Qed.


(** ** disconnect() and the subscriptions *)

(** The claim of C10 that no replay message is sent on the open that
    follows a [disconnect()] and a new [connect()] fails on the user
    channel: its [onConnected] always sends the full subscription. *)
Lemma user_channel_replays_after_disconnect :
  let w := fst (run [CallSubscribe (Arr [Str "m"]); CallConnect; SocketOpens 0;
                     CallDisconnect; CallConnect] user0) in
  ledger w = [] /\
  sends (effects_of (step (SocketOpens 1) w)) = [(1, wire (user_message sample_auth []))] /\
  sends (effects_of (step (SocketOpens 1) w)) <> [].
Proof. split; [reflexivity |]. split; [reflexivity | discriminate]. Qed.

(** C10, amended. [disconnect()] empties the ledger and the channel's
    callback registry and resets the attempt counter to 0. The next
    [connect()] on the same instance starts with an empty ledger, and
    when its socket opens the market channel sends nothing, while the
    user channel sends its authenticated subscription with an empty list
    of markets. *)
Theorem disconnect_forgets_subscriptions (w : World) :
  constructorThrows w = false ->
  let w1 := world_of (step CallDisconnect w) in
  let j := length (sockets w) in
  let w2 := world_of (step CallConnect w1) in
  let r := step (SocketOpens j) w2 in
  ledger w1 = [] /\ eventCallbacks w1 = [] /\ reconnectAttempts w1 = 0 /\
  state w1 = disconnected /\
  ledger w2 = [] /\ state w2 = connecting /\ ws w2 = Some j /\
  state (world_of r) = connected /\ ledger (world_of r) = [] /\
  sends (effects_of r) =
    match channel w with
    | Market => []
    | User a => [(j, wire (user_message a []))]
    end.
Proof.
  intros Hc w1 j w2 r.
  assert (w1 = set_state disconnected (cleaned (set_isIntentionalClose true w))) as Hw1.
  { unfold w1, step. by go_all. }
  assert (length (sockets w1) = j) as Hj.
  { rewrite Hw1. unfold cleaned. cbn. destruct (ws w); by rewrite ?length_alter. }
  assert (w2 = with_new_connection (set_isIntentionalClose false w1)) as Hw2.
  { unfold w2, step. go_all. rewrite Hw1. cbn. rewrite Hc. by go_all. }
  assert (ws w2 = Some j /\ ledger w2 = [] /\ channel w2 = channel w /\ state w2 = connecting /\
          sockets w2 !! j = Some {| sock_url := url (options w1); readyState := CONNECTING;
                                    handlers := Some (promises w1) |})
    as (Hws & Hl & Hch & Hst & Hs).
  { rewrite Hw2. unfold with_new_connection. cbn. rewrite Hj.
    split; [done |]. rewrite Hw1. cbn. repeat split; try done.
    rewrite <- Hj, Hw1. apply lookup_last. }
  destruct (current_socket_opens w2 j _ _ Hws Hs eq_refl eq_refl)
    as (_ & Hfx & Hst' & Hl' & _).
  fold r in Hfx, Hst', Hl'.
  split; [by rewrite Hw1 |]. split; [by rewrite Hw1 |]. split; [by rewrite Hw1 |].
  split; [by rewrite Hw1 |].
  split; [done |]. split; [done |]. split; [done |]. split; [done |].
  split; [by rewrite Hl', Hl |].
  rewrite Hfx, !sends_app, sends_state_change, sends_of_messages.
  unfold replay. rewrite Hl, Hch. cbn.
  by destruct (channel w).
Qed.

Lemma disconnect_forgets_subscriptions_witness :
  let w := fst (run [CallSubscribe (Arr [Str "a"; Str "b"]); CallOn "book" 7; CallConnect;
                     SocketOpens 0] market0) in
  let w1 := world_of (step CallDisconnect w) in
  let w2 := world_of (step CallConnect w1) in
  ledger w = ["a"; "b"] /\ eventCallbacks w = [("book", [7])] /\
  ledger w1 = [] /\ eventCallbacks w1 = [] /\ reconnectAttempts w1 = 0 /\
  sends (effects_of (step (SocketOpens 1) w2)) = [].
Proof.
  split; [reflexivity |]. split; [reflexivity |].
  pose proof (disconnect_forgets_subscriptions
                (fst (run [CallSubscribe (Arr [Str "a"; Str "b"]); CallOn "book" 7; CallConnect;
                           SocketOpens 0] market0)) eq_refl)
    as (H1 & H2 & H3 & _ & _ & _ & _ & _ & _ & H4).
  split; [exact H1 |]. split; [exact H2 |]. split; [exact H3 |]. exact H4.
Defined.

(** ** The connection timeout *)




(** ** State changes and their events *)

Local Arguments state_changes : simpl never.

Lemma state_changes_app (fx1 fx2 : list Effect) :
  state_changes (fx1 ++ fx2) = state_changes fx1 ++ state_changes fx2.
Proof. unfold state_changes. apply omap_app. Qed.

Lemma state_changes_state_change (a b : ConnectionState) :
  state_changes (state_change a b) = if state_eqb a b then [] else [(b, a)].
Proof. unfold state_change. by destruct (state_eqb a b). Qed.

Lemma sends_not_state_changes (j : nat) (ms : list Json) :
  state_changes (map (fun m => WsSend j (wire m)) ms) = [].
Proof. by induction ms. Qed.

Lemma taken_not_state_changes (i : nat) (text : string) (w : World) :
  state_changes (taken i text w) = [].
Proof.
  unfold taken. destruct (sockets w !! i) as [s|]; [| done].
  by destruct (is_OPEN (readyState s)).
Qed.

(** ** Lookups in the tables of timers and sockets *)

Lemma lookup_cancel_opt (h : option nat) (ts : list (option Timer)) (k : nat) (t : Timer) :
  cancel_opt h ts !! k = Some (Some t) -> ts !! k = Some (Some t) /\ h <> Some k.
Proof.
  destruct h as [h|]; cbn; [| done].
  intros H. apply list_lookup_insert_Some in H as [(_ & ? & _) | [? ?]]; [done |].
  split; [done | congruence].
Qed.

Lemma lookup_cancelled (h : nat) (ts : list (option Timer)) (k : nat) (t : Timer) :
  <[h := None]> ts !! k = Some (Some t) -> ts !! k = Some (Some t) /\ h <> k.
Proof.
  intros H. apply (lookup_cancel_opt (Some h)) in H as [H Hne].
  split; [done | congruence].
Qed.

Lemma lookup_snoc (A : Type) (l : list A) (x y : A) (k : nat) :
  (l ++ [x]) !! k = Some y -> l !! k = Some y \/ (k = length l /\ y = x).
Proof.
  intros H. apply lookup_snoc_Some in H as [[_ H] | [-> ->]]; auto.
Qed.

Lemma lookup_altered (A : Type) (f : A -> A) (l : list A) (i k : nat) (y : A) :
  alter f i l !! k = Some y ->
  (k = i /\ exists x, l !! i = Some x /\ y = f x) \/ (k <> i /\ l !! k = Some y).
Proof.
  destruct (decide (i = k)) as [-> | Hne].
  - rewrite list_lookup_alter_eq. destruct (l !! k) as [x|] eqn:E; cbn; [| done].
    intros [= <-]. left. eauto.
  - rewrite list_lookup_alter_ne by done. right. split; [congruence | done].
Qed.

(** ** Quiet worlds *)

Lemma quiet_consistent (w : World) : quiet w -> state w <> connected -> consistent w.
Proof.
  intros [Hs Ht] Hst. split.
  - intros j s H1 H2 H3. by destruct (H3 (Hs j s H1 H2)).
  - done.
  - intros h p ms H. destruct (Ht h) as [H' | H']; congruence.
  - intros h d H. destruct (Ht h) as [H' | H']; congruence.
  - intros h ms H. destruct (Ht h) as [H' | H']; congruence.
Qed.

Lemma no_pending_timer (ts : list (option Timer)) :
  (forall h t, ts !! h <> Some (Some t)) ->
  forall h, ts !! h = Some None \/ ts !! h = None.
Proof.
  intros H h. destruct (ts !! h) as [[t|]|] eqn:E; auto. by destruct (H h t).
Qed.

Lemma consistent_disconnected_quiet (w : World) :
  consistent w -> state w = disconnected -> quiet w.
Proof.
  intros [H1 H2 H3 H4 H5] Hst. split.
  - intros j s Hj Hh. destruct (decide (readyState s = CLOSED)) as [|Hr]; [done |].
    destruct (H1 j s Hj Hh Hr) as [_ H]. rewrite Hst in H. by destruct (is_OPEN _).
  - apply no_pending_timer. intros h [p ms | d | ms] E.
    + destruct (H3 h p ms E) as (_ & j & s & _ & Hj & Hh & Hr).
      assert (readyState s <> CLOSED) as Hr' by (by rewrite Hr).
      destruct (H1 j s Hj Hh Hr') as [_ H]. rewrite Hst, Hr in H. done.
    + destruct (H4 h d E) as [_ H]. congruence.
    + destruct (H5 h ms E) as [_ H]. congruence.
Qed.

Lemma consistent_reconnecting_quiet (w : World) (h : nat) (d : Double.double) :
  consistent w -> timers w !! h = Some (Some (ReconnectTimer d)) ->
  quiet (set_timers (<[h := None]> (timers w)) w).
Proof.
  intros [H1 H2 H3 H4 H5] Hh.
  destruct (H4 h d Hh) as [Hrt Hst]. split; cbn.
  - intros j s Hj Hs. destruct (decide (readyState s = CLOSED)) as [|Hr]; [done |].
    destruct (H1 j s Hj Hs Hr) as [_ H]. rewrite Hst in H. by destruct (is_OPEN _).
  - apply no_pending_timer. intros k [p ms | d' | ms] E;
      apply lookup_cancelled in E as [E Hne].
    + destruct (H3 k p ms E) as (_ & j & s & _ & Hj & Hs & Hr).
      assert (readyState s <> CLOSED) as Hr' by (by rewrite Hr).
      destruct (H1 j s Hj Hs Hr') as [_ H]. rewrite Hst, Hr in H. done.
    + destruct (H4 k d' E) as [H _]. congruence.
    + destruct (H5 k ms E) as [_ H]. congruence.
Qed.

(** A connection attempt from a quiet world. *)
Lemma quiet_with_new_connection (w : World) : quiet w -> consistent (with_new_connection w).
Proof.
  intros [Hs Ht]. unfold with_new_connection. split; cbn.
  - intros j s Hj Hh Hr. apply lookup_snoc in Hj as [Hj | [-> ->]].
    + by destruct (Hr (Hs j s Hj Hh)).
    + done.
  - done.
  - intros h p ms H. apply lookup_snoc in H as [H | [-> [= -> ->]]].
    + destruct (Ht h) as [H' | H']; congruence.
    + split; [done |]. eexists _, _. split; [done |]. split; [apply lookup_last |]. by cbn.
  - intros h d H. apply lookup_snoc in H as [H | [_ [=]]].
    destruct (Ht h) as [H' | H']; congruence.
  - intros h ms H. apply lookup_snoc in H as [H | [_ [=]]].
    destruct (Ht h) as [H' | H']; congruence.
Qed.

Lemma quiet_with_failed_connection (w : World) : quiet w -> quiet (with_failed_connection w).
Proof.
  intros [Hs Ht]. unfold with_failed_connection. split; cbn; [done |].
  apply no_pending_timer. intros h t H. apply lookup_cancel_opt in H as [H _].
  destruct (Ht h) as [H' | H']; congruence.
Qed.

Lemma quiet_with_reconnect_scheduled (random : Q) (w : World) :
  quiet w -> consistent (with_reconnect_scheduled random w).
Proof.
  intros [Hs Ht]. unfold with_reconnect_scheduled. split; cbn.
  - intros j s Hj Hh Hr. by destruct (Hr (Hs j s Hj Hh)).
  - done.
  - intros h p ms H. apply lookup_snoc in H as [H | [_ [=]]].
    destruct (Ht h) as [H' | H']; congruence.
  - intros h d H. apply lookup_snoc in H as [H | [-> _]]; [| done].
    destruct (Ht h) as [H' | H']; congruence.
  - intros h ms H. apply lookup_snoc in H as [H | [_ [=]]].
    destruct (Ht h) as [H' | H']; congruence.
Qed.

Lemma quiet_ext (w w' : World) :
  sockets w' = sockets w -> timers w' = timers w -> quiet w -> quiet w'.
Proof. intros Hs Ht [H1 H2]. split; by rewrite ?Hs, ?Ht. Qed.

Lemma consistent_ext (w w' : World) :
  state w' = state w -> ws w' = ws w -> sockets w' = sockets w -> timers w' = timers w ->
  connectionTimer w' = connectionTimer w -> reconnectTimer w' = reconnectTimer w ->
  heartbeatTimer w' = heartbeatTimer w ->
  consistent w -> consistent w'.
Proof.
  intros E1 E2 E3 E4 E5 E6 E7 [H1 H2 H3 H4 H5].
  split; rewrite ?E1, ?E2, ?E3, ?E4, ?E5, ?E6, ?E7; done.
Qed.

(** A live socket, in a consistent world. *)
Lemma live_socket (w : World) (j : nat) (s : Socket) (p : nat) :
  consistent w -> sockets w !! j = Some s -> handlers s = Some p ->
  readyState s <> CLOSED ->
  ws w = Some j /\ state w = (if is_OPEN (readyState s) then connected else connecting) /\
  forall k s', sockets w !! k = Some s' -> is_Some (handlers s') ->
               readyState s' <> CLOSED -> k = j.
Proof.
  intros Hc Hj Hh Hr.
  destruct (live_socket_is_current w Hc j s Hj) as [Hws Hst]; [by rewrite Hh | done |].
  split; [done |]. split; [done |].
  intros k s' Hk Hh' Hr'.
  destruct (live_socket_is_current w Hc k s' Hk Hh' Hr') as [Hws' _]. congruence.
Qed.

(** The connection timer fires. *)
Lemma consistent_timed_out (w : World) (h p : nat) (ms : Z) :
  consistent w -> timers w !! h = Some (Some (ConnectionTimer p ms)) ->
  exists j, ws w = Some j /\ state w = connecting /\
    consistent (set_sockets (alter closing j (sockets w))
                  (set_timers (<[h := None]> (timers w)) w)).
Proof.
  intros Hc Hh.
  destruct (connection_timer_is_held w Hc h p ms Hh) as (Hct & j & s & Hws & Hj & [q Hq] & Hr).
  assert (readyState s <> CLOSED) as Hr' by (by rewrite Hr).
  destruct (live_socket w j s q Hc Hj Hq Hr') as (_ & Hst & Huniq).
  rewrite Hr in Hst. cbn in Hst.
  exists j. split; [done |]. split; [done |].
  split; cbn.
  - intros k y Hk Hy Hry. apply lookup_altered in Hk as [(-> & x & Hx & ->) | [Hne Hk]].
    + rewrite Hj in Hx. injection Hx as <-. split; [done |].
      rewrite Hst. unfold closing. by rewrite Hr.
    + by destruct (Hne (Huniq k y Hk Hy Hry)).
  - congruence.
  - intros k p' ms' Hk. apply lookup_cancelled in Hk as [Hk Hne].
    destruct (connection_timer_is_held w Hc k p' ms' Hk) as [Hct' _]. congruence.
  - intros k d Hk. apply lookup_cancelled in Hk as [Hk _].
    destruct (reconnect_timer_is_held w Hc k d Hk) as [_ H]. congruence.
  - intros k ms' Hk. apply lookup_cancelled in Hk as [Hk _].
    destruct (heartbeat_timer_is_held w Hc k ms' Hk) as [_ H]. congruence.
Qed.

(** The current socket opens. *)
Lemma consistent_opened (w : World) (j : nat) (s : Socket) (p : nat) :
  consistent w -> sockets w !! j = Some s -> readyState s = CONNECTING ->
  handlers s = Some p ->
  ws w = Some j /\ state w = connecting /\
  consistent (opened (set_sockets (alter (set_readyState OPEN) j (sockets w)) w)).
Proof.
  intros Hc Hj Hr Hh.
  assert (readyState s <> CLOSED) as Hr' by (by rewrite Hr).
  destruct (live_socket w j s p Hc Hj Hh Hr') as (Hws & Hst & Huniq).
  rewrite Hr in Hst. cbn in Hst.
  split; [done |]. split; [done |].
  unfold opened. split; cbn.
  - intros k y Hk Hy Hry. apply lookup_altered in Hk as [(-> & x & Hx & ->) | [Hne Hk]].
    + done.
    + by destruct (Hne (Huniq k y Hk Hy Hry)).
  - intros _. exists j, (set_readyState OPEN s).
    split; [done |]. split; [by rewrite list_lookup_alter_eq, Hj |].
    cbn. by rewrite Hh.
  - intros k p' ms' Hk. apply lookup_snoc in Hk as [Hk | [_ [=]]].
    apply lookup_cancel_opt in Hk as [Hk _]. apply lookup_cancel_opt in Hk as [Hk Hne].
    destruct (connection_timer_is_held w Hc k p' ms' Hk) as [Hct' _]. congruence.
  - intros k d Hk. apply lookup_snoc in Hk as [Hk | [_ [=]]].
    apply lookup_cancel_opt in Hk as [Hk _]. apply lookup_cancel_opt in Hk as [Hk _].
    destruct (reconnect_timer_is_held w Hc k d Hk) as [_ H]. congruence.
  - intros k ms' Hk. apply lookup_snoc in Hk as [Hk | [-> _]]; [| done].
    apply lookup_cancel_opt in Hk as [Hk _]. apply lookup_cancel_opt in Hk as [Hk _].
    destruct (heartbeat_timer_is_held w Hc k ms' Hk) as [_ H]. congruence.
Qed.

(** An event of a socket whose handlers were removed. *)
Lemma consistent_detached_event (w : World) (j : nat) (s : Socket) (r : ReadyState) :
  consistent w -> sockets w !! j = Some s -> handlers s = None ->
  consistent (set_sockets (alter (set_readyState r) j (sockets w)) w).
Proof.
  intros Hc Hj Hh.
  assert (forall k s', sockets w !! k = Some s' -> is_Some (handlers s') ->
            alter (set_readyState r) j (sockets w) !! k = Some s') as Hother.
  { intros k s' Hk Hs'. rewrite list_lookup_alter_ne; [done |].
    intros ->. rewrite Hj in Hk. injection Hk as <-. rewrite Hh in Hs'. by destruct Hs'. }
  split; cbn.
  - intros k y Hk Hy Hry. apply lookup_altered in Hk as [(-> & x & Hx & ->) | [Hne Hk]].
    + rewrite Hj in Hx. injection Hx as <-. cbn in Hy. rewrite Hh in Hy. by destruct Hy.
    + by apply (live_socket_is_current w Hc k y).
  - intros Hst. destruct (connected_has_socket w Hc Hst) as (k & s' & Hws & Hk & Hs' & Hr').
    exists k, s'. auto.
  - intros h p ms Hk.
    destruct (connection_timer_is_held w Hc h p ms Hk) as (Hct & k & s' & Hws & Hk' & Hs' & Hr').
    split; [done |]. exists k, s'. auto.
  - apply (reconnect_timer_is_held w Hc).
  - apply (heartbeat_timer_is_held w Hc).
Qed.

(** The current socket closes. *)
Lemma quiet_closed (w : World) (j : nat) (s : Socket) (p : nat) :
  consistent w -> sockets w !! j = Some s -> readyState s <> CLOSED ->
  handlers s = Some p ->
  (state w = connected \/ state w = connecting) /\
  quiet (closed (set_sockets (alter (set_readyState CLOSED) j (sockets w)) w)).
Proof.
  intros Hc Hj Hr Hh.
  destruct (live_socket w j s p Hc Hj Hh Hr) as (Hws & Hst & Huniq).
  assert (state w = connected \/ state w = connecting) as Hst'
    by (destruct (is_OPEN _); auto).
  split; [done |].
  unfold closed. split; cbn.
  - intros k y Hk Hy. apply lookup_altered in Hk as [(-> & x & Hx & ->) | [Hne Hk]]; [done |].
    destruct (decide (readyState y = CLOSED)) as [|Hry]; [done |].
    by destruct (Hne (Huniq k y Hk Hy Hry)).
  - apply no_pending_timer. intros k [p' ms | d | ms] Hk;
      apply lookup_cancel_opt in Hk as [Hk Hne1]; apply lookup_cancel_opt in Hk as [Hk Hne2].
    + destruct (connection_timer_is_held w Hc k p' ms Hk) as [H _]. congruence.
    + destruct (reconnect_timer_is_held w Hc k d Hk) as [_ H].
      destruct Hst' as [H' | H']; congruence.
    + destruct (heartbeat_timer_is_held w Hc k ms Hk) as [H _]. congruence.
Qed.

(** The caller disconnects. *)
Lemma quiet_cleaned (w : World) : consistent w -> quiet (cleaned w).
Proof.
  intros Hc. unfold cleaned. split; cbn.
  - intros k y Hk Hy.
    destruct (decide (readyState y = CLOSED)) as [|Hry]; [done |]. exfalso.
    destruct (ws w) as [i|] eqn:Hws.
    + apply lookup_altered in Hk as [(-> & x & Hx & ->) | [Hne Hk]].
      * apply lookup_altered in Hx as [(_ & x' & _ & ->) | [? _]]; [| done].
        unfold closing in Hy. cbn in Hy. destruct (readyState x'); cbn in Hy; by destruct Hy.
      * apply lookup_altered in Hk as [(-> & _) | [_ Hk]]; [done |].
        destruct (live_socket_is_current w Hc k y Hk Hy Hry) as [H _]. congruence.
    + destruct (live_socket_is_current w Hc k y Hk Hy Hry) as [H _]. congruence.
  - apply no_pending_timer. intros k [p' ms | d | ms] Hk;
      apply lookup_cancel_opt in Hk as [Hk Hne1]; apply lookup_cancel_opt in Hk as [Hk Hne2];
      apply lookup_cancel_opt in Hk as [Hk Hne3].
    + destruct (connection_timer_is_held w Hc k p' ms Hk) as [H _]. congruence.
    + destruct (reconnect_timer_is_held w Hc k d Hk) as [H _]. congruence.
    + destruct (heartbeat_timer_is_held w Hc k ms Hk) as [H _]. congruence.
Qed.

(** ** Every step keeps the world consistent and moves along an edge *)

(** Compute the [stateChange] events of an effect list. *)
Ltac changes :=
  rewrite ?state_changes_app, ?state_changes_state_change, ?sends_not_state_changes;
  unfold state_changes; cbn.

Lemma subscribe_shape (arg : JsArg) (w : World) :
  exists l, world_of (subscribe arg w) = set_ledger l w /\
            state_changes (effects_of (subscribe arg w)) = [].
Proof.
  unfold subscribe, validate, sendSubscription, sendFullSubscription, isConnected.
  destruct w. crunch; cbn; eexists; (split; [reflexivity |]);
    first [reflexivity | apply taken_not_state_changes].
Qed.

Lemma unsubscribe_shape (arg : JsArg) (w : World) :
  exists l, world_of (unsubscribe arg w) = set_ledger l w /\
            state_changes (effects_of (unsubscribe arg w)) = [].
Proof.
  unfold unsubscribe, validate, sendUnsubscription, sendFullSubscription, isConnected.
  destruct w. crunch; cbn; eexists; (split; [reflexivity |]);
    first [reflexivity | apply taken_not_state_changes].
Qed.

Lemma emitEventCallback_shape (event : option string) (w : World) :
  exists cbs, emitEventCallback event w = (Ok tt, w, map Invoke cbs).
Proof.
  unfold emitEventCallback. destruct (event ≫= _) as [cbs|]; [by exists cbs | by exists []].
Qed.

Lemma invocations_not_state_changes (cbs : list nat) : state_changes (map Invoke cbs) = [].
Proof. by induction cbs. Qed.

Lemma onmessage_shape (data : string) (parsed : option Parsed) (w : World) :
  world_of (onmessage data parsed w) = w /\
  state_changes (effects_of (onmessage data parsed w)) = [].
Proof.
  unfold onmessage, handleIncomingMessage, handleParsedMessage. go.
  destruct parsed as [[|et]|]; go; try done.
  destruct (emitEventCallback_shape et w) as [cbs1 ->].
  destruct (emitEventCallback_shape (Some "message") w) as [cbs2 ->].
  go. split; [done |].
  change (Emit (RawMessage data) :: ?fx) with ([Emit (RawMessage data)] ++ fx).
  by rewrite !state_changes_app, !invocations_not_state_changes.
Qed.

Lemma onConnected_shape (w : World) :
  world_of (onConnected w) = w /\ state_changes (effects_of (onConnected w)) = [].
Proof.
  rewrite onConnected_run. destruct (replay w) as [|m ?]; [done |].
  rewrite send_run. destruct (ws w); [| done].
  destruct (state_eqb (state w) connected); [| done].
  split; [done | apply taken_not_state_changes].
Qed.

Lemma onopen_shape (p : nat) (w : World) :
  world_of (onopen p w) = opened w /\
  state_changes (effects_of (onopen p w)) = state_changes (state_change (state w) connected).
Proof.
  rewrite onopen_run.
  destruct (onConnected_shape (opened w)) as [Hw Hfx].
  destruct (onConnected (opened w)) as [[r w2] fx].
  unfold world_of, effects_of in *. cbn [fst snd] in Hw, Hfx. subst w2.
  destruct r as [[]|e]; cbn [fst snd]; (split; [done |]).
  - rewrite !state_changes_app, Hfx. unfold state_changes at 2. cbn. by rewrite app_nil_r.
  - by rewrite !state_changes_app, Hfx, app_nil_r.
Qed.

Lemma createConnection_shape (w : World) :
  quiet w -> state w <> connected ->
  consistent (world_of (createConnection w)) /\
  state (world_of (createConnection w)) = connecting /\
  state_changes (effects_of (createConnection w))
    = (if state_eqb (state w) connecting then [] else [(connecting, state w)]).
Proof.
  intros Hq Hst. rewrite createConnection_run.
  destruct (constructorThrows w); cbn.
  - split; [| split; [done | changes; by rewrite app_nil_r]].
    apply quiet_consistent; [by apply quiet_with_failed_connection | done].
  - split; [| split; [done | changes; by rewrite app_nil_r]].
    by apply quiet_with_new_connection.
Qed.

Lemma follows_one (edge : ConnectionState -> ConnectionState -> bool)
    (a b : ConnectionState) :
  (a <> b -> edge a b = true) ->
  follows edge a (if state_eqb a b then [] else [(b, a)]) b.
Proof.
  intros H. destruct (state_eqb a b) eqn:E; cbn.
  - by apply state_eqb_eq.
  - apply state_eqb_neq in E. auto.
Qed.

Lemma settle_shape (random : Q) (w : World) :
  quiet w -> state w = connected \/ state w = connecting ->
  consistent (world_of (settle random w)) /\
  follows code_edge (state w) (state_changes (effects_of (settle random w)))
    (state (world_of (settle random w))).
Proof.
  intros Hq Hprev. rewrite settle_run.
  assert (consistent (set_state disconnected w)) as Hd.
  { apply quiet_consistent; [| done]. by apply (quiet_ext w). }
  assert (follows code_edge (state w)
            (if state_eqb (state w) disconnected then [] else [(disconnected, state w)])
            disconnected) as Hfd.
  { apply follows_one. by destruct Hprev as [-> | ->]. }
  assert (follows code_edge (state w)
            (if state_eqb (state w) reconnecting then [] else [(reconnecting, state w)])
            reconnecting) as Hfr.
  { apply follows_one. by destruct Hprev as [-> | ->]. }
  destruct (negb (isIntentionalClose w) && autoReconnect (options w)).
  - rewrite scheduleReconnect_run. destruct (attempts_exhausted _ _); cbn.
    + split; [done |]. changes. by rewrite app_nil_r.
    + split; [by apply quiet_with_reconnect_scheduled |].
      changes. by rewrite app_nil_r.
  - cbn. split; [done |]. by changes.
Qed.

Lemma step_consistent_and_follows (w : World) (input : Input) :
  consistent w -> allowed input w = true ->
  consistent (world_of (step input w)) /\
  follows code_edge (state w) (state_changes (effects_of (step input w)))
    (state (world_of (step input w))).
Proof.
  intros Hc Ha. destruct input; unfold step.
  - (* connect() *)
    rewrite bind_unfold, connect_run. cbn in Ha.
    destruct (state w) eqn:Hst; cbn in *; try done.
    assert (quiet (set_isIntentionalClose false w)) as Hq.
    { apply (quiet_ext w); [done | done |]. by apply consistent_disconnected_quiet. }
    destruct (createConnection_shape (set_isIntentionalClose false w) Hq)
      as (H1 & H2 & H3); [cbn; congruence |].
    split; [done |]. rewrite app_nil_r, H3, H2. cbn. rewrite Hst. by cbn.
  - (* disconnect() *)
    rewrite disconnect_run. cbn. split.
    + apply quiet_consistent; [| done].
      apply (quiet_ext (cleaned (set_isIntentionalClose true w))); [done | done |].
      apply quiet_cleaned. by apply (consistent_ext w).
    + rewrite state_changes_app.
      assert (state_changes (cleanup_close w) = []) as ->.
      { unfold cleanup_close. destruct (ws w); [| done].
        destruct (sockets w !! _); [| done]. by destruct (_ || _). }
      rewrite state_changes_state_change. cbn.
      apply follows_one. by destruct (state w).
  - (* subscribe() *)
    destruct (subscribe_shape arg w) as (l & -> & ->). cbn.
    split; [by apply (consistent_ext w) | done].
  - (* unsubscribe() *)
    destruct (unsubscribe_shape arg w) as (l & -> & ->). cbn.
    split; [by apply (consistent_ext w) | done].
  - (* a channel callback is registered *)
    destruct (addEventCallback_run event callback w) as [cbs ->]. cbn.
    split; [by apply (consistent_ext w) | done].
  - (* a channel callback is removed *)
    destruct (removeEventCallback_run event callback w) as [cbs ->]. cbn.
    split; [by apply (consistent_ext w) | done].
  - (* the caller changes the credentials object *)
    unfold auth_changes. rewrite modify_run. cbn.
    destruct (channel w); cbn; (split; [| done]); [done |].
    by apply (consistent_ext w).
  - (* a timer fires *)
    rewrite fire_run.
    destruct (timers w !! h) as [[[p ms | d | ms]|]|] eqn:Hh; cbn; try done.
    + destruct (consistent_timed_out w h p ms Hc Hh) as (j & Hws & Hst & Hc').
      rewrite connection_timeout_run. cbn. rewrite Hws. cbn. done.
    + destruct (reconnect_timer_is_held w Hc h d Hh) as [_ Hst].
      destruct (createConnection_shape (set_timers (<[h := None]> (timers w)) w))
        as (H1 & H2 & H3).
      * by apply (consistent_reconnecting_quiet w h d).
      * cbn. congruence.
      * split; [done |]. rewrite H3, H2. cbn. rewrite Hst. by cbn.
    + destruct (state_eqb (state w) connected); [| done].
      destruct (ws w); [| done]. cbn. split; [done |].
      by rewrite taken_not_state_changes.
  - (* a socket opens *)
    rewrite socket_event_run.
    destruct (sockets w !! i) as [s|] eqn:Hi; [| done].
    destruct (is_CONNECTING (readyState s)) eqn:Hr; [| done].
    cbn. destruct (handlers s) as [p|] eqn:Hh.
    + assert (readyState s = CONNECTING) as Hr' by (by destruct (readyState s)).
      destruct (consistent_opened w i s p Hc Hi Hr' Hh) as (Hws & Hst & Hc').
      destruct (onopen_shape p (set_sockets (alter (set_readyState OPEN) i (sockets w)) w))
        as [-> ->].
      split; [done |]. rewrite state_changes_state_change. cbn. rewrite Hst. by cbn.
    + cbn. split; [| done]. by apply (consistent_detached_event w i s).
  - (* a socket closes *)
    rewrite socket_event_run.
    destruct (sockets w !! i) as [s|] eqn:Hi; [| done].
    destruct (negb (is_CLOSED (readyState s))) eqn:Hr; [| done].
    cbn. destruct (handlers s) as [p|] eqn:Hh.
    + assert (readyState s <> CLOSED) as Hr' by (by destruct (readyState s)).
      destruct (quiet_closed w i s p Hc Hi Hr' Hh) as [Hst Hq].
      rewrite onclose_run. cbn.
      destruct (settle_shape random _ Hq) as [H1 H2]; [done |].
      split; [done |].
      change (Emit (Disconnected code reason) :: ?fx)
        with ([Emit (Disconnected code reason)] ++ fx).
      rewrite state_changes_app. exact H2.
    + cbn. split; [| done]. by apply (consistent_detached_event w i s).
  - (* a socket signals an error *)
    rewrite socket_event_run.
    destruct (sockets w !! i) as [s|] eqn:Hi; [| done].
    destruct (negb (is_CLOSED (readyState s))); [| done].
    cbn. by destruct (handlers s).
  - (* a message arrives *)
    rewrite socket_event_run.
    destruct (sockets w !! i) as [s|] eqn:Hi; [| done].
    destruct (is_OPEN (readyState s)); [| done].
    cbn. destruct (handlers s); [| done].
    destruct (onmessage_shape data parsed w) as [-> ->]. done.
Qed.

(** ** The state changes only through setState *)

Lemma follows_app (edge : ConnectionState -> ConnectionState -> bool)
    (a b c : ConnectionState) (l1 l2 : list (ConnectionState * ConnectionState)) :
  follows edge a l1 b -> follows edge b l2 c -> follows edge a (l1 ++ l2) c.
Proof.
  revert a. induction l1 as [|[new previous] l1 IH]; intros a H1 H2; cbn in *.
  - by subst.
  - destruct H1 as (-> & He & H1). eauto.
Qed.

Lemma tracks_bind {A B} (m : Run A) (f : A -> Run B) :
  tracks m -> (forall a, tracks (f a)) -> tracks (m ≫= f).
Proof.
  intros Hm Hf w. rewrite bind_unfold. specialize (Hm w).
  destruct (m w) as [[[a|e] w1] fx1]; cbn in *; [| done].
  specialize (Hf a w1). destruct (f a w1) as [[r w2] fx2]; cbn in *.
  rewrite state_changes_app. by eapply follows_app.
Qed.

Lemma tracks_try_catch {A} (m : Run A) (h : Error -> Run A) :
  tracks m -> (forall e, tracks (h e)) -> tracks (try_catch m h).
Proof.
  intros Hm Hh w. rewrite try_catch_unfold. specialize (Hm w).
  destruct (m w) as [[[a|e] w1] fx1]; cbn in *; [done |].
  specialize (Hh e w1). destruct (h e w1) as [[r w2] fx2]; cbn in *.
  rewrite state_changes_app. by eapply follows_app.
Qed.

Lemma tracks_ret {A} (a : A) : tracks (mret a : Run A).
Proof. by intros w. Qed.

Lemma tracks_skip : tracks skip.
Proof. by intros w. Qed.

Lemma tracks_get : tracks get.
Proof. by intros w. Qed.

Lemma tracks_throw {A} (e : Error) : tracks (@throw A e).
Proof. by intros w. Qed.

Lemma tracks_modify (f : World -> World) :
  (forall w, state (f w) = state w) -> tracks (modify f).
Proof. intros H w. cbn. by rewrite H. Qed.

Lemma tracks_tell (e : Effect) : state_changes [e] = [] -> tracks (tell e).
Proof. intros H w. cbn. by rewrite H. Qed.

Lemma tracks_setState (s : ConnectionState) : tracks (setState s).
Proof.
  intros w. rewrite setState_run. cbn. rewrite state_changes_state_change.
  apply follows_one. intros H. unfold any_edge. by apply state_eqb_neq in H as ->.
Qed.

Lemma tracks_arm (t : Timer) : tracks (arm t).
Proof. by intros w. Qed.

Lemma tracks_new_promise : tracks new_promise.
Proof. by intros w. Qed.

Lemma tracks_new_WebSocket (u : string) : tracks (new_WebSocket u).
Proof. intros w. unfold new_WebSocket. by destruct (constructorThrows w). Qed.

Lemma tracks_emitEventCallback (event : option string) : tracks (emitEventCallback event).
Proof.
  intros w. destruct (emitEventCallback_shape event w) as [cbs ->]. cbn.
  by rewrite invocations_not_state_changes.
Qed.

(** Decompose a method into the statements above. *)
Ltac track :=
  repeat first
    [ apply tracks_setState
    | apply tracks_bind; [| intros ?]
    | apply tracks_try_catch; [| intros ?]
    | apply tracks_ret
    | apply tracks_skip
    | apply tracks_get
    | apply tracks_throw
    | apply tracks_arm
    | apply tracks_new_promise
    | apply tracks_new_WebSocket
    | apply tracks_emitEventCallback
    | apply tracks_modify; intros []; cbn; repeat case_match; done
    | apply tracks_tell; reflexivity
    | match goal with
      | |- tracks (match ?x with _ => _ end) => destruct x
      end ].

Lemma tracks_step (input : Input) : tracks (step input).
Proof.
  destruct input; unfold_methods_only; track.
Qed.

(** ** The state machine *)

Lemma new_client_consistent (ch : Channel) (o : ClobClientOptions) (throws : bool) :
  consistent (new_client ch o throws).
Proof.
  apply quiet_consistent; [| done]. split; cbn.
  - intros j s H. by rewrite lookup_nil in H.
  - intros h. right. apply lookup_nil.
Qed.

Lemma reachable_consistent (w : World) : reachable w -> consistent w.
Proof.
  induction 1 as [ch o throws | w input _ IH Ha].
  - apply new_client_consistent.
  - by apply step_consistent_and_follows.
Qed.

(** A connected client of such a history holds its transport, which is
    open: there [send] does not throw. *)
Lemma connected_client_holds_transport (w : World) :
  reachable w -> state w = connected ->
  exists i s, ws w = Some i /\ sockets w !! i = Some s /\ readyState s = OPEN.
Proof.
  intros Hr Hst.
  destruct (connected_has_socket w (reachable_consistent w Hr) Hst)
    as (i & s & Hws & Hi & _ & Hs).
  eauto.
Qed.

(** The claim of C2 that the state only changes along the edges of the
    diagram fails when a reconnect timer fires: the state goes from
    [reconnecting] to [connecting], which the diagram does not list (it
    goes from [reconnecting] straight to [connected]). *)
Lemma reconnection_passes_through_connecting :
  let w := fst (run [CallConnect; SocketOpens 0; SocketCloses 0 1006 "" 0] market0) in
  let r := step (TimerFires 2) w in
  state w = reconnecting /\ state (world_of r) = connecting /\
  state_changes (effects_of r) = [(connecting, reconnecting)] /\
  diagram_edge reconnecting connecting = false /\
  ~ follows diagram_edge (state w) (state_changes (effects_of r)) (state (world_of r)).
Proof.
  intros w r.
  assert (state w = reconnecting) as H1 by (vm_compute; reflexivity).
  assert (state (world_of r) = connecting) as H2 by (vm_compute; reflexivity).
  assert (state_changes (effects_of r) = [(connecting, reconnecting)]) as H3
    by (vm_compute; reflexivity).
  split; [done |]. split; [done |]. split; [done |]. split; [reflexivity |].
  rewrite H1, H2, H3. cbn. intros (_ & H & _). discriminate.
Qed.

(** C2, amended. In every history, whatever happens to the client, the
    [stateChange] events that are published account for the change of
    [connectionState]: each change publishes exactly one event, which
    carries the new and the previous state, and no event is published
    without a change. In a history in which [connect()] is not called
    while a reconnection is pending, every change is along one of:
    disconnected to connecting, reconnecting to connecting, connecting
    to connected, connecting to reconnecting, connected to reconnecting,
    and any other state to disconnected. *)
Theorem state_changes_are_published_and_follow_the_code_edges :
  (forall (w : World) (input : Input),
      follows any_edge (state w) (state_changes (effects_of (step input w)))
        (state (world_of (step input w)))) /\
  (forall (w : World) (input : Input),
      reachable w -> allowed input w = true ->
      follows code_edge (state w) (state_changes (effects_of (step input w)))
        (state (world_of (step input w)))).
Proof.
  split.
  - intros w input. apply tracks_step.
  - intros w input Hr Ha.
    by apply step_consistent_and_follows; [apply reachable_consistent |].
Qed.

Lemma state_changes_witness :
  let w := fst (run [CallConnect; SocketOpens 0; SocketCloses 0 1006 "" 0] market0) in
  let r := step (TimerFires 2) w in
  follows code_edge (state w) (state_changes (effects_of r)) (state (world_of r)) /\
  state_changes (effects_of r) = [(connecting, reconnecting)].
Proof.
  split; [| vm_compute; reflexivity].
  apply (proj2 state_changes_are_published_and_follow_the_code_edges
           (fst (run [CallConnect; SocketOpens 0; SocketCloses 0 1006 "" 0] market0))
           (TimerFires 2)).
  - apply (reachable_step _ (SocketCloses 0 1006 "" 0%Q)); [| reflexivity].
    apply (reachable_step _ (SocketOpens 0)); [| reflexivity].
    apply (reachable_step _ CallConnect); [| reflexivity].
    apply reachable_new.
  - reflexivity.
Defined.

(** ** After disconnect() *)

Lemma quiet_detached_event (w : World) (i : nat) (r : ReadyState) :
  quiet w -> (r = CLOSED \/ forall s, sockets w !! i = Some s -> handlers s = None) ->
  quiet (set_sockets (alter (set_readyState r) i (sockets w)) w).
Proof.
  intros [Hs Ht] Hr. split; cbn; [| done].
  intros k y Hk Hy. apply lookup_altered in Hk as [(-> & x & Hx & ->) | [_ Hk]]; [| eauto].
  destruct Hr as [-> | Hr]; [done |].
  cbn in Hy. rewrite (Hr x Hx) in Hy. by destruct Hy.
Qed.

(** In a quiet world the runtime has nothing to deliver. *)
Lemma quiet_runtime_step (w : World) (input : Input) :
  quiet w -> from_runtime input = true ->
  effects_of (step input w) = [] /\ quiet (world_of (step input w)) /\
  state (world_of (step input w)) = state w.
Proof.
  intros Hq Hi. pose proof Hq as [Hs Ht].
  destruct input; try discriminate; clear Hi; unfold step.
  - rewrite fire_run. by destruct (Ht h) as [-> | ->].
  - rewrite socket_event_run. destruct (sockets w !! i) as [s|] eqn:Hi; [| done].
    destruct (is_CONNECTING (readyState s)) eqn:Hr; [| done].
    cbn. destruct (handlers s) as [p|] eqn:Hh.
    + rewrite (Hs i s Hi) in Hr; [done | by rewrite Hh].
    + cbn. split; [done |]. split; [| done].
      apply quiet_detached_event; [done |]. right. congruence.
  - rewrite socket_event_run. destruct (sockets w !! i) as [s|] eqn:Hi; [| done].
    destruct (negb (is_CLOSED (readyState s))) eqn:Hr; [| done].
    cbn. destruct (handlers s) as [p|] eqn:Hh.
    + rewrite (Hs i s Hi) in Hr; [done | by rewrite Hh].
    + cbn. split; [done |]. split; [| done].
      apply quiet_detached_event; [done |]. by left.
  - rewrite socket_event_run. destruct (sockets w !! i) as [s|] eqn:Hi; [| done].
    destruct (negb (is_CLOSED (readyState s))) eqn:Hr; [| done].
    cbn. destruct (handlers s) as [p|] eqn:Hh; [| done].
    rewrite (Hs i s Hi) in Hr; [done | by rewrite Hh].
  - rewrite socket_event_run. destruct (sockets w !! i) as [s|] eqn:Hi; [| done].
    destruct (is_OPEN (readyState s)) eqn:Hr; [| done].
    cbn. destruct (handlers s) as [p|] eqn:Hh; [| done].
    rewrite (Hs i s Hi) in Hr; [done | by rewrite Hh].
Qed.

Lemma quiet_runtime_run (inputs : list Input) (w : World) :
  quiet w -> forallb from_runtime inputs = true ->
  snd (run inputs w) = [] /\ state (fst (run inputs w)) = state w.
Proof.
  revert w. induction inputs as [|input rest IH]; intros w Hq Hi; cbn in *; [done |].
  apply andb_true_iff in Hi as [H1 H2].
  destruct (quiet_runtime_step w input Hq H1) as (-> & Hq' & Hst).
  destruct (IH _ Hq' H2) as [-> ->]. done.
Qed.

(** As long as the caller never called [connect()] while a reconnection
    was pending, [disconnect()] leaves nothing behind: whatever timers
    and sockets do afterwards, nothing is published, sent or
    constructed, and the state stays [disconnected]. *)
Lemma disconnect_silences_the_client (w : World) (inputs : list Input) :
  reachable w -> forallb from_runtime inputs = true ->
  let w1 := world_of (step CallDisconnect w) in
  isIntentionalClose w1 = true /\
  snd (run inputs w1) = [] /\ state (fst (run inputs w1)) = disconnected.
Proof.
  intros Hr Hi w1.
  assert (w1 = set_state disconnected (cleaned (set_isIntentionalClose true w))) as ->.
  { unfold w1, step. by rewrite disconnect_run. }
  split; [done |].
  apply quiet_runtime_run; [| done].
  apply (quiet_ext (cleaned (set_isIntentionalClose true w))); [done | done |].
  apply quiet_cleaned. apply (consistent_ext w); try done. by apply reachable_consistent.
Qed.

(** C5, at the input where the code fails it. After the history
    [impatient_caller], which ends with [disconnect()], the state is
    [disconnected], the close is marked intentional and the client holds
    no timer, but the reconnect timer armed when the first of the two
    failed attempts closed is still pending: its handle was overwritten,
    not cancelled, when the second attempt closed. When it fires, a new
    transport is constructed and the state becomes [connecting], with no
    [connect()] from the caller. *)
Theorem reconnect_timer_survives_disconnect :
  let w := fst (run impatient_caller market0) in
  let r := step (TimerFires 5) w in
  state w = disconnected /\ isIntentionalClose w = true /\
  reconnectTimer w = None /\ connectionTimer w = None /\ heartbeatTimer w = None /\
  (exists delay, timers w !! 5 = Some (Some (ReconnectTimer delay))) /\
  constructions (effects_of r) = [3] /\
  state (world_of r) = connecting /\
  state_changes (effects_of r) = [(connecting, disconnected)].
Proof.
  repeat split; try (vm_compute; reflexivity).
  eexists. vm_compute. reflexivity.
Qed.

(** ** send *)




(** ** Replay when the transport opens *)

Lemma reachable_ledger_NoDup (w : World) : reachable w -> NoDup (ledger w).
Proof.
  induction 1 as [ch o throws | w input _ IH _]; [apply NoDup_nil_2 |].
  by apply step_ledger_NoDup.
Qed.

(** In a history where [connect()] was not called while a reconnection
    was pending, a socket that still has its handlers and is connecting
    is the client's transport, and the state is [connecting]. When it
    opens, the state becomes [connected] and [stateChange] is published,
    then the replay is handed to that socket, then [connected] is
    published and the promise of the attempt is resolved. *)
Lemma transport_opens (w : World) (j : nat) (s : Socket) (p : nat) :
  reachable w -> sockets w !! j = Some s ->
  readyState s = CONNECTING -> handlers s = Some p ->
  let r := step (SocketOpens j) w in
  state w = connecting /\ ws w = Some j /\
  result_of r = Ok tt /\
  state (world_of r) = connected /\
  ledger (world_of r) = ledger w /\
  effects_of r =
    [Emit (StateChange connected connecting)]
      ++ map (fun m => WsSend j (wire m)) (replay w) ++ [Emit Connected; Resolve p].
Proof.
  intros Hr Hj Hs Hh r.
  destruct (live_socket_is_current w (reachable_consistent w Hr) j s Hj) as [Hws Hst].
  { by rewrite Hh. }
  { by rewrite Hs. }
  rewrite Hs in Hst. cbn in Hst.
  destruct (current_socket_opens w j s p Hws Hj Hs Hh) as (H1 & H2 & H3 & H4 & _).
  fold r in H1, H2, H3, H4. rewrite Hst in H2.
  by repeat split.
Qed.

(** With subscriptions the replay is one message, which lists the
    ledger; without any the market channel sends nothing and the user
    channel its credentials with no market. *)
Lemma replay_is_one_message (w : World) :
  replay w =
    match channel w, ledger w with
    | Market, [] => []
    | _, _ => [replay_message (channel w) (ledger w)]
    end /\
  flat_map listed_ids (replay w) = ledger w.
Proof.
  split; [| apply replay_lists_the_ledger].
  unfold replay, replay_message. destruct (channel w); [| by destruct (ledger w)].
  by destruct (ledger w).
Qed.

(** In such a history, when a connection is lost and the caller neither
    subscribes, unsubscribes nor disconnects until the next transport
    opens, the ledger then is the one of before the loss, and the open
    hands the transport the replay of it: every id of the ledger once,
    and no other id. *)
Lemma ledger_is_replayed_once_after_reconnection
    (w : World) (i : nat) (code : Z) (reason : string) (random : Q) (between : list Input)
    (j : nat) (s : Socket) (p : nat) :
  let w' := fst (run (SocketCloses i code reason random :: between) w) in
  let r := step (SocketOpens j) w' in
  reachable w' -> forallb keeps_ledger between = true ->
  sockets w' !! j = Some s -> readyState s = CONNECTING -> handlers s = Some p ->
  ledger w' = ledger w /\
  state (world_of r) = connected /\
  sends (effects_of r) = map (fun m => (j, wire m)) (replay w') /\
  flat_map listed_ids (replay w') = ledger w /\
  NoDup (ledger w).
Proof.
  intros w' r Hr Hb Hj Hs Hh.
  assert (ledger w' = ledger w) as Hl.
  { unfold w'. by rewrite (run_keeps_ledger (SocketCloses i code reason random :: between)). }
  destruct (transport_opens w' j s p Hr Hj Hs Hh) as (_ & _ & _ & Hst & _ & Hfx).
  fold r in Hst, Hfx.
  split; [done |]. split; [done |]. split.
  { rewrite Hfx, !sends_app, sends_of_messages. cbn. by rewrite app_nil_r. }
  rewrite replay_lists_the_ledger, <- Hl.
  split; [done |]. by apply reachable_ledger_NoDup.
Qed.

Lemma ledger_is_replayed_example :
  let before := [CallSubscribe (Arr [Str "a"; Str "b"; Str "c"]); CallConnect; SocketOpens 0;
                 CallUnsubscribe (Arr [Str "b"])] in
  let w := fst (run before market0) in
  let w' := fst (run [SocketCloses 0 1006 "Connection lost" (1 # 2); TimerFires 2] w) in
  ledger w = ["a"; "c"] /\
  ledger w' = ledger w /\
  state (world_of (step (SocketOpens 1) w')) = connected /\
  sends (effects_of (step (SocketOpens 1) w'))
    = [(1, json_text "{'type':'MARKET','assets_ids':['a','c']}")].
Proof.
  cbv zeta. split; [vm_compute; reflexivity |].
  set (w := fst (run [CallSubscribe (Arr [Str "a"; Str "b"; Str "c"]); CallConnect;
                      SocketOpens 0; CallUnsubscribe (Arr [Str "b"])] market0)).
  assert (reachable (fst (run [SocketCloses 0 1006 "Connection lost" (1 # 2); TimerFires 2] w)))
    as Hr.
  { repeat (apply reachable_step; [| vm_compute; reflexivity]). apply reachable_new. }
  assert (forallb keeps_ledger [TimerFires 2] = true) as Hb by reflexivity.
  destruct (ledger_is_replayed_once_after_reconnection w 0 1006 "Connection lost" (1 # 2)%Q
              [TimerFires 2] 1
              {| sock_url := DEFAULT_CLOB_WSS_URL; readyState := CONNECTING; handlers := Some 1 |}
              1 Hr Hb) as (H1 & H2 & H3 & _);
    [vm_compute; reflexivity | reflexivity | reflexivity |].
  split; [exact H1 |]. split; [exact H2 |].
  rewrite H3. vm_compute. reflexivity.
Qed.

(** C1, at the input where the code fails it. After the history
    [overlapping_attempts] the ledger holds the id [a], the state is
    [connecting], and sockets 1 and 2 are both connecting with their
    handlers in place; the client's transport is socket 2. When socket 1
    opens, the state becomes [connected], but the replay is sent to
    socket 2, whose [send] throws: the open ends with that error,
    nothing has been handed to a transport, and the id is not
    retransmitted. The heartbeat of the connected client, whose timer
    runs, is not sent either. *)
Theorem replay_is_lost_when_attempts_overlap :
  let w := fst (run overlapping_attempts market0) in
  let r := step (SocketOpens 1) w in
  ledger w = ["a"] /\ state w = connecting /\ ws w = Some 2 /\
  sockets w !! 1 = Some {| sock_url := DEFAULT_CLOB_WSS_URL; readyState := CONNECTING;
                           handlers := Some 1 |} /\
  sockets w !! 2 = Some {| sock_url := DEFAULT_CLOB_WSS_URL; readyState := CONNECTING;
                           handlers := Some 2 |} /\
  result_of r = Thrown InvalidState /\
  state (world_of r) = connected /\
  ledger (world_of r) = ["a"] /\
  sends (effects_of r) = [] /\
  timers (world_of r) !! 5 = Some (Some (HeartbeatTimer 30000)) /\
  step (TimerFires 5) (world_of r) = (Ok tt, world_of r, []).
Proof. by_computation. Qed.

(** C4, at the input where the code fails it. After the history
    [overlapping_attempts] socket 1 opens: the state becomes
    [connected] and the [stateChange] is published, but no replay is
    sent, no [connected] event is published and the promise of the
    [connect()] call is not resolved. If socket 2 opens afterwards, the
    replay is sent then, in a step that records no transition, and the
    promise that is resolved is the one of the reconnect timer. If it
    does not, the timeout of the attempt of socket 1, whose handle was
    overwritten, fires: it closes socket 2 and rejects the promise of
    the [connect()] call whose socket is open. *)
Theorem connected_is_reached_without_replay_or_event :
  let w := fst (run overlapping_attempts market0) in
  let r1 := step (SocketOpens 1) w in
  let r2 := step (SocketOpens 2) (world_of r1) in
  let r3 := step (TimerFires 3) (world_of r1) in
  state w = connecting /\ ledger w = ["a"] /\
  effects_of r1 = [Emit (StateChange connected connecting)] /\
  state (world_of r1) = connected /\
  effects_of r2 = [WsSend 2 (wire (market_message ["a"])); Emit Connected; Resolve 2] /\
  effects_of r3 = [Emit (ErrorEvent (ConnectionTimeout 10000)); WsClose 2 None;
                   Reject 1 (ConnectionTimeout 10000)].
Proof. by_computation. Qed.

(** * Further properties *)

(** ** Maps and sets of JavaScript *)

Lemma JsMap_get_set {V} (k : string) (v : V) (m : list (string * V)) :
  JsMap.get k (JsMap.set k v m) = Some v.
Proof.
  induction m as [|[k' v'] m IH]; cbn.
  - by rewrite decide_True.
  - destruct (decide (k' = k)) as [->|Hne]; cbn.
    + by rewrite decide_True.
    + by rewrite decide_False.
Qed.

Lemma JsMap_get_set_ne {V} (k k' : string) (v : V) (m : list (string * V)) :
  k <> k' -> JsMap.get k' (JsMap.set k v m) = JsMap.get k' m.
Proof.
  intros Hne. induction m as [|[k0 v0] m IH]; cbn.
  - by rewrite decide_False.
  - destruct (decide (k0 = k)) as [->|Hne0]; cbn.
    + by rewrite !decide_False.
    + destruct (decide (k0 = k')); [done | exact IH].
Qed.

Lemma JsMap_get_delete {V} (k : string) (m : list (string * V)) :
  JsMap.get k (JsMap.delete k m) = None.
Proof.
  unfold JsMap.delete. induction m as [|[k0 v0] m IH]; [done |].
  rewrite filter_cons. cbn. destruct (decide (k0 <> k)) as [Hne|Heq]; [| exact IH].
  cbn. by rewrite decide_False.
Qed.

Lemma JsMap_get_delete_ne {V} (k k' : string) (m : list (string * V)) :
  k <> k' -> JsMap.get k' (JsMap.delete k m) = JsMap.get k' m.
Proof.
  intros Hne. unfold JsMap.delete. induction m as [|[k0 v0] m IH]; [done |].
  rewrite filter_cons. cbn. destruct (decide (k0 <> k)) as [Hne0|Heq]; cbn.
  - destruct (decide (k0 = k')); [done | exact IH].
  - apply dec_stable in Heq. subst k0. by rewrite decide_False.
Qed.

Lemma JsMap_set_absent {V} (k : string) (v : V) (m : list (string * V)) :
  JsMap.get k m = None -> JsMap.set k v m = m ++ [(k, v)].
Proof.
  induction m as [|[k0 v0] m IH]; cbn; [done |].
  destruct (decide (k0 = k)); [done |]. intros H. by rewrite IH.
Qed.

Lemma JsMap_delete_absent {V} (k : string) (m : list (string * V)) :
  JsMap.get k m = None -> JsMap.delete k m = m.
Proof.
  unfold JsMap.delete. induction m as [|[k0 v0] m IH]; [done |].
  cbn [JsMap.get]. destruct (decide (k0 = k)) as [|Hne]; [done |]. intros H.
  rewrite filter_cons. cbn [fst]. rewrite decide_True by done. by rewrite IH.
Qed.

Lemma JsMap_delete_snoc {V} (k : string) (v : V) (m : list (string * V)) :
  JsMap.get k m = None -> JsMap.delete k (m ++ [(k, v)]) = m.
Proof.
  intros H. unfold JsMap.delete. rewrite filter_app.
  fold (JsMap.delete k m). rewrite JsMap_delete_absent by done.
  rewrite filter_cons. cbn [fst]. rewrite decide_False by (intros Hn; by apply Hn).
  by rewrite app_nil_r.
Qed.

Lemma JsMap_set_set {V} (k : string) (v v' : V) (m : list (string * V)) :
  JsMap.set k v (JsMap.set k v' m) = JsMap.set k v m.
Proof.
  induction m as [|[k0 v0] m IH]; cbn.
  - by rewrite decide_True.
  - destruct (decide (k0 = k)) as [->|Hne]; cbn.
    + by rewrite decide_True.
    + by rewrite decide_False, IH.
Qed.

Lemma JsMap_set_same {V} (k : string) (v : V) (m : list (string * V)) :
  JsMap.get k m = Some v -> JsMap.set k v m = m.
Proof.
  induction m as [|[k0 v0] m IH]; cbn; [done |].
  destruct (decide (k0 = k)) as [->|Hne]; [congruence |].
  intros H. by rewrite IH.
Qed.

Lemma JsSet_has_iff {A} `{EqDecision A} (x : A) (s : list A) :
  JsSet.has x s = true <-> x ∈ s.
Proof. unfold JsSet.has. apply bool_decide_eq_true. Qed.

Lemma JsSet_add_new {A} `{EqDecision A} (x : A) (s : list A) :
  x ∉ s -> JsSet.add x s = s ++ [x].
Proof. intros H. unfold JsSet.add, JsSet.has. by rewrite bool_decide_eq_false_2. Qed.

Lemma JsSet_add_old {A} `{EqDecision A} (x : A) (s : list A) :
  x ∈ s -> JsSet.add x s = s.
Proof. intros H. unfold JsSet.add, JsSet.has. by rewrite bool_decide_eq_true_2. Qed.

Lemma JsSet_delete_absent {A} `{EqDecision A} (x : A) (s : list A) :
  x ∉ s -> JsSet.delete x s = s.
Proof.
  unfold JsSet.delete. induction s as [|y s IH]; [done |].
  intros H. apply not_elem_of_cons in H as [H1 H2].
  rewrite filter_cons. rewrite decide_True by congruence. by rewrite IH.
Qed.

Lemma JsSet_delete_middle {A} `{EqDecision A} (x : A) (s1 s2 : list A) :
  x ∉ s1 -> x ∉ s2 -> JsSet.delete x (s1 ++ x :: s2) = s1 ++ s2.
Proof.
  intros H1 H2. unfold JsSet.delete. rewrite filter_app, filter_cons.
  rewrite decide_False by (intros Hn; by apply Hn).
  fold (JsSet.delete x s1). fold (JsSet.delete x s2).
  by rewrite !JsSet_delete_absent.
Qed.

Lemma elem_of_JsSet_delete {A} `{EqDecision A} (x y : A) (s : list A) :
  y ∈ JsSet.delete x s <-> y ∈ s /\ y <> x.
Proof. unfold JsSet.delete. rewrite list_elem_of_filter. tauto. Qed.

Lemma NoDup_JsSet_delete {A} `{EqDecision A} (x : A) (s : list A) :
  NoDup s -> NoDup (JsSet.delete x s).
Proof. apply NoDup_filter. Qed.

Lemma NoDup_JsSet_add {A} `{EqDecision A} (x : A) (s : list A) :
  NoDup s -> NoDup (JsSet.add x s).
Proof.
  intros H. unfold JsSet.add, JsSet.has. case_bool_decide as Hx; [done |].
  apply NoDup_app. split; [done |]. split; [| apply NoDup_singleton].
  intros y Hy Hy'. apply list_elem_of_singleton in Hy'. by subst.
Qed.

(** ** The event emitter *)

Section EmitterFacts.
Import TypedEventEmitter.

Lemma registered_get (ev : string) (e : Emitter) (cbs : list Callback) :
  JsMap.get ev (listeners e) = Some cbs -> registered ev e = cbs.
Proof. unfold registered. by intros ->. Qed.

Lemma registered_nil (ev : string) (e : Emitter) :
  tidy e -> registered ev e = [] -> JsMap.get ev (listeners e) = None.
Proof.
  intros Ht. unfold registered. destruct (JsMap.get ev _) as [cbs|] eqn:E; [| done].
  cbn. intros ->. by destruct (tidy_nonempty e Ht ev).
Qed.

Lemma registered_cons (ev : string) (e : Emitter) (cb : Callback) (cbs : list Callback) :
  registered ev e = cb :: cbs -> JsMap.get ev (listeners e) = Some (cb :: cbs).
Proof. unfold registered. destruct (JsMap.get ev _); cbn; [congruence | done]. Qed.

(** [off] takes the callback out of the set of its event and touches
    nothing else. *)
Lemma off_registered (event : string) (cb : Callback) (e : Emitter) (ev : string) :
  registered ev (off event cb e)
    = (if decide (ev = event) then JsSet.delete cb (registered event e)
       else registered ev e).
Proof.
  unfold off, registered.
  destruct (JsMap.get event (listeners e)) as [cbs|] eqn:E; cbn.
  - destruct (JsSet.size (JsSet.delete cb cbs) =? 0)%nat eqn:Hz; cbn.
    + destruct (decide (ev = event)) as [->|Hne].
      * rewrite JsMap_get_delete. cbn. apply Nat.eqb_eq in Hz.
        symmetry. by apply nil_length_inv.
      * by rewrite JsMap_get_delete_ne, JsMap_get_set_ne.
    + destruct (decide (ev = event)) as [->|Hne].
      * by rewrite JsMap_get_set.
      * by rewrite JsMap_get_set_ne.
  - destruct (decide (ev = event)) as [->|Hne]; [| done]. by rewrite E.
Qed.

Lemma off_closures (event : string) (cb : Callback) (e : Emitter) :
  closures (off event cb e) = closures e.
Proof.
  unfold off. destruct (JsMap.get event _); [| done]. by destruct (_ =? _)%nat.
Qed.

Lemma off_tidy (event : string) (cb : Callback) (e : Emitter) :
  tidy e -> tidy (off event cb e).
Proof.
  intros Ht. split.
  - intros ev. unfold off.
    destruct (JsMap.get event (listeners e)) as [cbs|] eqn:E; [| apply Ht].
    destruct (JsSet.size (JsSet.delete cb cbs) =? 0)%nat eqn:Hz; cbn.
    + destruct (decide (ev = event)) as [->|Hne].
      * by rewrite JsMap_get_delete.
      * rewrite JsMap_get_delete_ne, JsMap_get_set_ne by done. apply Ht.
    + destruct (decide (ev = event)) as [->|Hne].
      * rewrite JsMap_get_set. intros [= H]. by rewrite H in Hz.
      * rewrite JsMap_get_set_ne by done. apply Ht.
  - intros ev. rewrite off_registered. destruct (decide _); [| apply Ht].
    apply NoDup_JsSet_delete, Ht.
  - intros ev k ev' f. rewrite off_registered, off_closures.
    destruct (decide _) as [->|]; [| apply Ht].
    intros H. apply elem_of_JsSet_delete in H as [H _].
    exact (tidy_once e Ht _ _ _ _ H).
Qed.

(** [on] adds the callback to the set of its event, unless the set
    has it, and touches nothing else. *)
Lemma on_registered (event : string) (cb : Callback) (e : Emitter) (ev : string) :
  registered ev (on event cb e).2
    = (if decide (ev = event) then JsSet.add cb (registered event e)
       else registered ev e).
Proof.
  unfold on, registered, JsMap.has. cbn.
  destruct (JsMap.get event (listeners e)) as [cbs|] eqn:E; cbn.
  - rewrite E. cbn. destruct (decide (ev = event)) as [->|Hne].
    + by rewrite JsMap_get_set.
    + by rewrite JsMap_get_set_ne.
  - rewrite JsMap_get_set. cbn. rewrite JsMap_set_set.
    destruct (decide (ev = event)) as [->|Hne].
    + by rewrite JsMap_get_set.
    + by rewrite JsMap_get_set_ne.
Qed.

Lemma on_closures (event : string) (cb : Callback) (e : Emitter) :
  closures (on event cb e).2 = closures e.
Proof. unfold on. cbn. by destruct (JsMap.get event _). Qed.

Lemma JsSet_add_not_nil (cb : Callback) (cbs : list Callback) : JsSet.add cb cbs <> [].
Proof.
  unfold JsSet.add, JsSet.has. case_bool_decide as H.
  - intros ->. by apply not_elem_of_nil in H.
  - by destruct cbs.
Qed.

Lemma on_tidy (event : string) (cb : Callback) (e : Emitter) :
  tidy e ->
  (forall k ev' f, cb = OnceCallback k ev' f -> ev' = event /\ (k < closures e)%nat) ->
  tidy (on event cb e).2.
Proof.
  intros Ht Hcb. split.
  - intros ev. unfold on, JsMap.has. cbn.
    destruct (JsMap.get event (listeners e)) as [cbs|] eqn:E; cbn.
    + rewrite E. cbn. destruct (decide (ev = event)) as [->|Hne].
      * rewrite JsMap_get_set. intros H; inversion H as [H']; by apply JsSet_add_not_nil in H'.
      * rewrite JsMap_get_set_ne by done. apply Ht.
    + rewrite JsMap_get_set. cbn. rewrite JsMap_set_set.
      destruct (decide (ev = event)) as [->|Hne].
      * rewrite JsMap_get_set. intros H; inversion H as [H']; by apply JsSet_add_not_nil in H'.
      * rewrite JsMap_get_set_ne by done. apply Ht.
  - intros ev. rewrite on_registered. destruct (decide _); [| apply Ht].
    apply NoDup_JsSet_add, Ht.
  - intros ev k ev' f. rewrite on_registered, on_closures.
    destruct (decide _) as [->|]; [| apply Ht].
    unfold JsSet.add, JsSet.has. case_bool_decide as Hin; [apply Ht |].
    intros H. apply elem_of_app in H as [H | H]; [exact (tidy_once e Ht _ _ _ _ H) |].
    apply list_elem_of_singleton in H. symmetry in H. by apply Hcb in H.
Qed.

Lemma tidy_closures (e e' : Emitter) :
  listeners e' = listeners e -> (closures e <= closures e')%nat -> tidy e -> tidy e'.
Proof.
  intros Hl Hc Ht. split.
  - intros ev. rewrite Hl. apply Ht.
  - intros ev. unfold registered. rewrite Hl. apply Ht.
  - intros ev k ev' f. unfold registered. rewrite Hl. intros H.
    destruct (tidy_once e Ht ev k ev' f H) as [H1 H2]. split; [done | lia].
Qed.

Lemma once_tidy (event : string) (f : nat) (e : Emitter) : tidy e -> tidy (once event f e).2.
Proof.
  intros Ht. unfold once. apply on_tidy.
  - apply (tidy_closures e); [done | cbn; lia | done].
  - intros k ev' f' [= <- <- <-]. cbn. split; [done | lia].
Qed.

Lemma removeAllListeners_tidy (event : option string) (e : Emitter) :
  tidy e -> tidy (removeAllListeners event e).
Proof.
  intros Ht. destruct event as [event|]; cbn.
  - split.
    + intros ev. cbn. destruct (decide (ev = event)) as [->|Hne].
      * by rewrite JsMap_get_delete.
      * rewrite JsMap_get_delete_ne by done. apply Ht.
    + intros ev. unfold registered. cbn. destruct (decide (ev = event)) as [->|Hne].
      * rewrite JsMap_get_delete. apply NoDup_nil_2.
      * rewrite JsMap_get_delete_ne by done. apply Ht.
    + intros ev k ev' f. unfold registered. cbn.
      destruct (decide (ev = event)) as [->|Hne].
      * rewrite JsMap_get_delete. cbn. by intros H%not_elem_of_nil.
      * rewrite JsMap_get_delete_ne by done. apply Ht.
  - split; cbn; [done | intros; apply NoDup_nil_2 |].
    intros ev k ev' f. unfold registered. cbn. by intros H%not_elem_of_nil.
Qed.

Section Loop.
Context {D : Type} (throws : nat -> bool) (event : string) (data : D).

(** The loop of [emit], from any point of the iteration: the callbacks
    still to visit are the tail of the set. *)
Lemma emit_loop_spec (pending kept : list Callback) (e : Emitter) :
  tidy e -> registered event e = kept ++ pending ->
  let r := emit_loop throws event data pending e in
  tidy r.1 /\
  registered event r.1 = kept ++ filter (fun cb => stays cb = true) pending /\
  (forall ev, ev <> event -> registered ev r.1 = registered ev e) /\
  closures r.1 = closures e /\
  r.2 = flat_map (notices throws event data) pending.
Proof.
  revert kept e. induction pending as [|cb rest IH]; intros kept e Ht Hreg r; subst r.
  - cbn. by rewrite app_nil_r in *.
  - cbn [emit_loop flat_map].
    assert (still_listed event cb e = true) as ->.
    { unfold still_listed. destruct kept as [|cb0 kept].
      - apply registered_cons in Hreg as ->. apply JsSet_has_iff. left.
      - apply registered_cons in Hreg as ->. apply JsSet_has_iff.
        right. apply elem_of_app. right. left. }
    pose proof (tidy_nodup e Ht event) as Hnd. rewrite Hreg in Hnd.
    apply NoDup_app in Hnd as (Hk & Hdisj & Hp). apply NoDup_cons in Hp as [Hcb Hrest].
    rewrite filter_cons. unfold notify.
    destruct cb as [f | k ev f]; cbn [call stays fst snd].
    + destruct (IH (kept ++ [Fn f]) e Ht) as (H1 & H2 & H3 & H4 & H5).
      { by rewrite <- app_assoc. }
      split; [done |]. split; [| split; [done | split; [done |]]].
      * rewrite decide_True by done. by rewrite H2, <- app_assoc.
      * by rewrite H5.
    + assert (ev = event) as ->.
      { apply (tidy_once e Ht event k ev f). rewrite Hreg. apply elem_of_app. right. left. }
      set (e1 := off event (OnceCallback k event f) e).
      assert (registered event e1 = kept ++ rest) as Hreg1.
      { unfold e1. rewrite off_registered, decide_True by done. rewrite Hreg.
        apply JsSet_delete_middle; [| done].
        intros Hin. by apply (Hdisj _ Hin); left. }
      destruct (IH kept e1 (off_tidy _ _ _ Ht) Hreg1) as (H1 & H2 & H3 & H4 & H5).
      split; [done |]. split; [| split; [| split]].
      * by rewrite decide_False by done.
      * intros ev Hne. rewrite H3 by done. unfold e1.
        by rewrite off_registered, decide_False.
      * by rewrite H4; unfold e1; rewrite off_closures.
      * by rewrite H5.
Qed.

Lemma emit_spec (e : Emitter) :
  tidy e ->
  let r := emit throws event data e in
  tidy r.1 /\
  registered event r.1 = filter (fun cb => stays cb = true) (registered event e) /\
  (forall ev, ev <> event -> registered ev r.1 = registered ev e) /\
  closures r.1 = closures e /\
  r.2 = flat_map (notices throws event data) (registered event e).
Proof.
  intros Ht. unfold emit.
  destruct (JsMap.get event (listeners e)) as [cbs|] eqn:E.
  - rewrite (registered_get _ _ _ E).
    apply (emit_loop_spec cbs [] e Ht). by apply registered_get.
  - cbn. unfold registered. rewrite E. by cbn.
Qed.
End Loop.

Lemma perform_tidy {D : Type} (throws : nat -> bool) (c : Call D) (e : Emitter) :
  tidy e -> tidy (perform throws c e).
Proof.
  intros Ht. destruct c; cbn.
  - by apply on_tidy.
  - by apply once_tidy.
  - by apply off_tidy.
  - by apply emit_spec.
  - by apply removeAllListeners_tidy.
Qed.

Lemma new_emitter_tidy : tidy new_emitter.
Proof.
  split; cbn; [done | intros; apply NoDup_nil_2 |].
  intros ev k ev' f. unfold registered. cbn. by intros H%not_elem_of_nil.
Qed.

Lemma after_tidy {D : Type} (throws : nat -> bool) (calls : list (Call D)) :
  tidy (after throws calls).
Proof.
  unfold after. generalize new_emitter_tidy. generalize new_emitter.
  induction calls as [|c calls IH]; intros e Ht; cbn; [done |].
  apply IH. by apply perform_tidy.
Qed.

Lemma called_notices {D : Type} (throws : nat -> bool) (event : string) (data : D)
    (cbs : list Callback) :
  called (flat_map (notices throws event data) cbs) = map fn_of cbs.
Proof.
  induction cbs as [|cb cbs IH]; [done |].
  cbn [flat_map map]. unfold called in *. rewrite flat_map_app, IH.
  unfold notices. by destruct (throws (fn_of cb)).
Qed.

Lemma listenerCount_registered (event : string) (e : Emitter) :
  listenerCount event e = length (registered event e).
Proof. unfold listenerCount, registered. by destruct (JsMap.get event _). Qed.

(** X1. After any sequence of calls of the emitter, [emit] calls the
    listeners of the event in the order in which they were registered,
    each of them once and with the data; a listener that throws is
    logged on the console and the listeners after it are called all the
    same. *)
Theorem emit_calls_the_listeners_in_order {D : Type} (throws : nat -> bool)
    (calls : list (Call D)) (event : string) (data : D) :
  let e := after throws calls in
  let r := emit throws event data e in
  NoDup (registered event e) /\
  length (registered event e) = listenerCount event e /\
  r.2 = flat_map (notices throws event data) (registered event e) /\
  called r.2 = map fn_of (registered event e).
Proof.
  intros e r. pose proof (after_tidy throws calls) as Ht. fold e in Ht.
  destruct (emit_spec throws event data e Ht) as (_ & _ & _ & _ & Hfx).
  split; [apply Ht |]. split; [by rewrite listenerCount_registered |].
  split; [done |]. subst r. rewrite Hfx. apply called_notices.
Qed.

Lemma once_registered (event : string) (f : nat) (e : Emitter) :
  tidy e ->
  registered event (once event f e).2
    = registered event e ++ [OnceCallback (closures e) event f].
Proof.
  intros Ht. unfold once. rewrite on_registered, decide_True by done.
  change (registered event {| listeners := listeners e; closures := S (closures e) |})
    with (registered event e).
  apply JsSet_add_new. intros H.
  destruct (tidy_once e Ht _ _ _ _ H) as [_ Hk]. lia.
Qed.

(** X2. After any sequence of calls, [emit] leaves the listeners of
    the other events as they are and, of the listeners of its event,
    the ones registered with [on], in their order: the listeners
    registered with [once] are gone. A listener registered with [once]
    is called by the next [emit] of its event, after the listeners
    registered before it, and the emitter is then as if it had never been
    registered. *)
Theorem once_listeners_leave_after_one_emit {D : Type} (throws : nat -> bool)
    (calls : list (Call D)) (event : string) (data : D) :
  let e := after throws calls in
  let r := emit throws event data e in
  registered event r.1 = filter (fun cb => stays cb = true) (registered event e) /\
  (forall ev, ev <> event -> registered ev r.1 = registered ev e) /\
  (forall f,
     let r1 := emit throws event data (once event f e).2 in
     called r1.2 = called r.2 ++ [f] /\
     forall ev, registered ev r1.1 = registered ev r.1).
Proof.
  intros e r. pose proof (after_tidy throws calls) as Ht. fold e in Ht.
  destruct (emit_spec throws event data e Ht) as (_ & Hreg & Hother & _ & Hfx).
  split; [done |]. split; [done |].
  intros f r1.
  destruct (emit_spec throws event data _ (once_tidy event f e Ht))
    as (_ & Hreg1 & Hother1 & _ & Hfx1).
  fold r1 in Hreg1, Hother1, Hfx1. fold r in Hfx, Hreg, Hother.
  rewrite once_registered in Hreg1, Hfx1 by done.
  split.
  - rewrite Hfx1, Hfx, !called_notices, map_app. done.
  - intros ev. destruct (decide (ev = event)) as [->|Hne].
    + rewrite Hreg1, Hreg, filter_app, filter_cons. cbn [stays].
      rewrite decide_False by done. by rewrite app_nil_r.
    + rewrite Hother1, Hother by done. unfold once.
      by rewrite on_registered, decide_False.
Qed.

Lemma emitter_eq (e e' : Emitter) :
  listeners e = listeners e' -> closures e = closures e' -> e = e'.
Proof. destruct e, e'. cbn. by intros -> ->. Qed.

Lemma off_on_listeners (event : string) (cb : Callback) (e : Emitter) :
  tidy e -> cb ∉ registered event e ->
  listeners (off event cb (on event cb e).2) = listeners e.
Proof.
  intros Ht Hcb. unfold on, JsMap.has. cbn [snd].
  destruct (JsMap.get event (listeners e)) as [cbs|] eqn:E.
  - rewrite E. unfold off. cbn [listeners set_listeners].
    rewrite JsMap_get_set.
    rewrite (registered_get _ _ _ E) in Hcb.
    rewrite (JsSet_add_new _ _ Hcb).
    replace (JsSet.delete cb (cbs ++ [cb])) with cbs.
    2:{ rewrite (JsSet_delete_middle cb cbs []); [by rewrite app_nil_r | done |].
        apply not_elem_of_nil. }
    destruct cbs as [|c cbs]; [by destruct (tidy_nonempty e Ht event) |].
    cbn [JsSet.size length Nat.eqb listeners set_listeners].
    by rewrite JsMap_set_set, JsMap_set_same.
  - rewrite JsMap_get_set, JsMap_set_set. unfold off. cbn [listeners set_listeners].
    rewrite JsMap_get_set.
    rewrite (JsSet_add_new cb []) by apply not_elem_of_nil.
    rewrite (JsSet_delete_middle cb [] []) by apply not_elem_of_nil.
    cbn [app JsSet.size length Nat.eqb listeners set_listeners].
    rewrite JsMap_set_set, JsMap_set_absent by done.
    by apply JsMap_delete_snoc.
Qed.

(** X3. After any sequence of calls, registering with [on] a function
    that is not a listener of the event and taking it off again, with
    [off] or with the function that [on] returned, gives back the
    emitter as it was: the same listeners in the same order, and no
    empty set left in the map. *)
Theorem off_undoes_on {D : Type} (throws : nat -> bool) (calls : list (Call D))
    (event : string) (f : nat) :
  let e := after throws calls in
  Fn f ∉ registered event e ->
  off event (Fn f) (on event (Fn f) e).2 = e /\
  unsubscribe (on event (Fn f) e).1 (on event (Fn f) e).2 = e.
Proof.
  intros e Hf. pose proof (after_tidy throws calls) as Ht. fold e in Ht.
  assert (off event (Fn f) (on event (Fn f) e).2 = e) as H.
  { apply emitter_eq; [by apply off_on_listeners |].
    by rewrite off_closures, on_closures. }
  split; [done |]. exact H.
Qed.

Lemma off_undoes_on_witness :
  (Fn 1 ∉ registered "error" (after (D := unit) (fun _ => false) [On "error" 0])) /\
  (off "error" (Fn 1) (on "error" (Fn 1) (after (D := unit) (fun _ => false) [On "error" 0])).2
     = after (D := unit) (fun _ => false) [On "error" 0]).
Proof.
  assert (Fn 1 ∉ registered "error" (after (D := unit) (fun _ => false) [On "error" 0]))
    as H.
  { vm_compute. intros H. apply list_elem_of_singleton in H. discriminate. }
  split; [exact H |].
  exact (proj1 (off_undoes_on (fun _ => false) [On "error" 0] "error" 1 H)).
Defined.

(** X4. Registering with [on] a function that is already a listener
    of the event changes nothing: the set of an event lists a function
    once, however often it was registered, and [listenerCount] counts it
    once. *)
Theorem on_registers_a_function_once (e : Emitter) (event : string) (f : nat) :
  let e1 := (on event (Fn f) e).2 in
  (on event (Fn f) e1).2 = e1 /\
  Fn f ∈ registered event e1 /\
  listenerCount event e1
    = (if decide (Fn f ∈ registered event e) then listenerCount event e
       else S (listenerCount event e)).
Proof.
  intros e1.
  assert (registered event e1 = JsSet.add (Fn f) (registered event e)) as Hreg.
  { unfold e1. by rewrite on_registered, decide_True. }
  assert (Fn f ∈ registered event e1) as Hin.
  { rewrite Hreg. unfold JsSet.add, JsSet.has. case_bool_decide; [done |].
    apply elem_of_app. right. left. }
  split; [| split; [done |]].
  - apply emitter_eq; [| by rewrite on_closures].
    unfold on at 1, JsMap.has. cbn [snd].
    destruct (registered event e1) as [|c cbs] eqn:E; [by apply not_elem_of_nil in Hin |].
    pose proof (registered_cons _ _ _ _ E) as Hget. rewrite Hget, Hget.
    cbn [listeners set_listeners]. rewrite JsSet_add_old by done.
    by apply JsMap_set_same.
  - rewrite !listenerCount_registered, Hreg. unfold JsSet.add, JsSet.has.
    destruct (decide (Fn f ∈ registered event e)) as [H|H].
    + by rewrite bool_decide_eq_true_2.
    + rewrite bool_decide_eq_false_2 by done. rewrite length_app. cbn. lia.
Qed.

(** X5. After any sequence of calls, a listener registered with
    [once] is not taken off by [off] with the function that was given
    to [once]: the emitter lists a closure of its own, which only the
    function that [once] returned takes off; that one gives back the
    listeners as they were. *)
Theorem only_its_own_function_cancels_once {D : Type} (throws : nat -> bool)
    (calls : list (Call D)) (event : string) (f : nat) :
  let e := after throws calls in
  let r := once event f e in
  registered event (off event (Fn f) r.2)
    = JsSet.delete (Fn f) (registered event e) ++ [OnceCallback (closures e) event f] /\
  listeners (unsubscribe r.1 r.2) = listeners e.
Proof.
  intros e r. pose proof (after_tidy throws calls) as Ht. fold e in Ht.
  split.
  - rewrite off_registered, decide_True by done. unfold r.
    rewrite once_registered by done.
    unfold JsSet.delete. rewrite filter_app, filter_cons.
    by rewrite decide_True by done.
  - set (e' := {| listeners := listeners e; closures := S (closures e) |}).
    set (cb := OnceCallback (closures e) event f).
    change (listeners (off event cb (on event cb e').2) = listeners e').
    apply off_on_listeners.
    + apply (tidy_closures e); [done | cbn; lia | done].
    + change (registered event e') with (registered event e). intros H.
      destruct (tidy_once e Ht _ _ _ _ H) as [_ Hk]. lia.
Qed.

(** X6. After any sequence of calls the map of listeners holds no
    empty set: an event has an entry in the map exactly when
    [listenerCount] is not zero, that is when [emit] has a listener to
    call. *)
Theorem listeners_hold_no_empty_set {D : Type} (throws : nat -> bool)
    (calls : list (Call D)) (event : string) (data : D) :
  let e := after throws calls in
  (JsMap.has event (listeners e) = false <-> listenerCount event e = 0%nat) /\
  (listenerCount event e = 0%nat <-> (emit throws event data e).2 = []).
Proof.
  intros e. pose proof (after_tidy throws calls) as Ht. fold e in Ht.
  destruct (emit_spec throws event data e Ht) as (_ & _ & _ & _ & Hfx).
  rewrite Hfx, listenerCount_registered. unfold JsMap.has, registered.
  destruct (JsMap.get event (listeners e)) as [[|c cbs]|] eqn:E; cbn.
  - by destruct (tidy_nonempty e Ht event).
  - split; split; intros; discriminate.
  - done.
Qed.

(** X7. [removeAllListeners(event)] takes off every listener of the
    event and no listener of another event; without an argument it
    takes off every listener. After it, [emit] of the event calls
    nothing. *)
Theorem removeAllListeners_spares_the_other_events {D : Type} (throws : nat -> bool)
    (e : Emitter) (event : string) (data : D) :
  let e1 := removeAllListeners (Some event) e in
  listenerCount event e1 = 0%nat /\
  emit throws event data e1 = (e1, []) /\
  (forall ev, ev <> event -> registered ev e1 = registered ev e) /\
  (forall ev, listenerCount ev (removeAllListeners None e) = 0%nat).
Proof.
  intros e1. unfold e1, listenerCount, emit, registered. cbn.
  rewrite JsMap_get_delete. split; [done |]. split; [done |]. split; [| done].
  intros ev Hne. by rewrite JsMap_get_delete_ne.
Qed.

End EmitterFacts.

(** ** disconnect(), again *)

(** X8. [disconnect()] on a client that was just disconnected does
    nothing at all: the client is left as it is and nothing is
    published, closed or cancelled; this in every world, whatever came
    before. *)
Theorem disconnect_twice_is_disconnect_once (w : World) :
  let w1 := world_of (disconnect w) in
  state w1 = disconnected /\ ws w1 = None /\ ledger w1 = [] /\
  disconnect w1 = (Ok tt, w1, []).
Proof.
  cbv zeta. rewrite (disconnect_run w). unfold world_of. cbn [fst snd].
  split; [reflexivity |]. split; [reflexivity |]. split; [reflexivity |].
  rewrite disconnect_run. destruct w. vm_compute. reflexivity.
Qed.

(** X9. In a history where [connect()] was not called while a
    reconnection was pending, [disconnect()] on a connected client calls
    [close(1000, 'Client disconnect')] on the transport, once, and
    publishes the [stateChange] to [disconnected], and that is all: no
    [disconnected] event is published, neither then nor when the
    transport reports the close later, because the handlers were taken
    off the transport before it was closed. *)
Theorem disconnect_publishes_no_disconnected_event (w : World) (inputs : list Input) :
  reachable w -> state w = connected -> forallb from_runtime inputs = true ->
  let r := step CallDisconnect w in
  (exists i, ws w = Some i /\
     effects_of r = [WsClose i (Some (1000%Z, "Client disconnect"));
                     Emit (StateChange disconnected connected)]) /\
  disconnections (effects_of r ++ snd (run inputs (world_of r))) = [].
Proof.
  intros Hr Hst Hin r.
  destruct (disconnect_silences_the_client w inputs Hr Hin) as (_ & Hfx & _).
  fold r in Hfx. rewrite Hfx, app_nil_r.
  destruct (connected_has_socket w (reachable_consistent w Hr) Hst)
    as (i & s & Hws & Hi & _ & Hs).
  assert (effects_of r = [WsClose i (Some (1000%Z, "Client disconnect"));
                          Emit (StateChange disconnected connected)]) as ->.
  { unfold r, step. rewrite disconnect_run. unfold effects_of, cleanup_close. cbn [snd].
    by rewrite Hws, Hi, Hs, Hst. }
  split; [by exists i | done].
Qed.

Lemma disconnect_publishes_no_disconnected_event_witness :
  let w := fst (run [CallConnect; SocketOpens 0] market0) in
  disconnections (effects_of (step CallDisconnect w)
                    ++ snd (run [SocketCloses 0 1000 "Client disconnect" 0]
                              (world_of (step CallDisconnect w)))) = [].
Proof.
  assert (reachable (fst (run [CallConnect; SocketOpens 0] market0))) as Hr.
  { apply (reachable_step _ (SocketOpens 0)); [| done].
    apply (reachable_step _ CallConnect); [| done].
    apply reachable_new. }
  assert (state (fst (run [CallConnect; SocketOpens 0] market0)) = connected) as Hst.
  { vm_compute. reflexivity. }
  exact (proj2 (disconnect_publishes_no_disconnected_event _
                  [SocketCloses 0 1000 "Client disconnect" 0] Hr Hst eq_refl)).
Defined.

(** ** A transport that cannot be constructed *)

Lemma quiet_connecting_run (inputs : list Input) (w : World) :
  quiet w -> state w = connecting -> forallb connect_or_runtime inputs = true ->
  snd (run inputs w) = [] /\ state (fst (run inputs w)) = connecting.
Proof.
  revert w. induction inputs as [|input rest IH]; intros w Hq Hst Hin; cbn in *; [done |].
  apply andb_true_iff in Hin as [H1 H2].
  assert (input = CallConnect \/ from_runtime input = true) as [-> | Hrt]
    by (destruct input; auto).
  - unfold step. rewrite bind_unfold, connect_returns_at_once by auto.
    cbn. by apply IH.
  - destruct (quiet_runtime_step w input Hq Hrt) as (-> & Hq' & Hst').
    apply IH; [done | congruence | done].
Qed.

(** X10. When the constructor of the transport throws, [connect()]
    on a disconnected client publishes the [stateChange] to
    [connecting] and the [error] event and rejects its promise, and the
    state stays [connecting], with no transport and no timer: from there
    no event of the runtime and no further [connect()], which returns
    at once, changes or publishes anything. Only [disconnect()] leaves
    that state. *)
Theorem failed_construction_strands_the_client (w : World) (inputs : list Input) :
  reachable w -> state w = disconnected -> constructorThrows w = true ->
  forallb connect_or_runtime inputs = true ->
  let r := connect w in
  result_of r = Ok (Some (promises w)) /\
  effects_of r = [Emit (StateChange connecting disconnected);
                  Emit (ErrorEvent ConstructorFailure);
                  Reject (promises w) ConstructorFailure] /\
  state (world_of r) = connecting /\
  sockets (world_of r) = sockets w /\ ws (world_of r) = ws w /\
  snd (run inputs (world_of r)) = [] /\
  state (fst (run inputs (world_of r))) = connecting.
Proof.
  intros Hr Hst Hthrow Hin r.
  assert (r = (Ok (Some (promises w)),
               with_failed_connection (set_isIntentionalClose false w),
               [Emit (StateChange connecting disconnected);
                Emit (ErrorEvent ConstructorFailure);
                Reject (promises w) ConstructorFailure])) as ->.
  { unfold r. rewrite connect_creates by auto.
    rewrite createConnection_throws by done. cbn. by rewrite Hst. }
  unfold result_of, effects_of, world_of. cbn [fst snd].
  do 5 (split; [done |]).
  apply quiet_connecting_run; [| done | done].
  apply quiet_with_failed_connection.
  apply (quiet_ext w); [done | done |].
  apply consistent_disconnected_quiet; [by apply reachable_consistent | done].
Qed.

Lemma failed_construction_witness :
  let w := new_client Market default_options true in
  let r := connect w in
  state (world_of r) = connecting /\
  snd (run [CallConnect; TimerFires 0; CallConnect] (world_of r)) = [].
Proof.
  pose proof (failed_construction_strands_the_client
                (new_client Market default_options true)
                [CallConnect; TimerFires 0; CallConnect]
                (reachable_new Market default_options true) eq_refl eq_refl eq_refl) as H.
  cbv zeta in H. exact (conj (proj1 (proj2 (proj2 H))) (proj1 (proj2 (proj2 (proj2 (proj2 (proj2 H))))))).
Defined.

(** ** Errors and messages of the transport *)

Lemma sends_invocations (cbs : list nat) : sends (map Invoke cbs) = [].
Proof. by induction cbs. Qed.

Lemma onmessage_sends (data : string) (parsed : option Parsed) (w : World) :
  result_of (onmessage data parsed w) = Ok tt /\
  sends (effects_of (onmessage data parsed w)) = [].
Proof.
  unfold onmessage, handleIncomingMessage, handleParsedMessage. go_all.
  destruct parsed as [[|et]|]; go_all; try done.
  destruct (emitEventCallback_shape et w) as [cbs1 ->].
  destruct (emitEventCallback_shape (Some "message") w) as [cbs2 ->].
  go_all. split; [done |].
  change (Emit (RawMessage data) :: ?fx) with ([Emit (RawMessage data)] ++ fx).
  by rewrite !sends_app, !sends_invocations.
Qed.

(** X11. An [error] event of a transport and a message that arrives
    leave the client as it is: whatever the world, the state, the
    timers, the ledger and the transport are unchanged and nothing is
    thrown. An error of the transport publishes at most the one [error]
    event: it closes nothing and schedules no reconnection, which only
    the close of the transport does. A message makes the client send
    nothing. *)
Theorem transport_errors_and_messages_change_nothing
    (w : World) (i : nat) (data : string) (parsed : option Parsed) :
  (world_of (step (SocketErrors i) w) = w /\
   result_of (step (SocketErrors i) w) = Ok tt /\
   (effects_of (step (SocketErrors i) w) = [] \/
    effects_of (step (SocketErrors i) w) = [Emit (ErrorEvent WebSocketError)])) /\
  (world_of (step (SocketMessage i data parsed) w) = w /\
   result_of (step (SocketMessage i data parsed) w) = Ok tt /\
   state_changes (effects_of (step (SocketMessage i data parsed) w)) = [] /\
   sends (effects_of (step (SocketMessage i data parsed) w)) = []).
Proof.
  split; unfold step; rewrite socket_event_run.
  - destruct (sockets w !! i) as [s|]; [| by auto].
    destruct (negb (is_CLOSED (readyState s))); [| by auto].
    destruct (handlers s); by auto.
  - destruct (sockets w !! i) as [s|]; [| by auto].
    destruct (is_OPEN (readyState s)); [| by auto].
    destruct (handlers s); [| by auto].
    destruct (onmessage_shape data parsed w) as [Hw Hfx].
    destruct (onmessage_sends data parsed w) as [Hr Hs].
    done.
Qed.

(** ** The heartbeat *)

Lemma only_heartbeat_cancel (ht k : option nat) (ms0 : Z) (ts : list (option Timer)) :
  only_heartbeat ht ms0 ts -> only_heartbeat ht ms0 (cancel_opt k ts).
Proof. intros H h ms E. apply lookup_cancel_opt in E as [E _]. by apply H. Qed.

Lemma only_heartbeat_snoc (ht : option nat) (ms0 : Z) (ts : list (option Timer)) (t : Timer) :
  only_heartbeat ht ms0 ts -> (forall ms, t <> HeartbeatTimer ms) ->
  only_heartbeat ht ms0 (ts ++ [Some t]).
Proof.
  intros H Ht h ms E. apply lookup_snoc in E as [E | [_ [= E]]]; [by apply H |].
  by destruct (Ht ms).
Qed.

Lemma no_heartbeat_stopped (ht : option nat) (ms0 : Z) (ts : list (option Timer)) :
  only_heartbeat ht ms0 ts -> no_heartbeat (cancel_opt ht ts).
Proof.
  intros H h ms E. apply lookup_cancel_opt in E as [E Hne].
  destruct (H h ms E) as [-> _]. done.
Qed.

Lemma no_heartbeat_cancel (k : option nat) (ts : list (option Timer)) :
  no_heartbeat ts -> no_heartbeat (cancel_opt k ts).
Proof. intros H h ms E. apply lookup_cancel_opt in E as [E _]. by apply (H h ms). Qed.

Lemma no_heartbeat_snoc (ts : list (option Timer)) (t : Timer) :
  no_heartbeat ts -> (forall ms, t <> HeartbeatTimer ms) -> no_heartbeat (ts ++ [Some t]).
Proof.
  intros H Ht h ms E. apply lookup_snoc in E as [E | [_ [= E]]]; [by apply (H h ms) |].
  by destruct (Ht ms).
Qed.

Lemma no_heartbeat_only (ht : option nat) (ms0 : Z) (ts : list (option Timer)) :
  no_heartbeat ts -> only_heartbeat ht ms0 ts.
Proof. intros H h ms E. by destruct (H h ms). Qed.

Lemma only_heartbeat_started (ms0 : Z) (ts : list (option Timer)) :
  no_heartbeat ts -> only_heartbeat (Some (length ts)) ms0 (ts ++ [Some (HeartbeatTimer ms0)]).
Proof.
  intros H h ms E. apply lookup_snoc in E as [E | [-> [= ->]]]; [by destruct (H h ms) | done].
Qed.

Lemma heartbeat_in_step_ext (w w' : World) :
  state w' = state w -> timers w' = timers w -> heartbeatTimer w' = heartbeatTimer w ->
  options w' = options w -> heartbeat_in_step w -> heartbeat_in_step w'.
Proof. unfold heartbeat_in_step. by intros -> -> -> ->. Qed.

Lemma heartbeat_in_step_quiet (w' : World) :
  no_heartbeat (timers w') -> state w' <> connected -> heartbeat_in_step w'.
Proof. intros H Hst. split; [by apply no_heartbeat_only | done]. Qed.

Lemma heartbeat_in_step_connection (w : World) :
  heartbeat_in_step w -> heartbeat_in_step (world_of (createConnection w)).
Proof.
  intros [H1 _]. rewrite createConnection_run.
  destruct (constructorThrows w); (split; [| done]); cbn.
  - by apply only_heartbeat_cancel.
  - by apply only_heartbeat_snoc.
Qed.

Lemma heartbeat_in_step_settle (random : Q) (w : World) :
  no_heartbeat (timers w) -> heartbeat_in_step (world_of (settle random w)).
Proof.
  intros H. rewrite settle_run.
  destruct (negb (isIntentionalClose w) && autoReconnect (options w)).
  - rewrite scheduleReconnect_run. destruct (attempts_exhausted _ _); cbn.
    + by apply heartbeat_in_step_quiet.
    + apply heartbeat_in_step_quiet; [| done]. cbn. by apply no_heartbeat_snoc.
  - by apply heartbeat_in_step_quiet.
Qed.

Lemma heartbeat_in_step_socket (w : World) (f : Socket -> Socket) (i : nat) :
  heartbeat_in_step w -> heartbeat_in_step (set_sockets (alter f i (sockets w)) w).
Proof. by apply heartbeat_in_step_ext. Qed.

Lemma step_heartbeat_in_step (input : Input) (w : World) :
  heartbeat_in_step w -> heartbeat_in_step (world_of (step input w)).
Proof.
  intros Hb. pose proof Hb as [H1 H2]. destruct input; unfold step.
  - (* connect() *)
    rewrite bind_unfold, connect_run.
    destruct (state_eqb (state w) connected || state_eqb (state w) connecting); [done |].
    cbn.
    destruct (createConnection (set_isIntentionalClose false w)) as [[r w'] fx] eqn:E.
    pose proof (heartbeat_in_step_connection (set_isIntentionalClose false w)) as H.
    rewrite E in H. cbn in *. apply H. by apply (heartbeat_in_step_ext w).
  - (* disconnect() *)
    rewrite disconnect_run. apply heartbeat_in_step_quiet; [| done]. cbn.
    apply no_heartbeat_cancel. apply (no_heartbeat_stopped _ (heartbeatInterval (options w))).
    by apply only_heartbeat_cancel.
  - destruct (subscribe_shape arg w) as (l & -> & _). by apply (heartbeat_in_step_ext w).
  - destruct (unsubscribe_shape arg w) as (l & -> & _). by apply (heartbeat_in_step_ext w).
  - destruct (addEventCallback_run event callback w) as [cbs ->].
    by apply (heartbeat_in_step_ext w).
  - destruct (removeEventCallback_run event callback w) as [cbs ->].
    by apply (heartbeat_in_step_ext w).
  - (* the caller changes the credentials object *)
    unfold auth_changes. rewrite modify_run. cbn.
    destruct (channel w); [done |]. by apply (heartbeat_in_step_ext w).
  - (* a timer fires *)
    rewrite fire_run.
    destruct (timers w !! h) as [[[p ms | d | ms]|]|] eqn:Hh; try done.
    + rewrite connection_timeout_run. cbn.
      assert (heartbeat_in_step (set_timers (<[h := None]> (timers w)) w)) as Hb'.
      { split; cbn; [by apply (only_heartbeat_cancel _ (Some h)) |].
        intros Hst. destruct (H2 Hst) as (h0 & Hh0 & Ht0). exists h0. split; [done |].
        rewrite list_lookup_insert_ne; [done |]. intros ->. congruence. }
      destruct (ws w); [| done].
      by apply (heartbeat_in_step_socket (set_timers (<[h := None]> (timers w)) w) closing).
    + cbn. apply heartbeat_in_step_connection. split; cbn.
      * by apply (only_heartbeat_cancel _ (Some h)).
      * intros Hst. destruct (H2 Hst) as (h0 & Hh0 & Ht0). exists h0. split; [done |].
        rewrite list_lookup_insert_ne; [done |]. intros ->. congruence.
    + destruct (state_eqb (state w) connected); [| done]. by destruct (ws w).
  - (* a socket opens *)
    rewrite socket_event_run.
    destruct (sockets w !! i) as [s|]; [| done].
    destruct (is_CONNECTING (readyState s)); [| done].
    cbn. destruct (handlers s) as [p|]; [| by apply heartbeat_in_step_socket].
    rewrite (proj1 (onopen_shape p _)). unfold opened. cbn.
    set (ts := cancel_opt (heartbeatTimer w) (cancel_opt (connectionTimer w) (timers w))).
    assert (no_heartbeat ts) as Hno.
    { apply (no_heartbeat_stopped _ (heartbeatInterval (options w))).
      by apply only_heartbeat_cancel. }
    split; cbn.
    + by apply only_heartbeat_started.
    + intros _. eexists. split; [done |]. apply lookup_last.
  - (* a socket closes *)
    rewrite socket_event_run.
    destruct (sockets w !! i) as [s|]; [| done].
    destruct (negb (is_CLOSED (readyState s))); [| done].
    cbn. destruct (handlers s) as [p|]; [| by apply heartbeat_in_step_socket].
    rewrite onclose_run. cbn. apply heartbeat_in_step_settle. unfold closed. cbn.
    apply (no_heartbeat_stopped _ (heartbeatInterval (options w))).
    by apply only_heartbeat_cancel.
  - (* a socket signals an error *)
    rewrite socket_event_run.
    destruct (sockets w !! i) as [s|]; [| done].
    destruct (negb (is_CLOSED (readyState s))); [| done].
    cbn. by destruct (handlers s).
  - (* a message arrives *)
    rewrite socket_event_run.
    destruct (sockets w !! i) as [s|]; [| done].
    destruct (is_OPEN (readyState s)); [| done].
    cbn. destruct (handlers s); [| done].
    by rewrite (proj1 (onmessage_shape data parsed w)).
Qed.

Lemma run_heartbeat_in_step (inputs : list Input) (w : World) :
  heartbeat_in_step w -> heartbeat_in_step (fst (run inputs w)).
Proof.
  revert w. induction inputs as [|input rest IH]; intros w H; cbn; [done |].
  apply IH. by apply step_heartbeat_in_step.
Qed.

(** X12. In every history of a client, with any calls in any order,
    at most one heartbeat interval is pending, the one whose handle the
    client holds, and it runs with [heartbeatInterval]; while the state
    is [connected] it is pending. ([startHeartbeat] clears the interval
    it replaces, which the other two timers of the client are not.) *)
Theorem one_heartbeat_at_a_time
    (ch : Channel) (o : ClobClientOptions) (throws : bool) (inputs : list Input) :
  let w := fst (run inputs (new_client ch o throws)) in
  (forall h ms, timers w !! h = Some (Some (HeartbeatTimer ms)) ->
     heartbeatTimer w = Some h /\ ms = heartbeatInterval (options w)) /\
  (state w = connected ->
     exists h, heartbeatTimer w = Some h /\
               timers w !! h = Some (Some (HeartbeatTimer (heartbeatInterval (options w))))).
Proof.
  apply run_heartbeat_in_step. split; cbn; [| done].
  intros h ms H. by rewrite lookup_nil in H.
Qed.

(** X13. In a history where [connect()] was not called while a
    reconnection was pending, a heartbeat interval is pending only while
    the client is connected, and when it fires the text [ping] is handed
    to the client's transport, which is open, and nothing else happens. *)
Theorem heartbeat_pings_the_open_transport (w : World) (h : nat) (ms : Z) :
  reachable w -> timers w !! h = Some (Some (HeartbeatTimer ms)) ->
  state w = connected /\
  exists i s, ws w = Some i /\ sockets w !! i = Some s /\ readyState s = OPEN /\
              step (TimerFires h) w = (Ok tt, w, [WsSend i "ping"]).
Proof.
  intros Hr Hh. pose proof (reachable_consistent w Hr) as Hc.
  destruct (heartbeat_timer_is_held w Hc h ms Hh) as [_ Hst].
  split; [done |].
  destruct (connected_has_socket w Hc Hst) as (i & s & Hws & Hi & _ & Hs).
  exists i, s. do 3 (split; [done |]).
  unfold step. rewrite fire_run, Hh, Hst, Hws. cbn.
  by destruct (taken_open i "ping" w s Hi Hs) as [_ ->].
Qed.

Lemma heartbeat_pings_witness :
  let w := fst (run [CallConnect; SocketOpens 0] market0) in
  state w = connected /\
  exists i s, ws w = Some i /\ sockets w !! i = Some s /\ readyState s = OPEN /\
              step (TimerFires 1) w = (Ok tt, w, [WsSend i "ping"]).
Proof.
  assert (reachable (fst (run [CallConnect; SocketOpens 0] market0))) as Hr.
  { apply (reachable_step _ (SocketOpens 0)); [| done].
    apply (reachable_step _ CallConnect); [| done].
    apply reachable_new. }
  assert (timers (fst (run [CallConnect; SocketOpens 0] market0)) !! 1%nat
          = Some (Some (HeartbeatTimer 30000))) as Hh.
  { vm_compute. reflexivity. }
  exact (heartbeat_pings_the_open_transport _ 1 30000 Hr Hh).
Defined.

Lemma reachable_heartbeat_in_step (w : World) : reachable w -> heartbeat_in_step w.
Proof.
  induction 1 as [ch o throws | w input _ IH _].
  - split; cbn; [| done]. intros h ms H. by rewrite lookup_nil in H.
  - by apply step_heartbeat_in_step.
Qed.

(** X14. In a history where [connect()] was not called while a
    reconnection was pending, the only timer that is pending while the
    client is connected is its heartbeat, with the interval of the
    options: the connection timeout was cleared when the transport
    opened and no reconnection is scheduled, so a connection that is
    open is never timed out. *)
Theorem a_connected_client_holds_only_its_heartbeat (w : World) (h : nat) (t : Timer) :
  reachable w -> state w = connected -> timers w !! h = Some (Some t) ->
  heartbeatTimer w = Some h /\ t = HeartbeatTimer (heartbeatInterval (options w)).
Proof.
  intros Hr Hst Hh. pose proof (reachable_consistent w Hr) as Hc.
  destruct t as [p ms | d | ms].
  - destruct (connection_timer_is_held w Hc h p ms Hh) as (_ & j & s & Hws & Hj & _ & Hs).
    destruct (connected_has_socket w Hc Hst) as (j' & s' & Hws' & Hj' & _ & Hs').
    congruence.
  - destruct (reconnect_timer_is_held w Hc h d Hh) as [_ H]. congruence.
  - destruct (reachable_heartbeat_in_step w Hr) as [H _].
    destruct (H h ms Hh) as [H1 ->]. done.
Qed.

Lemma a_connected_client_witness :
  let w := fst (run [CallConnect; SocketOpens 0] market0) in
  heartbeatTimer w = Some 1%nat /\
  HeartbeatTimer 30000 = HeartbeatTimer (heartbeatInterval (options w)).
Proof.
  assert (reachable (fst (run [CallConnect; SocketOpens 0] market0))) as Hr.
  { apply (reachable_step _ (SocketOpens 0)); [| done].
    apply (reachable_step _ CallConnect); [| done].
    apply reachable_new. }
  assert (state (fst (run [CallConnect; SocketOpens 0] market0)) = connected) as Hst.
  { vm_compute. reflexivity. }
  assert (timers (fst (run [CallConnect; SocketOpens 0] market0)) !! 1%nat
          = Some (Some (HeartbeatTimer 30000))) as Hh.
  { vm_compute. reflexivity. }
  exact (a_connected_client_holds_only_its_heartbeat _ 1 (HeartbeatTimer 30000) Hr Hst Hh).
Defined.

(** ** What a method never does, what it keeps *)

Lemma never_bind (P : Effect -> bool) {A B} (m : Run A) (f : A -> Run B) :
  never P m -> (forall a, never P (f a)) -> never P (m ≫= f).
Proof.
  intros Hm Hf w. rewrite bind_unfold. specialize (Hm w).
  destruct (m w) as [[[a|e] w1] fx1]; cbn in *; [| done].
  specialize (Hf a w1). destruct (f a w1) as [[r w2] fx2]; cbn in *.
  by apply Forall_app.
Qed.

Lemma never_try_catch (P : Effect -> bool) {A} (m : Run A) (h : Error -> Run A) :
  never P m -> (forall e, never P (h e)) -> never P (try_catch m h).
Proof.
  intros Hm Hh w. rewrite try_catch_unfold. specialize (Hm w).
  destruct (m w) as [[[a|e] w1] fx1]; cbn in *; [done |].
  specialize (Hh e w1). destruct (h e w1) as [[r w2] fx2]; cbn in *.
  by apply Forall_app.
Qed.

Lemma never_ret (P : Effect -> bool) {A} (a : A) : never P (mret a : Run A).
Proof. intros w. apply Forall_nil_2. Qed.

Lemma never_skip (P : Effect -> bool) : never P skip.
Proof. intros w. apply Forall_nil_2. Qed.

Lemma never_get (P : Effect -> bool) : never P get.
Proof. intros w. apply Forall_nil_2. Qed.

Lemma never_throw (P : Effect -> bool) {A} (e : Error) : never P (@throw A e).
Proof. intros w. apply Forall_nil_2. Qed.

Lemma never_modify (P : Effect -> bool) (f : World -> World) : never P (modify f).
Proof. intros w. apply Forall_nil_2. Qed.

Lemma never_arm (P : Effect -> bool) (t : Timer) : never P (arm t).
Proof. intros w. apply Forall_nil_2. Qed.

Lemma never_new_promise (P : Effect -> bool) : never P new_promise.
Proof. intros w. apply Forall_nil_2. Qed.

Lemma never_tell (P : Effect -> bool) (e : Effect) : P e = false -> never P (tell e).
Proof. intros H w. by apply Forall_singleton. Qed.

Lemma never_new_WebSocket (P : Effect -> bool) (u : string) :
  (forall i, P (WsNew i u) = false) -> never P (new_WebSocket u).
Proof.
  intros H w. unfold new_WebSocket. destruct (constructorThrows w); cbn.
  - apply Forall_nil_2.
  - by apply Forall_singleton.
Qed.

Lemma never_setState (P : Effect -> bool) (s : ConnectionState) :
  (forall a b, P (Emit (StateChange a b)) = false) -> never P (setState s).
Proof.
  intros H w. rewrite setState_run. unfold state_change, effects_of. cbn.
  destruct (state_eqb (state w) s); [apply Forall_nil_2 | by apply Forall_singleton].
Qed.

Lemma never_emitEventCallback (P : Effect -> bool) (event : option string) :
  (forall c, P (Invoke c) = false) -> never P (emitEventCallback event).
Proof.
  intros H w. destruct (emitEventCallback_shape event w) as [cbs ->]. cbn.
  induction cbs as [|c cbs IH]; cbn; [apply Forall_nil_2 | by apply Forall_cons].
Qed.

(** Decompose a method into its statements. *)
Ltac quieten :=
  repeat first
    [ apply never_setState; reflexivity
    | apply never_bind; [| intros ?]
    | apply never_try_catch; [| intros ?]
    | apply never_ret
    | apply never_skip
    | apply never_get
    | apply never_throw
    | apply never_arm
    | apply never_new_promise
    | apply never_modify
    | apply never_new_WebSocket; reflexivity
    | apply never_emitEventCallback; reflexivity
    | apply never_tell; reflexivity
    | match goal with
      | |- never _ (match ?x with _ => _ end) => destruct x
      end ].

Lemma keeps_bind {X} (g : World -> X) {A B} (m : Run A) (f : A -> Run B) :
  keeps g m -> (forall a, keeps g (f a)) -> keeps g (m ≫= f).
Proof.
  intros Hm Hf w. rewrite bind_unfold. specialize (Hm w).
  destruct (m w) as [[[a|e] w1] fx1]; cbn in *; [| done].
  specialize (Hf a w1). destruct (f a w1) as [[r w2] fx2]; cbn in *. congruence.
Qed.

Lemma keeps_try_catch {X} (g : World -> X) {A} (m : Run A) (h : Error -> Run A) :
  keeps g m -> (forall e, keeps g (h e)) -> keeps g (try_catch m h).
Proof.
  intros Hm Hh w. rewrite try_catch_unfold. specialize (Hm w).
  destruct (m w) as [[[a|e] w1] fx1]; cbn in *; [done |].
  specialize (Hh e w1). destruct (h e w1) as [[r w2] fx2]; cbn in *. congruence.
Qed.

Lemma keeps_ret {X} (g : World -> X) {A} (a : A) : keeps g (mret a : Run A).
Proof. by intros w. Qed.

Lemma keeps_skip {X} (g : World -> X) : keeps g skip.
Proof. by intros w. Qed.

Lemma keeps_get {X} (g : World -> X) : keeps g get.
Proof. by intros w. Qed.

Lemma keeps_throw {X} (g : World -> X) {A} (e : Error) : keeps g (@throw A e).
Proof. by intros w. Qed.

Lemma keeps_tell {X} (g : World -> X) (e : Effect) : keeps g (tell e).
Proof. by intros w. Qed.

Lemma keeps_modify {X} (g : World -> X) (f : World -> World) :
  (forall w, g (f w) = g w) -> keeps g (modify f).
Proof. intros H w. apply H. Qed.

Lemma keeps_arm {X} (g : World -> X) (t : Timer) :
  (forall ts w, g (set_timers ts w) = g w) -> keeps g (arm t).
Proof. intros H w. apply H. Qed.

Lemma keeps_new_promise {X} (g : World -> X) :
  (forall n w, g (set_promises n w) = g w) -> keeps g new_promise.
Proof. intros H w. apply H. Qed.

Lemma keeps_new_WebSocket {X} (g : World -> X) (u : string) :
  (forall ss w, g (set_sockets ss w) = g w) -> keeps g (new_WebSocket u).
Proof.
  intros H w. unfold new_WebSocket. destruct (constructorThrows w); [done | apply H].
Qed.

Lemma keeps_emitEventCallback {X} (g : World -> X) (event : option string) :
  keeps g (emitEventCallback event).
Proof. intros w. by destruct (emitEventCallback_shape event w) as [cbs ->]. Qed.

(** Decompose a method into its statements; the assignments are to
    other fields. *)
Ltac keep :=
  repeat first
    [ apply keeps_bind; [| intros ?]
    | apply keeps_try_catch; [| intros ?]
    | apply keeps_ret
    | apply keeps_skip
    | apply keeps_get
    | apply keeps_throw
    | apply keeps_tell
    | apply keeps_emitEventCallback
    | apply keeps_arm; intros ? []; reflexivity
    | apply keeps_new_promise; intros ? []; reflexivity
    | apply keeps_new_WebSocket; intros ? []; reflexivity
    | apply keeps_modify; intros []; cbn; repeat case_match; reflexivity
    | match goal with
      | |- keeps _ (match ?x with _ => _ end) => destruct x
      end ].

Lemma step_keeps_options (input : Input) : keeps options (step input).
Proof. destruct input; unfold_methods_only; unfold setState; keep. Qed.

(** ** The attempts of a reconnection *)

Lemma never_reconnecting_unless_closed (input : Input) :
  (forall i code reason random, input <> SocketCloses i code reason random) ->
  never is_reconnecting (step input).
Proof.
  intros H. destruct input; try (by destruct (H i code reason random));
    unfold_methods_only; quieten.
Qed.

Lemma announces_within_quiet (o : Options) (fx : list Effect) :
  Forall (fun e => is_reconnecting e = false) fx -> Forall (announces_within o) fx.
Proof.
  intros H. eapply Forall_impl; [exact H |].
  intros [[| | | | |]| | | | | |]; cbn; done.
Qed.

Lemma state_change_announces (o : Options) (a b : ConnectionState) :
  Forall (announces_within o) (state_change a b).
Proof.
  unfold state_change. destruct (state_eqb a b); [apply Forall_nil_2 |].
  by apply Forall_singleton.
Qed.

Lemma step_announces_within (input : Input) (w : World) :
  Forall (announces_within (options w)) (effects_of (step input w)).
Proof.
  destruct input;
    try (apply announces_within_quiet, never_reconnecting_unless_closed; done).
  unfold step. rewrite socket_event_run.
  destruct (sockets w !! i) as [s|]; [| apply Forall_nil_2].
  destruct (negb (is_CLOSED (readyState s))); [| apply Forall_nil_2].
  cbn. destruct (handlers s) as [p|]; [| apply Forall_nil_2].
  rewrite onclose_run. cbn. apply Forall_cons. split; [done |].
  rewrite settle_run. cbn.
  destruct (negb (isIntentionalClose w) && autoReconnect (options w)).
  - rewrite scheduleReconnect_run. cbn.
    destruct (attempts_exhausted _ _) eqn:E; cbn.
    + apply Forall_app. split; [apply state_change_announces | by apply Forall_singleton].
    + apply Forall_app. split; [apply state_change_announces |].
      apply Forall_singleton. cbn. split; [done |]. split; [lia |].
      unfold attempts_exhausted in E.
      destruct (maxReconnectAttempts (options w)) as [m|]; [| done].
      apply Nat.leb_gt in E. lia.
  - cbn. apply state_change_announces.
Qed.

(** X15. In every history of a client, each [reconnecting] event
    announces the maximum of the options and an attempt that is at least
    1 and, when the maximum is a number, at most that number: once the
    attempts are used up no further reconnection is announced. With a
    maximum of 0 the client never announces a reconnection. *)
Theorem reconnect_attempts_stay_within_the_maximum
    (ch : Channel) (o : ClobClientOptions) (throws : bool) (inputs : list Input) :
  let w0 := new_client ch o throws in
  Forall (announces_within (options w0)) (snd (run inputs w0)) /\
  (maxReconnectAttempts (options w0) = Some 0%nat ->
   Forall (fun e => is_reconnecting e = false) (snd (run inputs w0))).
Proof.
  intros w0.
  assert (forall w, Forall (announces_within (options w)) (snd (run inputs w))) as H.
  { induction inputs as [|input rest IH]; intros w; cbn; [apply Forall_nil_2 |].
    apply Forall_app. split; [apply step_announces_within |].
    rewrite <- (step_keeps_options input w). apply IH. }
  split; [apply H |].
  intros Hmax. eapply Forall_impl; [apply (H w0) |].
  intros e He. destruct e as [[| |n mx| | |]| | | | | |]; try done.
  destruct He as (Hm & H1 & H2). rewrite Hm, Hmax in H2. lia.
Qed.

(** X16. A connection that opens resets the backoff, in every world:
    when the transport of the client opens, the counter of attempts is
    0 again, and if that transport closes after that, with
    [autoReconnect] on, a maximum that is not 0, and no [disconnect()],
    the reconnection that is announced is attempt 1 and its timer runs
    with the delay of a first attempt. *)
Theorem an_open_connection_resets_the_backoff
    (w : World) (j : nat) (s : Socket) (p : nat) (code : Z) (reason : string) (random : Q) :
  sockets w !! j = Some s -> readyState s = CONNECTING -> handlers s = Some p ->
  isIntentionalClose w = false -> autoReconnect (options w) = true ->
  maxReconnectAttempts (options w) <> Some 0%nat ->
  let w1 := world_of (step (SocketOpens j) w) in
  let r := step (SocketCloses j code reason random) w1 in
  reconnectAttempts w1 = 0%nat /\
  Emit (Reconnecting 1 (maxReconnectAttempts (options w))) ∈ effects_of r /\
  state (world_of r) = reconnecting /\
  exists h, reconnectTimer (world_of r) = Some h /\
            timers (world_of r) !! h
            = Some (Some (ReconnectTimer (reconnect_delay (options w) 1 random))).
Proof.
  intros Hj Hs Hp Hi Ha Hm w1 r.
  assert (w1 = opened (set_sockets (alter (set_readyState OPEN) j (sockets w)) w)) as Hw1.
  { unfold w1, step. rewrite socket_event_run, Hj, Hs. cbn. rewrite Hp.
    apply onopen_shape. }
  assert (attempts_exhausted 0 (maxReconnectAttempts (options w)) = false) as Hex.
  { unfold attempts_exhausted. destruct (maxReconnectAttempts (options w)) as [[|m]|]; done. }
  assert (r = (Ok tt, with_reconnect_scheduled random (closed
                 (set_sockets (alter (set_readyState CLOSED) j (sockets w1)) w1)),
               Emit (Disconnected code reason)
                 :: state_change connected reconnecting
                 ++ [Emit (Reconnecting 1 (maxReconnectAttempts (options w)))])) as ->.
  { unfold r, step. rewrite socket_event_run.
    assert (sockets w1 !! j = Some (set_readyState OPEN s)) as ->.
    { rewrite Hw1. cbn. by rewrite list_lookup_alter_eq, Hj. }
    cbn. rewrite Hp, onclose_run, settle_run.
    rewrite Hw1. cbn. rewrite Hi, Ha. cbn.
    rewrite scheduleReconnect_run. cbn. by rewrite Hex. }
  unfold world_of, effects_of. cbn [fst snd].
  split; [by rewrite Hw1 |]. split; [| split; [done |]].
  - right. apply elem_of_app. right. left.
  - eexists. split; [reflexivity |]. cbn. rewrite lookup_last.
    by rewrite Hw1.
Qed.

Lemma an_open_connection_witness :
  let w := fst (run [CallConnect; SocketOpens 0; SocketCloses 0 1006 "" 0;
                     SocketCloses 0 1006 "" 0; TimerFires 2] market0) in
  let w1 := world_of (step (SocketOpens 1) w) in
  reconnectAttempts w = 1%nat /\ reconnectAttempts w1 = 0%nat /\
  Emit (Reconnecting 1 None) ∈ effects_of (step (SocketCloses 1 1006 "" 0) w1).
Proof.
  assert (reconnectAttempts
            (fst (run [CallConnect; SocketOpens 0; SocketCloses 0 1006 "" 0;
                       SocketCloses 0 1006 "" 0; TimerFires 2] market0)) = 1%nat) as H0
    by (vm_compute; reflexivity).
  pose proof (an_open_connection_resets_the_backoff
                (fst (run [CallConnect; SocketOpens 0; SocketCloses 0 1006 "" 0;
                           SocketCloses 0 1006 "" 0; TimerFires 2] market0))
                1 {| sock_url := DEFAULT_CLOB_WSS_URL; readyState := CONNECTING;
                     handlers := Some 1%nat |} 1 1006 "" 0) as H.
  destruct H as (H1 & H2 & _); try (vm_compute; reflexivity); [discriminate |].
  exact (conj H0 (conj H1 H2)).
Defined.

(** ** subscribe and unsubscribe *)

Lemma send_keeps_world (data : Json) (w : World) : world_of (send data w) = w.
Proof.
  rewrite send_run. destruct (ws w); [| done]. by destruct (state_eqb _ _).
Qed.

Lemma subscribe_checked (arg : JsArg) (w : World) :
  subscribe arg w =
    match arg with
    | NotArray => (Thrown (TypeError (not_array_message (channel w))), w, [])
    | Arr items =>
        match checked_ids items with
        | Some ids => subscribe_ids ids w
        | None => (Thrown (TypeError (bad_id_message (channel w))), w, [])
        end
    end.
Proof.
  unfold subscribe, subscribe_ids, validate, sendSubscription, sendFullSubscription. go.
  destruct arg as [|items]; go; [done |].
  destruct (checked_ids items) as [ids|]; go; [| done].
  destruct (filter _ ids) as [|id fresh] eqn:E; go; [done |].
  destruct (isConnected w) eqn:Hc; unfold isConnected in *; cbn; rewrite Hc; go; [| done].
  destruct (channel w); go.
  - by destruct (send _ _) as [[? ?] ?].
  - by destruct (send _ _) as [[? ?] ?].
Qed.

Lemma unsubscribe_checked (arg : JsArg) (w : World) :
  unsubscribe arg w =
    match arg with
    | NotArray => (Thrown (TypeError (not_array_message (channel w))), w, [])
    | Arr items =>
        match checked_ids items with
        | Some ids => unsubscribe_ids ids w
        | None => (Thrown (TypeError (bad_id_message (channel w))), w, [])
        end
    end.
Proof.
  unfold unsubscribe, unsubscribe_ids, validate, sendUnsubscription, sendFullSubscription. go.
  destruct arg as [|items]; go; [done |].
  destruct (checked_ids items) as [ids|]; go; [| done].
  destruct (channel w); go.
  - destruct (filter _ ids) as [|id existing] eqn:E; go; [done |].
    destruct (isConnected w) eqn:Hc; unfold isConnected in *; cbn; rewrite Hc; go; [| done].
    by destruct (send _ _) as [[? ?] ?].
  - destruct (isConnected w) eqn:Hc; unfold isConnected in *; cbn; rewrite Hc; go; [| done].
    by destruct (send _ _) as [[? ?] ?].
Qed.

Lemma elem_of_JsSet_add (x y : string) (s : list string) :
  y ∈ JsSet.add x s <-> y ∈ s \/ y = x.
Proof.
  unfold JsSet.add. destruct (JsSet.has x s) eqn:E.
  - apply JsSet_has_true in E. split; [auto |]. by intros [H | ->].
  - rewrite elem_of_app, list_elem_of_singleton. done.
Qed.

Lemma elem_of_foldl_add (ids s : list string) (y : string) :
  y ∈ foldl (fun s id => JsSet.add id s) s ids <-> y ∈ s \/ y ∈ ids.
Proof.
  revert s. induction ids as [|id ids IH]; intros s; cbn.
  - split; [auto |]. intros [H | H]; [done |]. by apply not_elem_of_nil in H.
  - rewrite IH, elem_of_JsSet_add, elem_of_cons. tauto.
Qed.

Lemma foldl_add_extends (ids s : list string) :
  exists new, foldl (fun s id => JsSet.add id s) s ids = s ++ new /\
              forall y, y ∈ new -> y ∈ ids.
Proof.
  revert s. induction ids as [|id ids IH]; intros s; cbn.
  - exists []. by rewrite app_nil_r.
  - destruct (IH (JsSet.add id s)) as (new & -> & Hnew).
    unfold JsSet.add. destruct (JsSet.has id s).
    + exists new. split; [done |]. intros y Hy. right. auto.
    + exists (id :: new). rewrite <- app_assoc. split; [done |].
      intros y [-> | Hy]%elem_of_cons; [left | right; auto].
Qed.

Lemma foldl_delete_filter (ids s : list string) :
  foldl (fun s id => JsSet.delete id s) s ids = filter (fun x => x ∉ ids) s.
Proof.
  revert s. induction ids as [|id ids IH]; intros s; cbn.
  - symmetry. induction s as [|x s IHs]; [done |].
    rewrite filter_cons_True by apply not_elem_of_nil. by rewrite IHs.
  - rewrite IH. unfold JsSet.delete. clear IH.
    induction s as [|x s IHs]; [done |].
    rewrite !filter_cons. destruct (decide (x <> id)) as [Hne | Heq].
    + rewrite filter_cons. destruct (decide (x ∉ ids)) as [Hx | Hx].
      * rewrite decide_True; [by rewrite IHs |].
        rewrite not_elem_of_cons. done.
      * rewrite decide_False; [done |]. rewrite not_elem_of_cons. tauto.
    + apply dec_stable in Heq. subst x.
      rewrite decide_False; [done |]. rewrite not_elem_of_cons. tauto.
Qed.

Lemma filter_iff_in (P Q : string -> Prop) `{!forall x, Decision (P x)}
    `{!forall x, Decision (Q x)} (s : list string) :
  (forall x, x ∈ s -> (P x <-> Q x)) -> filter P s = filter Q s.
Proof.
  induction s as [|x s IH]; intros Hpq; [done |].
  rewrite !filter_cons. rewrite IH by (intros y Hy; apply Hpq; by right).
  destruct (decide (P x)) as [HP | HP], (decide (Q x)) as [HQ | HQ]; try done.
  - destruct HQ. apply Hpq; [left | done].
  - destruct HP. apply Hpq; [left | done].
Qed.

(** Deleting the ids that are in the set, as [ClobMarketClient] does,
    or all the ids, as [ClobUserClient] does, leaves the same set. *)
Lemma foldl_delete_existing (ids s : list string) :
  foldl (fun s id => JsSet.delete id s) s (filter (fun id => JsSet.has id s = true) ids)
  = filter (fun x => x ∉ ids) s.
Proof.
  rewrite foldl_delete_filter. apply filter_iff_in. intros x Hx.
  rewrite list_elem_of_filter, JsSet_has_true. tauto.
Qed.

Lemma subscribe_ids_ledger (ids : list string) (w : World) :
  ledger (world_of (subscribe_ids ids w))
  = foldl (fun s id => JsSet.add id s) (ledger w)
      (filter (fun id => JsSet.has id (ledger w) = false) ids).
Proof.
  unfold subscribe_ids. destruct (filter _ ids) as [|id fresh]; [done |].
  destruct (isConnected w); [| done].
  destruct (channel w); by rewrite send_keeps_world.
Qed.

Lemma unsubscribe_ids_ledger (ids : list string) (w : World) :
  ledger (world_of (unsubscribe_ids ids w)) = filter (fun x => x ∉ ids) (ledger w).
Proof.
  unfold unsubscribe_ids. destruct (channel w).
  - pose proof (foldl_delete_existing ids (ledger w)) as H.
    destruct (filter _ ids) as [|id existing]; [done |].
    destruct (isConnected w); [by rewrite send_keeps_world |]. done.
  - destruct (isConnected w); [rewrite send_keeps_world |]; cbn; apply foldl_delete_filter.
Qed.

Lemma subscribed_after_subscribe (w : World) (ids : list string) :
  well_formed ids ->
  exists new,
    ledger (world_of (subscribe (Arr (map Str ids)) w)) = ledger w ++ new /\
    (forall id, id ∈ new -> id ∈ ids) /\
    (forall id, id ∈ ledger w ++ new <-> id ∈ ledger w \/ id ∈ ids).
Proof.
  intros Hok.
  rewrite subscribe_checked, (checked_ids_strings ids Hok), subscribe_ids_ledger.
  pose proof (elem_of_foldl_add (filter (fun id => JsSet.has id (ledger w) = false) ids)
                (ledger w)) as Hin.
  destruct (foldl_add_extends (filter (fun id => JsSet.has id (ledger w) = false) ids)
              (ledger w)) as (new & Hnew & Hsub).
  rewrite Hnew in *. exists new. split; [done |]. split.
  - intros id Hid. apply Hsub in Hid. by apply list_elem_of_filter in Hid as [_ Hid].
  - intros id. rewrite Hin, list_elem_of_filter, JsSet_has_false.
    destruct (decide (id ∈ ledger w)); tauto.
Qed.

Lemma subscribed_after_unsubscribe (w : World) (ids : list string) :
  well_formed ids ->
  ledger (world_of (unsubscribe (Arr (map Str ids)) w)) = filter (fun id => id ∉ ids) (ledger w).
Proof.
  intros Hok.
  by rewrite unsubscribe_checked, (checked_ids_strings ids Hok), unsubscribe_ids_ledger.
Qed.

(** X17. [subscribe] with an array of non-blank strings records every
    id of the array: afterwards the subscribed ids are the ones from
    before, in their order, followed by the new ones, each once. This
    whatever the state of the connection: the ids are recorded before
    anything is sent. *)
Theorem subscribe_records_every_id (w : World) (ids : list string) :
  well_formed ids ->
  let w1 := world_of (subscribe (Arr (map Str ids)) w) in
  (forall id, id ∈ getSubscribed w1 <-> id ∈ getSubscribed w \/ id ∈ ids) /\
  (exists new, getSubscribed w1 = getSubscribed w ++ new /\ forall id, id ∈ new -> id ∈ ids) /\
  (NoDup (getSubscribed w) -> NoDup (getSubscribed w1)).
Proof.
  intros Hok w1. unfold w1, getSubscribed.
  destruct (subscribed_after_subscribe w ids Hok) as (new & Hnew & Hsub & Hin).
  split; [| split].
  - intros id. rewrite Hnew. apply Hin.
  - by exists new.
  - rewrite subscribe_checked, (checked_ids_strings ids Hok), subscribe_ids_ledger.
    apply foldl_add_NoDup.
Qed.

Lemma subscribe_records_every_id_witness :
  exists new,
    getSubscribed (world_of (subscribe (Arr (map Str ["a"; "b"; "a"])) market0))
      = getSubscribed market0 ++ new /\
    forall id, id ∈ new -> id ∈ ["a"; "b"; "a"].
Proof.
  assert (well_formed ["a"; "b"; "a"]) as Hok by (repeat constructor).
  exact (proj1 (proj2 (subscribe_records_every_id market0 ["a"; "b"; "a"] Hok))).
Defined.

(** X18. [unsubscribe] with an array of non-blank strings forgets
    every id of the array and keeps the others in their order, in both
    channels, whatever the state of the connection. (The market channel
    deletes the ids that it has, the user channel deletes them all: the
    set that is left is the same.) *)
Theorem unsubscribe_forgets_every_id (w : World) (ids : list string) :
  well_formed ids ->
  let w1 := world_of (unsubscribe (Arr (map Str ids)) w) in
  getSubscribed w1 = filter (fun id => id ∉ ids) (getSubscribed w) /\
  (forall id, id ∈ ids -> id ∉ getSubscribed w1).
Proof.
  intros Hok w1.
  assert (getSubscribed w1 = filter (fun id => id ∉ ids) (getSubscribed w)) as H.
  { by apply subscribed_after_unsubscribe. }
  split; [done |]. intros id Hid. rewrite H, list_elem_of_filter. tauto.
Qed.

Lemma unsubscribe_forgets_every_id_witness :
  getSubscribed (world_of (unsubscribe (Arr (map Str ["b"]))
                             (set_ledger ["a"; "b"; "c"] market0)))
  = filter (fun id => id ∉ ["b"]) (getSubscribed (set_ledger ["a"; "b"; "c"] market0)).
Proof.
  assert (well_formed ["b"]) as Hok by (repeat constructor).
  exact (proj1 (unsubscribe_forgets_every_id (set_ledger ["a"; "b"; "c"] market0) ["b"] Hok)).
Defined.

Lemma filter_none (P : string -> Prop) `{!forall x, Decision (P x)} (l : list string) :
  (forall x, x ∈ l -> ~ P x) -> filter P l = [].
Proof.
  induction l as [|x l IH]; intros Hl; [done |].
  rewrite filter_cons_False by (apply Hl; left). apply IH. intros y Hy. apply Hl. by right.
Qed.

Lemma filter_all (P : string -> Prop) `{!forall x, Decision (P x)} (l : list string) :
  (forall x, x ∈ l -> P x) -> filter P l = l.
Proof.
  induction l as [|x l IH]; intros Hl; [done |].
  rewrite filter_cons_True by (apply Hl; left). rewrite IH; [done |].
  intros y Hy. apply Hl. by right.
Qed.

(** X19. Subscribing ids that were not subscribed and unsubscribing
    them again gives back the subscribed ids as they were, in their
    order. *)
Theorem unsubscribe_undoes_subscribe (w : World) (ids : list string) :
  well_formed ids -> (forall id, id ∈ ids -> id ∉ getSubscribed w) ->
  let w1 := world_of (subscribe (Arr (map Str ids)) w) in
  let w2 := world_of (unsubscribe (Arr (map Str ids)) w1) in
  getSubscribed w2 = getSubscribed w.
Proof.
  intros Hok Hnew w1 w2.
  destruct (subscribed_after_subscribe w ids Hok) as (new & H1 & Hin & _).
  unfold w2, getSubscribed. rewrite (subscribed_after_unsubscribe w1 ids Hok).
  fold w1 in H1. rewrite H1, filter_app.
  rewrite (filter_none _ new) by (intros x Hx Hn; apply Hn, Hin, Hx).
  rewrite app_nil_r. apply filter_all. intros x Hx Hids. by apply (Hnew x Hids).
Qed.

Lemma unsubscribe_undoes_subscribe_witness :
  getSubscribed
    (world_of (unsubscribe (Arr (map Str ["b"; "c"]))
                 (world_of (subscribe (Arr (map Str ["b"; "c"])) (set_ledger ["a"] user0)))))
  = getSubscribed (set_ledger ["a"] user0).
Proof.
  assert (well_formed ["b"; "c"]) as Hok by (repeat constructor).
  assert (forall id, id ∈ ["b"; "c"] -> id ∉ getSubscribed (set_ledger ["a"] user0)) as Hnew.
  { intros id Hid Ha. apply list_elem_of_singleton in Ha. subst.
    apply elem_of_cons in Hid as [Hid | Hid]; [discriminate |].
    apply list_elem_of_singleton in Hid. discriminate. }
  exact (unsubscribe_undoes_subscribe (set_ledger ["a"] user0) ["b"; "c"] Hok Hnew).
Defined.

(** X20. While the client is not connected, [subscribe] and
    [unsubscribe] hand nothing to a transport and publish nothing, and
    with an array of non-blank strings they do not throw: the ids are
    recorded, to be sent when a connection opens. *)
Theorem calls_made_offline_send_nothing (w : World) (arg : JsArg) (ids : list string) :
  state w <> connected ->
  effects_of (subscribe arg w) = [] /\
  effects_of (unsubscribe arg w) = [] /\
  (well_formed ids ->
   result_of (subscribe (Arr (map Str ids)) w) = Ok tt /\
   result_of (unsubscribe (Arr (map Str ids)) w) = Ok tt).
Proof.
  intros Hst. apply state_eqb_neq in Hst.
  assert (forall l, effects_of (subscribe_ids l w) = [] /\
                    result_of (subscribe_ids l w) = Ok tt) as Hsub.
  { intros l. unfold subscribe_ids, isConnected. rewrite Hst.
    by destruct (filter _ l). }
  assert (forall l, effects_of (unsubscribe_ids l w) = [] /\
                    result_of (unsubscribe_ids l w) = Ok tt) as Hunsub.
  { intros l. unfold unsubscribe_ids, isConnected. rewrite Hst.
    destruct (channel w); [| done]. by destruct (filter _ l). }
  rewrite !subscribe_checked, !unsubscribe_checked.
  split; [| split].
  - destruct arg as [|items]; [done |]. destruct (checked_ids items); [| done]. apply Hsub.
  - destruct arg as [|items]; [done |]. destruct (checked_ids items); [| done]. apply Hunsub.
  - intros Hok. rewrite (checked_ids_strings ids Hok). split; [apply Hsub | apply Hunsub].
Qed.

Lemma calls_made_offline_witness :
  effects_of (subscribe (Arr [Str "a"]) market0) = [] /\
  effects_of (unsubscribe (Arr [Str "a"]) market0) = [] /\
  (well_formed ["a"] ->
   result_of (subscribe (Arr (map Str ["a"])) market0) = Ok tt /\
   result_of (unsubscribe (Arr (map Str ["a"])) market0) = Ok tt).
Proof.
  assert (state market0 <> connected) as Hst by discriminate.
  exact (calls_made_offline_send_nothing market0 (Arr [Str "a"]) ["a"] Hst).
Defined.

(** X21. [subscribe] with ids that are all subscribed already does
    nothing, in both channels and whatever the state of the connection:
    the client is left as it is and nothing is sent. So a call of
    [subscribe] that is repeated sends nothing the second time. *)
Theorem subscribe_again_changes_nothing (w : World) (ids : list string) :
  well_formed ids ->
  let w1 := world_of (subscribe (Arr (map Str ids)) w) in
  subscribe (Arr (map Str ids)) w1 = (Ok tt, w1, []).
Proof.
  intros Hok w1.
  destruct (subscribed_after_subscribe w ids Hok) as (new & Hnew & _ & Hin).
  fold w1 in Hnew.
  rewrite subscribe_checked, (checked_ids_strings ids Hok). unfold subscribe_ids.
  rewrite (filter_none _ ids); [done |].
  intros id Hid Hhas. apply JsSet_has_false in Hhas. apply Hhas.
  rewrite Hnew. apply Hin. by right.
Qed.

Lemma subscribe_again_witness :
  subscribe (Arr (map Str ["a"; "b"]))
    (world_of (subscribe (Arr (map Str ["a"; "b"])) user0))
  = (Ok tt, world_of (subscribe (Arr (map Str ["a"; "b"])) user0), []).
Proof.
  assert (well_formed ["a"; "b"]) as Hok by (repeat constructor).
  exact (subscribe_again_changes_nothing user0 ["a"; "b"] Hok).
Defined.

(** X22. What a connected client hands to its transport when its
    subscriptions change, in a history where [connect()] was not called
    while a reconnection was pending. The market channel sends the
    difference: for [subscribe] the ids of the argument that were not
    subscribed, as often as the argument lists them, and for
    [unsubscribe] the ones that were; it sends nothing when there is no
    such id. The user channel sends its whole list with the
    credentials: for [subscribe] when an id is new, for [unsubscribe]
    every time, even if no id was removed. *)
Theorem what_a_connected_client_sends (w : World) (ids : list string) :
  reachable w -> state w = connected -> well_formed ids ->
  exists i, ws w = Some i /\
    let fresh := filter (fun id => JsSet.has id (ledger w) = false) ids in
    let existing := filter (fun id => JsSet.has id (ledger w) = true) ids in
    let r1 := subscribe (Arr (map Str ids)) w in
    let r2 := unsubscribe (Arr (map Str ids)) w in
    effects_of r1 =
      match fresh, channel w with
      | [], _ => []
      | _ :: _, Market => [WsSend i (wire (asset_message fresh "subscribe"))]
      | _ :: _, User a => [WsSend i (wire (user_message a (getSubscribed (world_of r1))))]
      end /\
    effects_of r2 =
      match channel w, existing with
      | Market, [] => []
      | Market, _ :: _ => [WsSend i (wire (asset_message existing "unsubscribe"))]
      | User a, _ => [WsSend i (wire (user_message a (getSubscribed (world_of r2))))]
      end.
Proof.
  intros Hr Hst Hok.
  destruct (connected_client_holds_transport w Hr Hst) as (i & s & Hws & Hi & Hs).
  exists i. split; [done |]. cbv zeta.
  rewrite subscribe_checked, unsubscribe_checked, (checked_ids_strings ids Hok).
  unfold subscribe_ids, unsubscribe_ids, isConnected, getSubscribed. rewrite Hst. cbn.
  split.
  - destruct (filter _ ids) as [|id fresh]; [done |].
    destruct (channel w); by rewrite (send_open _ (set_ledger _ w) i s Hst Hws Hi Hs).
  - destruct (channel w).
    + destruct (filter _ ids) as [|id existing]; [done |].
      by rewrite (send_open _ (set_ledger _ w) i s Hst Hws Hi Hs).
    + by rewrite (send_open _ (set_ledger _ w) i s Hst Hws Hi Hs).
Qed.

Lemma what_a_connected_client_sends_witness :
  exists i, ws (fst (run [CallConnect; SocketOpens 0] market0)) = Some i /\
    effects_of (subscribe (Arr (map Str ["a"; "a"]))
                  (fst (run [CallConnect; SocketOpens 0] market0)))
    = [WsSend i (wire (asset_message ["a"; "a"] "subscribe"))].
Proof.
  assert (reachable (fst (run [CallConnect; SocketOpens 0] market0))) as Hr.
  { apply (reachable_step _ (SocketOpens 0)); [| done].
    apply (reachable_step _ CallConnect); [| done].
    apply reachable_new. }
  assert (state (fst (run [CallConnect; SocketOpens 0] market0)) = connected) as Hst.
  { vm_compute. reflexivity. }
  assert (well_formed ["a"; "a"]) as Hok by (repeat constructor).
  destruct (what_a_connected_client_sends _ ["a"; "a"] Hr Hst Hok) as (i & Hws & H1 & _).
  exists i. split; [exact Hws |]. exact H1.
Defined.


(** ** The callbacks of a channel *)

Lemma addEventCallback_closed (event : string) (callback : nat) (w : World) :
  addEventCallback event callback w =
    (Ok tt,
     set_eventCallbacks
       (JsMap.set event (JsSet.add callback (callbacks_for event w)) (eventCallbacks w)) w,
     []).
Proof.
  destruct w. unfold addEventCallback, callbacks_for. go_all.
  destruct (JsMap.get event _) eqn:E; go_all.
  - by rewrite E.
  - by rewrite JsMap_get_set, JsMap_set_set.
Qed.

Lemma removeEventCallback_closed (event : string) (callback : nat) (w : World) :
  removeEventCallback event callback w =
    (Ok tt,
     match JsMap.get event (eventCallbacks w) with
     | Some cbs =>
         set_eventCallbacks (JsMap.set event (JsSet.delete callback cbs) (eventCallbacks w)) w
     | None => w
     end,
     []).
Proof. destruct w. unfold removeEventCallback. by go_all. Qed.

Lemma callbacks_for_added (event ev : string) (callback : nat) (w : World) :
  callbacks_for ev (world_of (addEventCallback event callback w))
  = (if decide (ev = event) then JsSet.add callback (callbacks_for event w)
     else callbacks_for ev w).
Proof.
  rewrite addEventCallback_closed. unfold callbacks_for at 1. cbn.
  destruct (decide (ev = event)) as [-> | Hne].
  - by rewrite JsMap_get_set.
  - by rewrite JsMap_get_set_ne.
Qed.

Lemma callbacks_for_removed (event ev : string) (callback : nat) (w : World) :
  callbacks_for ev (world_of (removeEventCallback event callback w))
  = (if decide (ev = event) then JsSet.delete callback (callbacks_for event w)
     else callbacks_for ev w).
Proof.
  rewrite removeEventCallback_closed. unfold callbacks_for. cbn.
  destruct (JsMap.get event (eventCallbacks w)) as [cbs|] eqn:E; cbn.
  - destruct (decide (ev = event)) as [-> | Hne].
    + by rewrite JsMap_get_set.
    + by rewrite JsMap_get_set_ne.
  - destruct (decide (ev = event)) as [-> | Hne]; [| done]. by rewrite E.
Qed.

Lemma handleParsedMessage_closed (eventType : option string) (w : World) :
  handleParsedMessage (Object eventType) w =
    (Ok tt, w,
     map Invoke (default [] (eventType ≫= fun ev => JsMap.get ev (eventCallbacks w)))
       ++ map Invoke (callbacks_for "message" w)).
Proof.
  unfold handleParsedMessage, emitEventCallback, callbacks_for. rewrite bind_unfold.
  cbn [mbind option_bind].
  destruct (eventType ≫= _) as [cbs1|]; destruct (JsMap.get "message" _) as [cbs2|];
    cbn; by rewrite ?app_nil_r.
Qed.

Lemma step_keeps_callbacks (input : Input) :
  match input with
  | CallDisconnect | CallOn _ _ | CallOff _ _ => True
  | _ => keeps eventCallbacks (step input)
  end.
Proof. destruct input; try done; unfold_methods_only; unfold setState; keep. Qed.

Lemma step_callbacks_NoDup (input : Input) (w : World) :
  (forall ev, NoDup (callbacks_for ev w)) ->
  forall ev, NoDup (callbacks_for ev (world_of (step input w))).
Proof.
  intros H ev. pose proof (step_keeps_callbacks input) as Hk.
  destruct input; try (unfold callbacks_for; rewrite Hk; apply H); unfold step.
  - rewrite disconnect_run. unfold callbacks_for. cbn. apply NoDup_nil_2.
  - rewrite callbacks_for_added. destruct (decide _); [| apply H].
    apply NoDup_JsSet_add, H.
  - rewrite callbacks_for_removed. destruct (decide _); [| apply H].
    apply NoDup_JsSet_delete, H.
Qed.

Lemma run_callbacks_NoDup (inputs : list Input) (w : World) :
  (forall ev, NoDup (callbacks_for ev w)) ->
  forall ev, NoDup (callbacks_for ev (fst (run inputs w))).
Proof.
  revert w. induction inputs as [|input rest IH]; intros w H; cbn; [done |].
  apply IH. by apply step_callbacks_NoDup.
Qed.

(** X24. In every history of a client, no channel event lists a
    callback twice, however often it was registered, and a callback that
    is registered with [onBook], [onTrade] and the like is listed. A
    message that is an object makes the client call the callbacks of
    its [event_type], oldest first, and then the callbacks registered
    for all messages; the client itself is left as it is. *)
Theorem callbacks_are_invoked_in_order
    (ch : Channel) (o : ClobClientOptions) (throws : bool) (inputs : list Input)
    (event : string) (callback : nat) :
  let w := world_of (step (CallOn event callback) (fst (run inputs (new_client ch o throws)))) in
  callback ∈ callbacks_for event w /\
  (forall ev, NoDup (callbacks_for ev w)) /\
  (forall ev, handleParsedMessage (Object (Some ev)) w
              = (Ok tt, w, map Invoke (callbacks_for ev w)
                             ++ map Invoke (callbacks_for "message" w))).
Proof.
  intros w. split; [| split].
  - unfold w, step. rewrite callbacks_for_added, decide_True by done.
    unfold JsSet.add, JsSet.has. case_bool_decide; [done |].
    apply elem_of_app. right. left.
  - apply step_callbacks_NoDup. apply run_callbacks_NoDup.
    intros ev. apply NoDup_nil_2.
  - intros ev. by rewrite handleParsedMessage_closed.
Qed.

(** X25. The function that [onBook], [onTrade] and the like return
    undoes the registration: when the callback was not registered for
    the event, registering it and calling that function leaves the
    callbacks of every event as they were. *)
Theorem removing_a_callback_undoes_its_registration
    (w : World) (event : string) (callback : nat) :
  callback ∉ callbacks_for event w ->
  let w1 := world_of (step (CallOn event callback) w) in
  let w2 := world_of (step (CallOff event callback) w1) in
  callbacks_for event w1 = callbacks_for event w ++ [callback] /\
  forall ev, callbacks_for ev w2 = callbacks_for ev w.
Proof.
  intros Hnew w1 w2.
  assert (callbacks_for event w1 = callbacks_for event w ++ [callback]) as H1.
  { unfold w1, step. rewrite callbacks_for_added, decide_True by done.
    by apply JsSet_add_new. }
  split; [done |]. intros ev. unfold w2, step. rewrite callbacks_for_removed.
  destruct (decide (ev = event)) as [-> | Hne].
  - rewrite H1. rewrite (JsSet_delete_middle callback _ []); [by rewrite app_nil_r | done |].
    apply not_elem_of_nil.
  - unfold w1, step. by rewrite callbacks_for_added, decide_False.
Qed.

Lemma removing_a_callback_witness :
  callbacks_for "book" (world_of (step (CallOn "book" 7) market0))
    = callbacks_for "book" market0 ++ [7%nat] /\
  forall ev,
    callbacks_for ev
      (world_of (step (CallOff "book" 7) (world_of (step (CallOn "book" 7) market0))))
    = callbacks_for ev market0.
Proof.
  assert (7%nat ∉ callbacks_for "book" market0) as H by apply not_elem_of_nil.
  exact (removing_a_callback_undoes_its_registration market0 "book" 7 H).
Defined.

Lemma never_invoke_otherwise (input : Input) :
  match input with
  | SocketMessage _ _ _ => True
  | _ => never is_invoke (step input)
  end.
Proof. destruct input; try done; unfold_methods_only; quieten. Qed.

Lemma onmessage_invokes_nothing (data : string) (parsed : option Parsed) (w : World) :
  (forall ev, callbacks_for ev w = []) ->
  Forall (fun e => is_invoke e = false) (effects_of (onmessage data parsed w)).
Proof.
  intros Hnone.
  assert (forall v, handleParsedMessage v w = (Ok tt, w, [])) as Hnothing.
  { intros [|et]; [done |]. rewrite handleParsedMessage_closed, Hnone.
    destruct et as [ev|]; cbn; [| done].
    specialize (Hnone ev). unfold callbacks_for in Hnone. by rewrite Hnone. }
  unfold onmessage, handleIncomingMessage. go.
  destruct parsed as [v|]; go; rewrite ?Hnothing; cbn; by repeat constructor.
Qed.

Lemma step_without_callbacks (input : Input) (w : World) :
  registers_nothing input = true -> (forall ev, callbacks_for ev w = []) ->
  (forall ev, callbacks_for ev (world_of (step input w)) = []) /\
  Forall (fun e => is_invoke e = false) (effects_of (step input w)).
Proof.
  intros Hin Hnone. split.
  - intros ev. pose proof (step_keeps_callbacks input) as Hk.
    destruct input; try discriminate;
      try (unfold callbacks_for; rewrite Hk; apply Hnone); unfold step.
    + by rewrite disconnect_run.
    + rewrite callbacks_for_removed. rewrite !Hnone. by destruct (decide _).
  - pose proof (never_invoke_otherwise input) as Hnever.
    destruct input; try apply Hnever. unfold step. rewrite socket_event_run.
    destruct (sockets w !! i) as [s|]; [| apply Forall_nil_2].
    destruct (is_OPEN (readyState s)); [| apply Forall_nil_2].
    cbn. destruct (handlers s); [| apply Forall_nil_2].
    by apply onmessage_invokes_nothing.
Qed.

(** X26. [disconnect()] forgets the callbacks that were registered
    with [onBook], [onTrade] and the like, in every world: as long as
    none is registered anew, no message makes the client call a
    callback, also after the client has connected again. *)
Theorem disconnect_forgets_the_callbacks (w : World) (inputs : list Input) :
  forallb registers_nothing inputs = true ->
  let w1 := world_of (step CallDisconnect w) in
  (forall ev, callbacks_for ev w1 = []) /\
  Forall (fun e => is_invoke e = false) (snd (run inputs w1)).
Proof.
  intros Hin w1.
  assert (forall ev, callbacks_for ev w1 = []) as Hnone.
  { intros ev. unfold w1, step. by rewrite disconnect_run. }
  split; [done |]. clearbody w1. revert w1 Hnone.
  induction inputs as [|input rest IH]; intros w1 Hnone; cbn in *; [apply Forall_nil_2 |].
  apply andb_true_iff in Hin as [H1 H2].
  destruct (step_without_callbacks input w1 H1 Hnone) as [Hnone' Hfx].
  apply Forall_app. split; [done |]. by apply IH.
Qed.

Lemma disconnect_forgets_the_callbacks_witness :
  let w := fst (run [CallOn "book" 7; CallConnect; SocketOpens 0] market0) in
  (forall ev, callbacks_for ev (world_of (step CallDisconnect w)) = []) /\
  Forall (fun e => is_invoke e = false)
    (snd (run [CallConnect; SocketOpens 1;
               SocketMessage 1 "{}" (Some (Object (Some "book")))]
            (world_of (step CallDisconnect w)))).
Proof.
  exact (disconnect_forgets_the_callbacks
           (fst (run [CallOn "book" 7; CallConnect; SocketOpens 0] market0))
           [CallConnect; SocketOpens 1; SocketMessage 1 "{}" (Some (Object (Some "book")))]
           eq_refl).
Defined.

(** ** The constructor of the user channel, and the unified client *)


Lemma connect_new_client (ch : Channel) (o : ClobClientOptions) :
  connect (new_client ch o false) =
    (Ok (Some 0%nat),
     with_new_connection (set_isIntentionalClose false (new_client ch o false)),
     [Emit (StateChange connecting disconnected);
      WsNew 0 (url (internal_options (default_url ch) o))]).
Proof.
  rewrite connect_creates by (by left).
  by rewrite createConnection_constructs.
Qed.

(** X28. [connectAll()] on a [ClobClient] whose credentials the
    constructor of the user channel does not accept, or that has none,
    still creates the market channel and starts its connection: the
    transport of the market channel is constructed and the state of the
    market client is [connecting], while the promise of the user channel
    is rejected and no user client exists. *)
Theorem connectAll_without_credentials_starts_the_market_channel
    (refuses : string -> bool) (o : ClobClientOptions) (a : JsAuth) :
  refuses (default DEFAULT_CLOB_WSS_URL (opt_url o)) = false ->
  (forall w t, new_ClobUserClient a o t <> Ok w) ->
  let r := ClobClient.connectAll refuses (ClobClient.new o a) in
  r.1.1.1 = ClobClient.Follows ClobClient.MarketChannel (Some 0%nat) /\
  (exists f, r.1.1.2 = ClobClient.Rejected f) /\
  ClobClient.userClient r.1.2 = None /\
  (exists w, ClobClient.marketClient r.1.2 = Some w /\ state w = connecting) /\
  r.2 = [(ClobClient.MarketChannel, Emit (StateChange connecting disconnected));
         (ClobClient.MarketChannel,
          WsNew 0 (default DEFAULT_CLOB_WSS_URL (opt_url o)))].
Proof.
  intros Hm Hno r. subst r.
  unfold ClobClient.connectAll, ClobClient.connectMarket, ClobClient.market,
    ClobClient.new, new_ClobMarketClient, ClobClient.throws_for.
  cbn [ClobClient.marketClient ClobClient.options internal_options url].
  rewrite Hm, connect_new_client.
  unfold result_of, world_of, effects_of. cbn [fst snd].
  unfold ClobClient.connectUser, ClobClient.user.
  cbn [ClobClient.userClient ClobClient.set_marketClient ClobClient.auth ClobClient.options].
  set (t := ClobClient.throws_for refuses DEFAULT_CLOB_USER_WSS_URL o).
  assert (exists e, new_ClobUserClient a o t = Thrown e) as [e He].
  { destruct (new_ClobUserClient a o t) as [w|e] eqn:E; [| by eexists].
    by destruct (Hno w t). }
  destruct a as [| |k s p].
  - cbn. repeat split; eauto.
  - rewrite He. cbn. repeat split; eauto.
  - rewrite He. cbn. repeat split; eauto.
Qed.

Lemma connectAll_without_credentials_witness :
  let r := ClobClient.connectAll (fun _ => false) (ClobClient.new default_options Falsy) in
  r.1.1.1 = ClobClient.Follows ClobClient.MarketChannel (Some 0%nat) /\
  (exists f, r.1.1.2 = ClobClient.Rejected f) /\
  ClobClient.userClient r.1.2 = None.
Proof.
  assert (forall w t, new_ClobUserClient Falsy default_options t <> Ok w) as H
    by (intros w t; discriminate).
  pose proof (connectAll_without_credentials_starts_the_market_channel
                (fun _ => false) default_options Falsy eq_refl H) as (H1 & H2 & H3 & _).
  exact (conj H1 (conj H2 H3)).
Defined.



(** X30. [disconnect()] of a [ClobClient] disconnects the channels
    that were created and creates none: on a client whose channels were
    never used it does nothing, and a channel that exists is afterwards
    disconnected, with no subscription left. *)
Theorem unified_disconnect_creates_no_channel (c : ClobClient.State) :
  let r := ClobClient.disconnect c in
  (ClobClient.marketClient c = None -> ClobClient.userClient c = None -> r = (c, [])) /\
  (ClobClient.marketClient r.1 = None <-> ClobClient.marketClient c = None) /\
  (ClobClient.userClient r.1 = None <-> ClobClient.userClient c = None) /\
  (forall w, ClobClient.marketClient r.1 = Some w \/ ClobClient.userClient r.1 = Some w ->
     state w = disconnected /\ getSubscribed w = [] /\ isIntentionalClose w = true).
Proof.
  intros r. subst r. unfold ClobClient.disconnect.
  destruct c as [[wm|] [wu|] co ca]; cbn;
    rewrite ?disconnect_run; unfold world_of, effects_of; cbn [fst snd];
    (split; [try done |]); (split; [done |]); (split; [done |]);
    intros w [[= <-] | [= <-]]; done.
Qed.
